(** * FalconPass: client-side cryptography and vault service

    A shallow embedding of [frontend/src/crypto/index.ts] and of the
    decrypting half of the vault service ([decryptVaultEntry],
    [getVaultEntries], [importVault]) together with the properties their
    specification states; and, after them, of the callers of that code:
    the storing half of the vault service, the vault store, the vault
    service object and the loop of the login handshake, with properties
    read off the code.

    Conventions of the embedding.
    - A [Uint8Array] is a [list byte].
    - A JavaScript string is a [string]; non-ASCII text is held by its UTF-8
      bytes (so the lock emoji of the placeholder names takes four
      characters here).
    - A number that the code computes with is a [number]: a rational, [NaN]
      or an infinity.  Limits of the engine (memory, the longest string) are
      not modelled.
    - A function that can throw returns a [result]; a function that also
      reads the random source, the clock or the network, or writes to the
      console, is a state transformer over that state.
    - [libsodium-wrappers], [argon2-browser], [JSON], [Date] and the HTTP
      client are dependencies of the repository, not part of it.  They are
      interfaces (type classes) here; what a theorem needs of them is a
      named hypothesis, and [Module Ref] gives concrete instances on which
      the hypotheses hold and on which the code can be run. *)

From Stdlib Require Import ZArith NArith QArith Qcanon Qround Lia.
From Stdlib.Strings Require Import Byte Ascii String.
From stdpp Require Import base option list strings gmap pretty.

Set Warnings "-register-all".

Open Scope Z_scope.

(** ** JavaScript values, exceptions and results *)

Module Js.

(** The exceptions the code meets: the constructor is the error class, the
    argument its message. *)
Inductive exn : Type :=
| Error (msg : string)
| TypeError (msg : string)
| RangeError (msg : string)
| SyntaxError (msg : string).

(** [error.name]: the class of an exception. *)
Definition error_name (e : exn) : string :=
  match e with
  | Error _ => "Error"
  | TypeError _ => "TypeError"
  | RangeError _ => "RangeError"
  | SyntaxError _ => "SyntaxError"
  end.

(** Outcome of an expression that may throw. *)
Inductive result (A : Type) : Type :=
| Ok (a : A)
| Throw (e : exn).
Arguments Ok {A} a.
Arguments Throw {A} e.

#[export] Instance result_ret : MRet result := @Ok.
#[export] Instance result_bind : MBind result :=
  λ A B f r, match r with Ok a => f a | Throw e => Throw e end.
#[export] Instance result_fmap : FMap result :=
  λ A B f r, match r with Ok a => Ok (f a) | Throw e => Throw e end.

(** [try { body } catch (error) { handler }] *)
Definition try_catch {A} (body : result A) (handler : exn → result A) : result A :=
  match body with
  | Ok a => Ok a
  | Throw e => handler e
  end.

(** Values that [JSON.parse] and [response.json()] produce, and
    [undefined].  A number is an integer here: the code computes with none
    of them and reads only their truth value. *)
Inductive jsval : Type :=
| VUndefined
| VNull
| VBool (b : bool)
| VNum (n : Z)
| VStr (s : string)
| VArr (l : list jsval)
| VObj (o : gmap string jsval).

(** ToBoolean *)
Definition truthy (v : jsval) : bool :=
  match v with
  | VUndefined | VNull => false
  | VBool b => b
  | VNum n => negb (n =? 0)
  | VStr s => negb (String.eqb s "")
  | VArr _ | VObj _ => true
  end.

(** [v.name] for the names that the service reads ([format], [entries],
    [id], [encryptedData], [createdAt], [updatedAt], [error], [data]), none
    of which a prototype, an array or a string defines: reading a property
    of [undefined] or [null] throws, an object answers with its own
    property or [undefined], every other value with [undefined]. *)
Definition prop_get (v : jsval) (name : string) : result jsval :=
  match v with
  | VUndefined => Throw (TypeError "Cannot read properties of undefined")
  | VNull => Throw (TypeError "Cannot read properties of null")
  | VObj o => Ok (default VUndefined (o !! name))
  | _ => Ok VUndefined
  end.

(** [v !== 'literal'] *)
Definition strict_neq_str (v : jsval) (lit : string) : bool :=
  match v with
  | VStr s => negb (String.eqb s lit)
  | _ => true
  end.

(** One character of a string as a string: [s[i]]. *)
Definition char_at (s : string) (i : nat) : option string :=
  match String.get i s with
  | Some c => Some (String c EmptyString)
  | None => None
  end.

Fixpoint index_props_from {A} (i : nat) (l : list A) : list (string * A) :=
  match l with
  | [] => []
  | x :: l' => (pretty i, x) :: index_props_from (S i) l'
  end.

(** A surrogate, which is a string of one code unit, held by the three
    bytes that the UTF-8 scheme gives its number. *)
Definition surrogate (u : N) : string :=
  String (ascii_of_N (224 + u / 4096))
    (String (ascii_of_N (128 + u / 64 mod 64))
       (String (ascii_of_N (128 + u mod 64)) EmptyString)).

(** The code units of a string, which are what a string is indexed by, each
    as a string: a character of one, two or three bytes is one code unit, a
    character of four bytes is a pair of surrogates.  (Text that is cut
    off inside a character, which no decoder returns, ends with the rest
    as one unit.) *)
Fixpoint code_units (s : string) : list string :=
  match s with
  | EmptyString => []
  | String c0 s0 =>
      let b0 := N_of_ascii c0 in
      if (b0 <? 192)%N then String c0 EmptyString :: code_units s0
      else
        match s0 with
        | EmptyString => [s]
        | String c1 s1 =>
            if (b0 <? 224)%N then String c0 (String c1 EmptyString) :: code_units s1
            else
              match s1 with
              | EmptyString => [s]
              | String c2 s2 =>
                  if (b0 <? 240)%N
                  then String c0 (String c1 (String c2 EmptyString)) :: code_units s2
                  else
                    match s2 with
                    | EmptyString => [s]
                    | String c3 s3 =>
                        let point :=
                          ((b0 mod 8) * 262144 + (N_of_ascii c1 mod 64) * 4096
                           + (N_of_ascii c2 mod 64) * 64 + N_of_ascii c3 mod 64)%N in
                        let rest := (point - 65536)%N in
                        surrogate (55296 + rest / 1024)
                          :: surrogate (56320 + rest mod 1024) :: code_units s3
                    end
              end
        end
  end.

(** The own enumerable properties that an object spread [{...v}] copies:
    the properties of an object, the indices of an array or of a string,
    nothing for the other values. *)
Definition own_props (v : jsval) : gmap string jsval :=
  match v with
  | VObj o => o
  | VArr l => list_to_map (index_props_from 0 l)
  | VStr s => list_to_map (index_props_from 0 (VStr <$> code_units s))
  | _ => ∅
  end.

(** A number that the code computes with.  A finite one is held as the
    rational that it is; doubling it and comparing it with a loop counter,
    which is all that the code does with one, are exact. *)
Inductive number : Type :=
| Finite (q : Qc)
| NaN
| Infinity (negative : bool).

(** The integers among the numbers; a numeral in the place of a number
    stands for it. *)
Definition of_Z (n : Z) : number := Finite (Q2Qc (inject_Z n)).
Coercion of_Z : Z >-> number.

Definition integer_of (x : number) : option Z :=
  match x with
  | Finite q => if (Qden q =? 1)%positive then Some (Qnum q) else None
  | NaN | Infinity _ => None
  end.

(** [x * 2] *)
Definition twice (x : number) : number :=
  match x with
  | Finite q => Finite (Qcmult q (Q2Qc (inject_Z 2)))
  | NaN => NaN
  | Infinity negative => Infinity negative
  end.

(** How often the body of [for (let i = 0; i < x; i++)] runs: once for
    every natural number below [x]; for [Infinity] the loop does not end. *)
Definition turns (x : number) : option nat :=
  match x with
  | Finite q => Some (Z.to_nat (Qceiling q))
  | NaN | Infinity true => Some 0%nat
  | Infinity false => None
  end.

End Js.
Export Js.

(** ** Typed arrays *)

Abbreviation bytes := (list byte).

Module Uint8Array.

(** [new Uint8Array(n)]: [n] zero bytes. *)
Definition new (n : nat) : bytes := replicate n x00.

(** [dst.set(src, offset)]: overwrite [dst] from [offset] on; a source that
    does not fit throws. *)
Definition set (dst src : bytes) (offset : nat) : result bytes :=
  if decide (offset + length src ≤ length dst)%nat
  then Ok (take offset dst ++ src ++ drop (offset + length src) dst)
  else Throw (RangeError "offset is out of bounds").

(** [a.slice(start, end)] and [a.slice(start)] for non-negative indices;
    indices past the end are clamped. *)
Definition slice (a : bytes) (start stop : nat) : bytes :=
  take (stop - start) (drop start a).

Definition slice_from (a : bytes) (start : nat) : bytes := drop start a.

End Uint8Array.

(** ** Bytes and their bits *)

Module Bytes.

#[export] Instance byte_eq_dec : EqDecision byte := Byte.byte_eq_dec.

Definition byte_of_N (n : N) : byte := default x00 (Byte.of_N n).

Definition byte_xor (a b : byte) : byte :=
  let '(a0, (a1, (a2, (a3, (a4, (a5, (a6, a7))))))) := Byte.to_bits a in
  let '(b0, (b1, (b2, (b3, (b4, (b5, (b6, b7))))))) := Byte.to_bits b in
  Byte.of_bits (xorb a0 b0, (xorb a1 b1, (xorb a2 b2, (xorb a3 b3,
               (xorb a4 b4, (xorb a5 b5, (xorb a6 b6, xorb a7 b7))))))).

End Bytes.
Export Bytes.

(** ** The libraries the crypto module calls *)

(** [libsodium-wrappers].  The random source is explicit: [rng] is its
    state, and drawing bytes returns the next state. *)
Class Sodium : Type := {
  rng : Type;
  randombytes_buf : number → rng → result bytes * rng;
  from_string : string → bytes;
  to_string : bytes → result string;
  crypto_secretbox_easy : bytes → bytes → bytes → result bytes;
  crypto_secretbox_open_easy : bytes → bytes → bytes → result bytes;
  to_base64 : bytes → string;
  from_base64 : string → result bytes;
}.

Inductive ArgonType : Type := Argon2d | Argon2i | Argon2id.

(** The options object handed to [argon2.hash]. *)
Record argon2_options : Type := {
  pass : string;
  salt : bytes;
  type : ArgonType;
  time : Z;
  mem : Z;
  hashLen : Z;
}.

(** [argon2-browser]: [argon2.hash(options)], of whose result the code reads
    the [hash] field.  A rejected promise is a [Throw]. *)
Class Argon2 : Type := {
  argon2_hash : argon2_options → result bytes;
}.

(** ** UTF-8

    The well-formedness table of RFC 3629, over the numbers of the bytes. *)

Module Utf8.

Definition between (lo hi x : N) : bool := ((lo <=? x) && (x <=? hi))%N.
Definition cont (x : N) : bool := between 128 191 x.

Fixpoint utf8_valid (bs : list N) : bool :=
  match bs with
  | [] => true
  | b0 :: r0 =>
      if (b0 <? 128)%N then utf8_valid r0
      else match r0 with
      | [] => false
      | b1 :: r1 =>
          if between 194 223 b0 then cont b1 && utf8_valid r1
          else match r1 with
          | [] => false
          | b2 :: r2 =>
              if (b0 =? 224)%N then between 160 191 b1 && cont b2 && utf8_valid r2
              else if between 225 236 b0 || between 238 239 b0
                   then cont b1 && cont b2 && utf8_valid r2
              else if (b0 =? 237)%N then between 128 159 b1 && cont b2 && utf8_valid r2
              else match r2 with
              | [] => false
              | b3 :: r3 =>
                  if (b0 =? 240)%N
                  then between 144 191 b1 && cont b2 && cont b3 && utf8_valid r3
                  else if between 241 243 b0
                  then cont b1 && cont b2 && cont b3 && utf8_valid r3
                  else if (b0 =? 244)%N
                  then between 128 143 b1 && cont b2 && cont b3 && utf8_valid r3
                  else false
              end
          end
      end
  end.

(** Text that is UTF-8: a string that holds whole, well-formed characters
    (a JavaScript string without a lone surrogate). *)
Definition well_formed (p : string) : Prop :=
  utf8_valid (map Byte.to_N (list_byte_of_string p)) = true.

(** The byte order mark U+FEFF, and a text without the one it begins
    with. *)
Definition byte_order_mark : string :=
  String "239" (String "187" (String "191" EmptyString)).

Definition without_byte_order_mark (s : string) : string :=
  match s with
  | String a (String b (String c rest)) =>
      if Ascii.eqb a "239" && Ascii.eqb b "187" && Ascii.eqb c "191" then rest else s
  | _ => s
  end.

End Utf8.
Export Utf8.

(** ** What the code relies on from the libraries

    Each is a documented property of the library, stated so that a theorem
    can name exactly the ones it uses. *)

Module Contract.

Section WithSodium.
Context `{Sodium}.

(** Decoding what [to_base64] wrote gives the bytes back. *)
Definition base64_roundtrip : Prop :=
  ∀ b : bytes, from_base64 (to_base64 b) = Ok b.

(** [randombytes_buf(n)] returns [n] bytes, for a length that it takes: an
    integer from [0] to [2^31 - 1]. *)
Definition randombytes_length : Prop :=
  ∀ (n : Z) (g : rng), 0 ≤ n < 2147483648 →
    ∃ b : bytes, (randombytes_buf n g).1 = Ok b ∧ length b = Z.to_nat n.

(** With a 24-byte nonce and a 32-byte key a message is sealed, and the box
    opens to the message under the same nonce and key. *)
Definition secretbox_roundtrip : Prop :=
  ∀ m n k : bytes, length n = 24%nat → length k = 32%nat →
    ∃ c : bytes, crypto_secretbox_easy m n k = Ok c
               ∧ crypto_secretbox_open_easy c n k = Ok m.

(** [p] is text that the string codec of the library carries unchanged:
    [to_string(from_string(p))] is [p]. *)
Definition utf8_text (p : string) : Prop :=
  to_string (from_string p) = Ok p.

(** The string codec: [from_string] encodes as [TextEncoder] does and
    [to_string] decodes as [TextDecoder] does, which leaves a byte order
    mark at the start of the text out. *)
Definition string_codec : Prop :=
  ∀ p : string, well_formed p →
    to_string (from_string p) = Ok (without_byte_order_mark p).

End WithSodium.

(** [argon2.hash] returns [hashLen] bytes. *)
Definition argon2_output_length `{Argon2} : Prop :=
  ∀ (o : argon2_options) (h : bytes),
    argon2_hash o = Ok h → length h = Z.to_nat (hashLen o).

End Contract.

(** ** frontend/src/crypto/index.ts *)

Module Crypto.

Definition SALT_BYTES : nat := 16.
Definition NONCE_BYTES : nat := 24.
Definition KEY_BYTES : nat := 32.

Record sealed : Type := { ciphertext : bytes; nonce : bytes }.
Record envelope : Type := { env_ciphertext : bytes; env_nonce : bytes; env_salt : bytes }.

Section WithSodium.
Context `{Sodium}.

Definition serializeEncryptedData (ciphertext nonce salt : bytes) : result string :=
  let combined := Uint8Array.new (length salt + length nonce + length ciphertext) in
  combined ← Uint8Array.set combined salt 0;
  combined ← Uint8Array.set combined nonce (length salt);
  combined ← Uint8Array.set combined ciphertext (length salt + length nonce);
  Ok (to_base64 combined).

Definition deserializeEncryptedData (serialized : string) : result envelope :=
  combined ← from_base64 serialized;
  let salt := Uint8Array.slice combined 0 SALT_BYTES in
  let nonce := Uint8Array.slice combined SALT_BYTES (SALT_BYTES + NONCE_BYTES) in
  let ciphertext := Uint8Array.slice_from combined (SALT_BYTES + NONCE_BYTES) in
  Ok {| env_ciphertext := ciphertext; env_nonce := nonce; env_salt := salt |}.

(** What [encryptData], [generatePassword] and [deriveKeyFromPassword] do:
    they draw from the random source, so they take and return its state. *)
Definition encryptData (data : string) (key : bytes) (g : rng) : result sealed * rng :=
  let '(drawn, g') := randombytes_buf (Z.of_nat NONCE_BYTES) g in
  (nonce ← drawn;
   let dataBytes := from_string data in
   ciphertext ← crypto_secretbox_easy dataBytes nonce key;
   Ok {| ciphertext := ciphertext; nonce := nonce |},
   g').

Definition decryptData (ciphertext nonce key : bytes) : result string :=
  try_catch
    (decrypted ← crypto_secretbox_open_easy ciphertext nonce key;
     to_string decrypted)
    (λ error, Throw (Error "Decryption failed. Invalid key or corrupted data.")).

(** The one error that [decryptData] throws. *)
Definition decryption_failed : exn :=
  Error "Decryption failed. Invalid key or corrupted data.".

(** The [options] argument of [generatePassword]: each flag may be absent. *)
Record password_options : Type := {
  uppercase : option bool;
  lowercase : option bool;
  numbers : option bool;
  symbols : option bool;
}.

(** Truth value of an optional flag: an absent flag is [undefined]. *)
Definition flag (o : option bool) : bool := default false o.

Definition default_options : password_options :=
  {| uppercase := Some true; lowercase := Some true;
     numbers := Some true; symbols := Some true |}.

Definition uppercaseChars : string := "ABCDEFGHIJKLMNOPQRSTUVWXYZ".
Definition lowercaseChars : string := "abcdefghijklmnopqrstuvwxyz".
Definition numberChars : string := "0123456789".
Definition symbolChars : string := "!@#$%^&*()_+-=[]{}|;:,.<>?".

(** The character set that the flags select, with the alphanumeric
    fallback of an empty selection. *)
Definition build_charset (options : password_options) : string :=
  let charset := "" in
  let charset := if flag (uppercase options) then charset +:+ uppercaseChars else charset in
  let charset := if flag (lowercase options) then charset +:+ lowercaseChars else charset in
  let charset := if flag (numbers options) then charset +:+ numberChars else charset in
  let charset := if flag (symbols options) then charset +:+ symbolChars else charset in
  if String.eqb charset "" then uppercaseChars +:+ lowercaseChars +:+ numberChars
  else charset.

(** One turn of the loop: [password += charset[randomBytes[i] % charset.length]].
    An index outside [randomBytes] or [charset] reads [undefined], which
    [+=] appends as the text "undefined". *)
Definition password_step (randomBytes : bytes) (charset : string)
    (password : string) (i : nat) : string :=
  match randomBytes !! i with
  | Some b =>
      let randomIndex := (Byte.to_nat b `mod` String.length charset)%nat in
      match char_at charset randomIndex with
      | Some c => password +:+ c
      | None => password +:+ "undefined"
      end
  | None => password +:+ "undefined"
  end.

(** The loop [for (let i = 0; i < length; i++)] takes [turns length] turns.
    If it does not end, the password grows until the engine refuses the
    string. *)
Definition generatePassword (length : option number) (options : option password_options)
    (g : rng) : result string * rng :=
  let length := default (of_Z 16) length in
  let options := default default_options options in
  let charset := build_charset options in
  let '(drawn, g') := randombytes_buf (twice length) g in
  (randomBytes ← drawn;
   match turns length with
   | Some n => Ok (foldl (password_step randomBytes charset) "" (seq 0 n))
   | None => Throw (RangeError "Invalid string length")
   end,
   g').

End WithSodium.

Record derived : Type := { key : bytes; key_salt : bytes }.

Definition deriveKeyFromPassword `{Sodium} `{Argon2}
    (password : string) (salt : option bytes) (g : rng) : result derived * rng :=
  let '(chosen, g') :=
    match salt with
    | Some s => (Ok s, g)
    | None => randombytes_buf (Z.of_nat SALT_BYTES) g
    end in
  (salt ← chosen;
   hash ← argon2_hash {| pass := password; salt := salt; type := Argon2id;
                         time := 3; mem := 65536; hashLen := Z.of_nat KEY_BYTES |};
   Ok {| key := hash; key_salt := salt |},
   g').

End Crypto.

(** ** Notions of the specification

    The words of the specification that are not names of the code: what it
    means for a character to be drawn from the selected character sets. *)

Module Wording.
Import Crypto.

Definition chars (s : string) : list ascii := list_ascii_of_string s.

(** A flag is set when it is present and true. *)
Definition is_set (o : option bool) : Prop := o = Some true.

(** [c] is in one of the character sets whose flag is set. *)
Definition selected (o : password_options) (c : ascii) : Prop :=
  (is_set (uppercase o) ∧ c ∈ chars uppercaseChars)
  ∨ (is_set (lowercase o) ∧ c ∈ chars lowercaseChars)
  ∨ (is_set (numbers o) ∧ c ∈ chars numberChars)
  ∨ (is_set (symbols o) ∧ c ∈ chars symbolChars).

Definition no_flag_set (o : password_options) : Prop :=
  ¬ is_set (uppercase o) ∧ ¬ is_set (lowercase o)
  ∧ ¬ is_set (numbers o) ∧ ¬ is_set (symbols o).

(** A letter of either case or a digit, by character code. *)
Definition alphanumeric (c : ascii) : Prop :=
  let n := nat_of_ascii c in
  (65 ≤ n ≤ 90 ∨ 97 ≤ n ≤ 122 ∨ 48 ≤ n ≤ 57)%nat.

(** A digit 0-9, by character code. *)
Definition is_digit (c : ascii) : Prop :=
  (48 ≤ nat_of_ascii c ≤ 57)%nat.

End Wording.

(** ** The runtime and the HTTP client the vault service calls *)

(** [JSON.parse] and [new Date().toISOString()]; reading the clock advances
    its state. *)
Class Runtime : Type := {
  JSON_parse : string → result jsval;
  clock : Type;
  Date_toISOString : clock → string * clock;
}.

(** [apiService.getVaultEntries()]: the response object of the request. *)
Class ApiService : Type := {
  net : Type;
  api_getVaultEntries : net → result jsval * net;
}.

(** ** The vault service *)

Module Vault.

(** An argument of [console.error]. *)
Inductive log_arg : Type :=
| LVal (v : jsval)
| LExn (e : exn).

Section WithLibraries.
Context `{Sodium} `{Runtime} `{ApiService}.

(** The state the service runs in.  [decrypt_calls] is ghost state: the
    arguments of the calls of [decryptVaultEntry] made so far. *)
Record world : Type := {
  w_clock : clock;
  w_net : net;
  console : list (list log_arg);
  decrypt_calls : list jsval;
}.

Definition M (A : Type) : Type := world → result A * world.

Definition ret {A} (a : A) : M A := λ w, (Ok a, w).
Definition throw {A} (e : exn) : M A := λ w, (Throw e, w).
Definition bind {A B} (m : M A) (f : A → M B) : M B :=
  λ w, match m w with
       | (Ok a, w') => f a w'
       | (Throw e, w') => (Throw e, w')
       end.
Definition lift {A} (r : result A) : M A := λ w, (r, w).

(** [try { body } catch (error) { handler }]: what [body] did to the state
    before it threw stays done. *)
Definition try_catchM {A} (body : M A) (handler : exn → M A) : M A :=
  λ w, match body w with
       | (Ok a, w') => (Ok a, w')
       | (Throw e, w') => handler e w'
       end.

Definition console_error (args : list log_arg) : M unit :=
  λ w, (Ok tt, {| w_clock := w_clock w; w_net := w_net w;
                  console := console w ++ [args];
                  decrypt_calls := decrypt_calls w |}).

Definition now_iso : M string :=
  λ w, let '(s, c) := Date_toISOString (w_clock w) in
       (Ok s, {| w_clock := c; w_net := w_net w;
                 console := console w;
                 decrypt_calls := decrypt_calls w |}).

Definition fetch_entries : M jsval :=
  λ w, let '(r, n) := api_getVaultEntries (w_net w) in
       (r, {| w_clock := w_clock w; w_net := n;
              console := console w;
              decrypt_calls := decrypt_calls w |}).

(** [a || b] with [b] evaluated only when [a] is falsy. *)
Definition or_else (a : jsval) (b : M jsval) : M jsval :=
  if truthy a then ret a else b.

(** The callback of [Array.prototype.map], element after element. *)
Fixpoint mapM {A B} (f : A → M B) (l : list A) : M (list B) :=
  match l with
  | [] => ret []
  | x :: l' => bind (f x) (λ y, bind (mapM f l') (λ ys, ret (y :: ys)))
  end.

(** [v.map(callback)]: only an array has a [map] to call. *)
Definition array_map (v : jsval) (callback : jsval → M jsval) : M (list jsval) :=
  match v with
  | VArr l => mapM callback l
  | VUndefined => throw (TypeError "Cannot read properties of undefined")
  | VNull => throw (TypeError "Cannot read properties of null")
  | _ => throw (TypeError "map is not a function")
  end.

(** [deserializeEncryptedData(v)] for a value of any type: a value that is
    not a string is refused by [sodium.from_base64]. *)
Definition deserialize_value (v : jsval) : result Crypto.envelope :=
  match v with
  | VStr serialized => Crypto.deserializeEncryptedData serialized
  | _ => Throw (TypeError "unsupported input type for input")
  end.

Definition decryptVaultEntry (encryptedEntry : jsval) (key : bytes) : result jsval :=
  try_catch
    (encryptedData ← prop_get encryptedEntry "encryptedData";
     envelope ← deserialize_value encryptedData;
     decryptedJson ← Crypto.decryptData (Crypto.env_ciphertext envelope)
                                        (Crypto.env_nonce envelope) key;
     entry ← JSON_parse decryptedJson;
     id ← prop_get encryptedEntry "id";
     createdAt ← prop_get encryptedEntry "createdAt";
     updatedAt ← prop_get encryptedEntry "updatedAt";
     Ok (VObj (<["updatedAt" := updatedAt]>
              (<["createdAt" := createdAt]>
              (<["id" := id]> (own_props entry))))))
    (λ error, Throw (Error "Failed to decrypt vault entry")).

(** A call of [decryptVaultEntry], recorded in the ghost state. *)
Definition call_decryptVaultEntry (encryptedEntry : jsval) (key : bytes) : M jsval :=
  λ w, (decryptVaultEntry encryptedEntry key,
        {| w_clock := w_clock w; w_net := w_net w;
           console := console w;
           decrypt_calls := decrypt_calls w ++ [encryptedEntry] |}).

#[local] Instance M_ret : MRet M := @ret.
#[local] Instance M_bind : MBind M := λ A B f m, bind m f.

(** The callback of [getVaultEntries]. *)
Definition fetched_entry (key : bytes) (encryptedEntry : jsval) : M jsval :=
  try_catchM
    (id ← lift (prop_get encryptedEntry "id");
     encryptedData ← lift (prop_get encryptedEntry "encryptedData");
     createdAt ← lift (prop_get encryptedEntry "createdAt");
     updatedAt ← lift (prop_get encryptedEntry "updatedAt");
     call_decryptVaultEntry
       (VObj (<["updatedAt" := updatedAt]>
             (<["createdAt" := createdAt]>
             (<["encryptedData" := encryptedData]>
             (<["id" := id]> ∅)))))
       key)
    (λ error,
     id ← lift (prop_get encryptedEntry "id");
     logged ← console_error [LVal (VStr "Failed to decrypt entry:"); LVal id; LExn error];
     id ← lift (prop_get encryptedEntry "id");
     createdAt ← lift (prop_get encryptedEntry "createdAt");
     updatedAt ← lift (prop_get encryptedEntry "updatedAt");
     ret (VObj (<["updatedAt" := updatedAt]>
               (<["createdAt" := createdAt]>
               (<["favorite" := VBool false]>
               (<["name" := VStr "🔒 Encrypted Entry"]>
               (<["id" := id]> ∅))))))).

Definition getVaultEntries (key : bytes) : M (list jsval) :=
  try_catchM
    (response ← fetch_entries;
     error ← lift (prop_get response "error");
     if truthy error then ret []
     else
       data ← lift (prop_get response "data");
       if negb (truthy data) then ret []
       else array_map data (fetched_entry key))
    (λ error,
     logged ← console_error [LVal (VStr "Failed to get vault entries:"); LExn error];
     ret []).

(** The callback of [importVault]. *)
Definition imported_entry (key : bytes) (encryptedEntry : jsval) : M jsval :=
  try_catchM
    (call_decryptVaultEntry encryptedEntry key)
    (λ error,
     id ← lift (prop_get encryptedEntry "id");
     logged ← console_error [LVal (VStr "Failed to decrypt entry during import:");
                        LVal id; LExn error];
     id ← lift (prop_get encryptedEntry "id");
     id ← or_else id (ret (VStr "unknown"));
     createdAt ← lift (prop_get encryptedEntry "createdAt");
     createdAt ← or_else createdAt (now ← now_iso; ret (VStr now));
     updatedAt ← lift (prop_get encryptedEntry "updatedAt");
     updatedAt ← or_else updatedAt (now ← now_iso; ret (VStr now));
     ret (VObj (<["updatedAt" := updatedAt]>
               (<["createdAt" := createdAt]>
               (<["favorite" := VBool false]>
               (<["name" := VStr "🔒 Encrypted Import Entry"]>
               (<["id" := id]> ∅))))))).

Definition importVault (jsonData : string) (key : bytes) : M (list jsval) :=
  try_catchM
    (importData ← lift (JSON_parse jsonData);
     format ← lift (prop_get importData "format");
     if strict_neq_str format "falconpass-export"
     then throw (Error "Invalid export format")
     else
       entries ← lift (prop_get importData "entries");
       array_map entries (imported_entry key))
    (λ error,
     logged ← console_error [LVal (VStr "Failed to import vault:"); LExn error];
     throw (Error "Failed to import vault: Invalid format")).

End WithLibraries.

End Vault.

(** ** Notions of the statements about the vault service *)

Module VaultWording.
Import Vault.

(** A value whose properties can be read: an entry of an archive or of a
    response is an object, never [null] or [undefined]. *)
Definition readable (v : jsval) : Prop := v ≠ VUndefined ∧ v ≠ VNull.

(** The value of [v.name] for a readable [v]. *)
Definition field (v : jsval) (name : string) : jsval :=
  match v with
  | VObj o => default VUndefined (o !! name)
  | _ => VUndefined
  end.

(** [v] is [a || fallback] for a fallback that is some string. *)
Definition or_some_string (a v : jsval) : Prop :=
  if truthy a then v = a else ∃ t : string, v = VStr t.

(** The placeholder that [importVault] puts in the place of [e]. *)
Definition import_placeholder (e v : jsval) : Prop :=
  ∃ o : gmap string jsval,
    v = VObj o
    ∧ o !! "id" = Some (if truthy (field e "id") then field e "id" else VStr "unknown")
    ∧ o !! "name" = Some (VStr "🔒 Encrypted Import Entry")
    ∧ o !! "favorite" = Some (VBool false)
    ∧ (∃ c, o !! "createdAt" = Some c ∧ or_some_string (field e "createdAt") c)
    ∧ (∃ u, o !! "updatedAt" = Some u ∧ or_some_string (field e "updatedAt") u).

(** The placeholder that [getVaultEntries] puts in the place of [e]. *)
Definition fetch_placeholder (e v : jsval) : Prop :=
  v = VObj (<["updatedAt" := field e "updatedAt"]>
           (<["createdAt" := field e "createdAt"]>
           (<["favorite" := VBool false]>
           (<["name" := VStr "🔒 Encrypted Entry"]>
           (<["id" := field e "id"]> ∅))))).

(** The object that [getVaultEntries] hands to [decryptVaultEntry]. *)
Definition fetched_wrapper (e : jsval) : jsval :=
  VObj (<["updatedAt" := field e "updatedAt"]>
       (<["createdAt" := field e "createdAt"]>
       (<["encryptedData" := field e "encryptedData"]>
       (<["id" := field e "id"]> ∅)))).

Section WithLibraries.
Context `{Sodium} `{Runtime} `{ApiService}.

(** What an entry of an import becomes: its decryption, or the placeholder
    when the decryption throws. *)
Definition import_outcome (key : bytes) (e v : jsval) : Prop :=
  match decryptVaultEntry e key with
  | Ok d => v = d
  | Throw _ => import_placeholder e v
  end.

(** What a fetched entry becomes. *)
Definition fetch_outcome (key : bytes) (e v : jsval) : Prop :=
  match decryptVaultEntry (fetched_wrapper e) key with
  | Ok d => v = d
  | Throw _ => fetch_placeholder e v
  end.

End WithLibraries.

End VaultWording.

(** ** Reference instances of the libraries

    Concrete, executable stand-ins for the dependencies, used to run the
    code on inputs.  The Base64 codec is the URL-safe alphabet without
    padding (the default variant of [libsodium-wrappers]), and the string
    codec is the one of [TextEncoder] and [TextDecoder].  The secret box, the
    password hash and the random source have the interface and the
    functional contract of the real ones and none of their security. *)

Module Ref.

(** *** Base64, URL-safe alphabet, no padding *)

Definition alphabet : list ascii :=
  list_ascii_of_string
    "ABCDEFGHIJKLMNOPQRSTUVWXYZabcdefghijklmnopqrstuvwxyz0123456789-_".

Definition enc6 (n : N) : ascii := nth (N.to_nat n) alphabet "A"%char.

Fixpoint index_of (c : ascii) (l : list ascii) (i : N) : option N :=
  match l with
  | [] => None
  | c' :: l' => if Ascii.eqb c c' then Some i else index_of c l' (i + 1)%N
  end.

Definition dec6 (c : ascii) : option N := index_of c alphabet 0%N.

Fixpoint encode_chars (bs : bytes) : list ascii :=
  match bs with
  | b0 :: b1 :: b2 :: rest =>
      let n := (Byte.to_N b0 * 65536 + Byte.to_N b1 * 256 + Byte.to_N b2)%N in
      enc6 (n / 262144) :: enc6 (n / 4096 mod 64) :: enc6 (n / 64 mod 64)
        :: enc6 (n mod 64) :: encode_chars rest
  | [b0; b1] =>
      let n := (Byte.to_N b0 * 1024 + Byte.to_N b1 * 4)%N in
      [enc6 (n / 4096); enc6 (n / 64 mod 64); enc6 (n mod 64)]
  | [b0] =>
      let n := (Byte.to_N b0 * 16)%N in
      [enc6 (n / 64); enc6 (n mod 64)]
  | [] => []
  end.

Fixpoint sextets (cs : list ascii) : option (list N) :=
  match cs with
  | [] => Some []
  | c :: cs' =>
      match dec6 c, sextets cs' with
      | Some n, Some ns => Some (n :: ns)
      | _, _ => None
      end
  end.

(** Leftover bits of a final group must be zero, and a single leftover
    character holds no byte. *)
Fixpoint decode_sextets (ns : list N) : option bytes :=
  match ns with
  | c0 :: c1 :: c2 :: c3 :: rest =>
      let n := (((c0 * 64 + c1) * 64 + c2) * 64 + c3)%N in
      match decode_sextets rest with
      | Some bs =>
          Some (byte_of_N (n / 65536) :: byte_of_N (n / 256 mod 256)
                  :: byte_of_N (n mod 256) :: bs)
      | None => None
      end
  | [c0; c1; c2] =>
      let n := ((c0 * 64 + c1) * 64 + c2)%N in
      if (n mod 4 =? 0)%N
      then Some [byte_of_N (n / 1024); byte_of_N (n / 4 mod 256)]
      else None
  | [c0; c1] =>
      let n := (c0 * 64 + c1)%N in
      if (n mod 16 =? 0)%N then Some [byte_of_N (n / 16)] else None
  | [_] => None
  | [] => Some []
  end.

Definition to_base64 (bs : bytes) : string :=
  string_of_list_ascii (encode_chars bs).

Definition from_base64 (s : string) : result bytes :=
  match sextets (list_ascii_of_string s) with
  | Some ns =>
      match decode_sextets ns with
      | Some bs => Ok bs
      | None => Throw (Error "invalid input")
      end
  | None => Throw (Error "invalid input")
  end.

(** *** The string codec *)

Definition from_string (s : string) : bytes := list_byte_of_string s.

(** [to_string] decodes as [TextDecoder] does with [fatal] set: bytes that
    are not UTF-8 are refused, and a byte order mark at the start is left
    out of the text. *)
Definition to_string (bs : bytes) : result string :=
  if utf8_valid (map Byte.to_N bs)
  then Ok (without_byte_order_mark (string_of_list_byte bs))
  else Throw (TypeError "The encoded data was not valid.").

(** *** Secret box: a keyed stream and a 16-byte keyed checksum *)

Definition keystream (key nonce : bytes) (i : nat) : byte :=
  byte_xor (byte_xor (nth (i mod 32) key x00) (nth (i mod 24) nonce x00))
           (byte_of_N (N.of_nat i mod 256)).

Fixpoint xor_stream (ks : nat → byte) (i : nat) (m : bytes) : bytes :=
  match m with
  | [] => []
  | b :: m' => byte_xor b (ks i) :: xor_stream ks (S i) m'
  end.

Fixpoint le_bytes (n : nat) (x : N) : bytes :=
  match n with
  | O => []
  | S n' => byte_of_N (x mod 256) :: le_bytes n' (x / 256)
  end.

Definition mix_step (modulus acc : N) (b : byte) : N :=
  ((acc * 257 + Byte.to_N b + 1) mod modulus)%N.

Definition mix (modulus : N) (input : bytes) : N :=
  fold_left (mix_step modulus) input 0%N.

Definition checksum (key nonce body : bytes) : bytes :=
  le_bytes 16 (mix (2 ^ 128) (key ++ nonce ++ body)).

Definition crypto_secretbox_easy (message nonce key : bytes) : result bytes :=
  if negb (length nonce =? 24)%nat then Throw (TypeError "invalid nonce length")
  else if negb (length key =? 32)%nat then Throw (TypeError "invalid key length")
  else
    let body := xor_stream (keystream key nonce) 0 message in
    Ok (checksum key nonce body ++ body).

Definition crypto_secretbox_open_easy (ciphertext nonce key : bytes) : result bytes :=
  if negb (length nonce =? 24)%nat then Throw (TypeError "invalid nonce length")
  else if negb (length key =? 32)%nat then Throw (TypeError "invalid key length")
  else if (length ciphertext <? 16)%nat then Throw (TypeError "ciphertext is too short")
  else
    let tag := take 16 ciphertext in
    let body := drop 16 ciphertext in
    if decide (tag = checksum key nonce body)
    then Ok (xor_stream (keystream key nonce) 0 body)
    else Throw (Error "wrong secret key for the given ciphertext").

(** *** Random source: a linear congruential generator *)

Definition lcg (g : N) : N := ((g * 1103515245 + 12345) mod 2147483648)%N.

Fixpoint draw (n : nat) (g : N) : bytes * N :=
  match n with
  | O => ([], g)
  | S n' =>
      let g1 := lcg g in
      let '(bs, g2) := draw n' g1 in
      (byte_of_N (g1 / 65536 mod 256) :: bs, g2)
  end.

(** The length must be an integer from [0] to [2^31 - 1]. *)
Definition randombytes_buf (x : number) (g : N) : result bytes * N :=
  match integer_of x with
  | Some n =>
      if (n <? 0) || (2147483648 <=? n)
      then (Throw (TypeError "length must be an unsigned integer"), g)
      else let '(bs, g') := draw (Z.to_nat n) g in (Ok bs, g')
  | None => (Throw (TypeError "length must be an unsigned integer"), g)
  end.

#[export] Instance sodium : Sodium :=
  Build_Sodium N randombytes_buf from_string to_string
    crypto_secretbox_easy crypto_secretbox_open_easy to_base64 from_base64.

(** *** Password hash *)

Definition argon2_hash (o : argon2_options) : result bytes :=
  if (length (salt o) <? 8)%nat then Throw (Error "salt too short")
  else if hashLen o <? 4 then Throw (Error "output too short")
  else
    let n := Z.to_nat (hashLen o) in
    Ok (le_bytes n (mix (2 ^ (8 * N.of_nat n))
                        (list_byte_of_string (pass o) ++ salt o
                           ++ le_bytes 4 (Z.to_N (time o))
                           ++ le_bytes 4 (Z.to_N (mem o))))).

#[export] Instance argon2 : Argon2 := Build_Argon2 argon2_hash.

(** *** JSON.parse

    A reader for JSON without string escapes, fractions and exponents; it
    answers [SyntaxError] on everything else.  A repeated key keeps its
    last value. *)

Definition quote : ascii := "034"%char.

Definition is_ws (c : ascii) : bool :=
  Ascii.eqb c " " || Ascii.eqb c "009" || Ascii.eqb c "010" || Ascii.eqb c "013".

Fixpoint skip_ws (s : list ascii) : list ascii :=
  match s with
  | c :: r => if is_ws c then skip_ws r else s
  | [] => []
  end.

Fixpoint strip_prefix (p s : list ascii) : option (list ascii) :=
  match p, s with
  | [], _ => Some s
  | a :: p', b :: s' => if Ascii.eqb a b then strip_prefix p' s' else None
  | _ :: _, [] => None
  end.

(** The characters up to the closing quote. *)
Fixpoint read_string (s acc : list ascii) : option (string * list ascii) :=
  match s with
  | [] => None
  | c :: r =>
      if Ascii.eqb c quote then Some (string_of_list_ascii (rev acc), r)
      else if Ascii.eqb c "\" || (nat_of_ascii c <? 32)%nat then None
      else read_string r (c :: acc)
  end.

Definition digit_of (c : ascii) : option Z :=
  let n := nat_of_ascii c in
  if (48 <=? n)%nat && (n <=? 57)%nat then Some (Z.of_nat (n - 48)) else None.

Fixpoint read_digits (s : list ascii) (acc : Z) : Z * list ascii :=
  match s with
  | c :: r =>
      match digit_of c with
      | Some d => read_digits r (acc * 10 + d)
      | None => (acc, s)
      end
  | [] => (acc, [])
  end.

Definition read_number (s : list ascii) : option (jsval * list ascii) :=
  let '(sign, s1) :=
    match s with
    | c :: r => if Ascii.eqb c "-" then (-1, r) else (1, s)
    | [] => (1, s)
    end in
  match s1 with
  | c :: r =>
      match digit_of c with
      | Some 0 =>
          match r with
          | c' :: _ =>
              if bool_decide (is_Some (digit_of c')) || Ascii.eqb c' "." || Ascii.eqb c' "e"
                 || Ascii.eqb c' "E"
              then None else Some (VNum 0, r)
          | [] => Some (VNum 0, r)
          end
      | Some d =>
          let '(n, r') := read_digits r d in
          match r' with
          | c' :: _ =>
              if Ascii.eqb c' "." || Ascii.eqb c' "e" || Ascii.eqb c' "E"
              then None else Some (VNum (sign * n), r')
          | [] => Some (VNum (sign * n), r')
          end
      | None => None
      end
  | [] => None
  end.

Fixpoint parse_value (fuel : nat) (s : list ascii) {struct fuel}
    : option (jsval * list ascii) :=
  match fuel with
  | O => None
  | S fuel' =>
      let s := skip_ws s in
      match s with
      | [] => None
      | c :: r =>
          if Ascii.eqb c quote then
            match read_string r [] with
            | Some (str, r') => Some (VStr str, r')
            | None => None
            end
          else if Ascii.eqb c "[" then
            match skip_ws r with
            | c' :: r' =>
                if Ascii.eqb c' "]" then Some (VArr [], r')
                else parse_elements fuel' r []
            | [] => None
            end
          else if Ascii.eqb c "{" then
            match skip_ws r with
            | c' :: r' =>
                if Ascii.eqb c' "}" then Some (VObj ∅, r')
                else parse_members fuel' r ∅
            | [] => None
            end
          else
            match strip_prefix (list_ascii_of_string "null") s with
            | Some r' => Some (VNull, r')
            | None =>
            match strip_prefix (list_ascii_of_string "true") s with
            | Some r' => Some (VBool true, r')
            | None =>
            match strip_prefix (list_ascii_of_string "false") s with
            | Some r' => Some (VBool false, r')
            | None => read_number s
            end end end
      end
  end
with parse_elements (fuel : nat) (s : list ascii) (acc : list jsval) {struct fuel}
    : option (jsval * list ascii) :=
  match fuel with
  | O => None
  | S fuel' =>
      match parse_value fuel' s with
      | Some (v, r) =>
          match skip_ws r with
          | c :: r' =>
              if Ascii.eqb c "," then parse_elements fuel' r' (v :: acc)
              else if Ascii.eqb c "]" then Some (VArr (rev (v :: acc)), r')
              else None
          | [] => None
          end
      | None => None
      end
  end
with parse_members (fuel : nat) (s : list ascii) (acc : gmap string jsval) {struct fuel}
    : option (jsval * list ascii) :=
  match fuel with
  | O => None
  | S fuel' =>
      match skip_ws s with
      | c :: r =>
          if Ascii.eqb c quote then
            match read_string r [] with
            | Some (k, r1) =>
                match skip_ws r1 with
                | c1 :: r2 =>
                    if Ascii.eqb c1 ":" then
                      match parse_value fuel' r2 with
                      | Some (v, r3) =>
                          match skip_ws r3 with
                          | c3 :: r4 =>
                              if Ascii.eqb c3 ","
                              then parse_members fuel' r4 (<[k:=v]> acc)
                              else if Ascii.eqb c3 "}"
                              then Some (VObj (<[k:=v]> acc), r4)
                              else None
                          | [] => None
                          end
                      | None => None
                      end
                    else None
                | [] => None
                end
            | None => None
            end
          else None
      | [] => None
      end
  end.

Definition JSON_parse (text : string) : result jsval :=
  let s := list_ascii_of_string text in
  match parse_value (2 * length s + 2) s with
  | Some (v, r) =>
      match skip_ws r with
      | [] => Ok v
      | _ :: _ => Throw (SyntaxError "Unexpected non-whitespace character after JSON")
      end
  | None => Throw (SyntaxError "Unexpected token")
  end.

(** The clock counts its readings. *)
Definition Date_toISOString (c : nat) : string * nat :=
  ("1970-01-01T00:00:00." +:+ pretty c +:+ "Z", S c).

#[export] Instance runtime : Runtime := Build_Runtime JSON_parse nat Date_toISOString.

(** The network is the queue of the responses still to come; an exhausted
    queue answers as a failed request does. *)
Definition api_getVaultEntries (n : list jsval) : result jsval * list jsval :=
  match n with
  | response :: n' => (Ok response, n')
  | [] => (Ok (VObj {[ "error" := VStr "Network error" ]}), [])
  end.

#[export] Instance api : ApiService := Build_ApiService (list jsval) api_getVaultEntries.

(** JSON text written with apostrophes for its quotes. *)
Fixpoint json_text (s : string) : string :=
  match s with
  | EmptyString => EmptyString
  | String c s' => String (if Ascii.eqb c "'" then quote else c) (json_text s')
  end.

End Ref.

(** ** Auxiliary definitions and concrete inputs *)

Module Checks.

(** The part of the character set that one flag contributes. *)
Definition part (f : option bool) (set : string) : string :=
  if Crypto.flag f then set else "".

End Checks.

(** Concrete inputs on which the code is run with the reference
    libraries. *)
Module Sample.
Import Crypto Vault Ref.

Definition the_key : bytes := Eval vm_compute in (draw 32 7%N).1.
Definition the_salt : bytes := Eval vm_compute in (draw 16 11%N).1.
Definition the_nonce : bytes := Eval vm_compute in (draw 24 13%N).1.
Definition seed : N := 42%N.

(** The entry of the "unlock and store" scenario. *)
Definition gmail : string :=
  Eval vm_compute in
    json_text "{'title':'Gmail','username':'a@b.com','password':'x'}".

(** Its sealed box and the stored blob. *)
Definition gmail_box : bytes :=
  Eval vm_compute in
    match crypto_secretbox_easy (from_string gmail) the_nonce the_key with
    | Ok c => c
    | Throw _ => []
    end.

Definition gmail_blob : string :=
  Eval vm_compute in
    match serializeEncryptedData gmail_box the_nonce the_salt with
    | Ok blob => blob
    | Throw _ => ""
    end.

(** An archive of another product. *)
Definition foreign_archive : string :=
  Eval vm_compute in
    json_text "{'format':'not-falconpass','version':'1.0.0','entries':[{'id':'e1','encryptedData':'AAAA'}]}".

(** A stored entry that decrypts, and one whose blob is damaged. *)
Definition good_entry : jsval :=
  VObj (<["updatedAt" := VStr "2024-02-01T00:00:00.000Z"]>
       (<["createdAt" := VStr "2024-01-01T00:00:00.000Z"]>
       (<["encryptedData" := VStr gmail_blob]>
       (<["id" := VStr "e1"]> ∅)))).

Definition damaged_entry : jsval :=
  VObj (<["encryptedData" := VStr "AAAA"]> (<["id" := VStr "e2"]> ∅)).

(** An archive of this product with the damaged entry between two good
    ones. *)
Definition archive : string :=
  Eval vm_compute in
    json_text "{'format':'falconpass-export','version':'1.0.0','entries':["
    +:+ json_text "{'id':'e1','encryptedData':'" +:+ gmail_blob
    +:+ json_text "','createdAt':'2024-01-01T00:00:00.000Z','updatedAt':'2024-02-01T00:00:00.000Z'},"
    +:+ json_text "{'id':'e2','encryptedData':'AAAA'},"
    +:+ json_text "{'id':'e1','encryptedData':'" +:+ gmail_blob
    +:+ json_text "','createdAt':'2024-01-01T00:00:00.000Z','updatedAt':'2024-02-01T00:00:00.000Z'}]}".

Definition archive_entries : list jsval := [good_entry; damaged_entry; good_entry].

Definition archive_value : jsval :=
  VObj (<["entries" := VArr archive_entries]>
       (<["version" := VStr "1.0.0"]>
       (<["format" := VStr "falconpass-export"]> ∅))).

(** The response of the server to the listing request. *)
Definition listing : jsval := VObj (<["data" := VArr archive_entries]> ∅).

Definition start : world :=
  {| w_clock := 0%nat; w_net := [listing]; console := []; decrypt_calls := [] |}.

(** What the reference [JSON.parse] reads from the texts above. *)
Definition gmail_value : jsval :=
  VObj (<["password" := VStr "x"]>
       (<["username" := VStr "a@b.com"]>
       (<["title" := VStr "Gmail"]> ∅))).

Definition foreign_value : jsval :=
  VObj (<["entries" := VArr [VObj (<["encryptedData" := VStr "AAAA"]>
                                  (<["id" := VStr "e1"]> ∅))]]>
       (<["version" := VStr "1.0.0"]>
       (<["format" := VStr "not-falconpass"]> ∅))).

Definition gmail_envelope : envelope :=
  {| env_ciphertext := gmail_box; env_nonce := the_nonce; env_salt := the_salt |}.

Definition digits_only : password_options :=
  {| uppercase := Some false; lowercase := Some false;
     numbers := Some true; symbols := Some false |}.

(** The [id], [title] and [name] of the entries of a result. *)
Definition summary (r : result (list jsval)) : result (list (jsval * jsval * jsval)) :=
  match r with
  | Ok out =>
      Ok (map (λ v, (VaultWording.field v "id", VaultWording.field v "title",
                     VaultWording.field v "name")) out)
  | Throw e => Throw e
  end.

(** An archive of this product with [null] among its entries. *)
Definition null_archive : string :=
  Eval vm_compute in
    json_text "{'format':'falconpass-export','entries':[null,{'id':'e2','encryptedData':'AAAA'}]}".

(** An archive of this product with [null] after an entry that decrypts,
    and the response of the server with the same entries. *)
Definition null_after_good : string :=
  Eval vm_compute in
    json_text "{'format':'falconpass-export','version':'1.0.0','entries':["
    +:+ json_text "{'id':'e1','encryptedData':'" +:+ gmail_blob
    +:+ json_text "','createdAt':'2024-01-01T00:00:00.000Z','updatedAt':'2024-02-01T00:00:00.000Z'},"
    +:+ json_text "null]}".

Definition null_after_good_listing : world :=
  {| w_clock := 0%nat; w_net := [VObj (<["data" := VArr [good_entry; VNull]]> ∅)];
     console := []; decrypt_calls := [] |}.

(** What [decryptVaultEntry] returns for the entry that decrypts. *)
Definition good_result : jsval :=
  VObj (<["updatedAt" := VStr "2024-02-01T00:00:00.000Z"]>
       (<["createdAt" := VStr "2024-01-01T00:00:00.000Z"]>
       (<["id" := VStr "e1"]>
       (<["password" := VStr "x"]>
       (<["username" := VStr "a@b.com"]>
       (<["title" := VStr "Gmail"]> ∅)))))).

(** A text that is not JSON. *)
Definition no_json : string := "{".

(** A text that begins with a byte order mark. *)
Definition marked : string := byte_order_mark +:+ "hi".

(** Lengths for [generatePassword]: [2^30], and two and a half. *)
Definition too_long : Z := 1073741824.
Definition two_and_a_half : number := Finite (Q2Qc (5 # 2)).

(** A plaintext with an [id] and time stamps of its own, its stored blob
    and the entry that wraps it. *)
Definition stamped_plaintext : string :=
  Eval vm_compute in
    json_text "{'id':'inner','title':'Gmail','createdAt':'1999-01-01T00:00:00.000Z','updatedAt':'1999-02-02T00:00:00.000Z'}".

Definition stamped_box : bytes :=
  Eval vm_compute in
    match crypto_secretbox_easy (from_string stamped_plaintext) the_nonce the_key with
    | Ok c => c
    | Throw _ => []
    end.

Definition stamped_blob : string :=
  Eval vm_compute in
    match serializeEncryptedData stamped_box the_nonce the_salt with
    | Ok blob => blob
    | Throw _ => ""
    end.

Definition stamped_entry : jsval :=
  VObj (<["updatedAt" := VStr "2024-02-01T00:00:00.000Z"]>
       (<["createdAt" := VStr "2024-01-01T00:00:00.000Z"]>
       (<["encryptedData" := VStr stamped_blob]>
       (<["id" := VStr "e7"]> ∅)))).

Definition stamped_fields : gmap string jsval :=
  <["updatedAt" := VStr "1999-02-02T00:00:00.000Z"]>
  (<["createdAt" := VStr "1999-01-01T00:00:00.000Z"]>
  (<["title" := VStr "Gmail"]>
  (<["id" := VStr "inner"]> ∅))).

(** What [decryptVaultEntry] returns for it: the title of the plaintext
    under the [id] and the time stamps of the wrapper. *)
Definition stamped_result : jsval :=
  VObj (<["updatedAt" := VStr "2024-02-01T00:00:00.000Z"]>
       (<["createdAt" := VStr "2024-01-01T00:00:00.000Z"]>
       (<["title" := VStr "Gmail"]>
       (<["id" := VStr "e7"]> ∅)))).

Definition stamped_envelope : envelope :=
  {| env_ciphertext := stamped_box; env_nonce := the_nonce; env_salt := the_salt |}.

(** Scenario "unlock and store": derive a key with a fresh salt, seal the
    entry, serialize, deserialize and open with the same key. *)
Definition unlock_and_store : result string :=
  let '(derived, g1) := deriveKeyFromPassword "Tr0ub4dor&3" None seed in
  d ← derived;
  let '(box, g2) := encryptData gmail (key d) g1 in
  b ← box;
  blob ← serializeEncryptedData (ciphertext b) (Crypto.nonce b) (key_salt d);
  env ← deserializeEncryptedData blob;
  decryptData (env_ciphertext env) (env_nonce env) (key d).

(** Scenario "wrong password rejected": seal under the key of one password
    and open under the key of another, derived with the same salt. *)
Definition wrong_password : result string :=
  let '(derived_a, g1) := deriveKeyFromPassword "correct-password" None seed in
  a ← derived_a;
  let '(derived_b, g2) :=
    deriveKeyFromPassword "wrong-password" (Some (key_salt a)) g1 in
  b ← derived_b;
  let '(box, g3) := encryptData gmail (key a) g2 in
  sealed ← box;
  decryptData (ciphertext sealed) (Crypto.nonce sealed) (key b).

End Sample.

(** ** A state and exception monad *)

Module Effect.

(** A computation that reads and writes a state [Σ] and may throw. *)
Definition Eff (Σ A : Type) : Type := Σ → result A * Σ.

Section Combinators.
Context {Σ : Type}.

Definition ret {A} (a : A) : Eff Σ A := λ s, (Ok a, s).
Definition throw {A} (e : exn) : Eff Σ A := λ s, (Throw e, s).
Definition bind {A B} (m : Eff Σ A) (f : A → Eff Σ B) : Eff Σ B :=
  λ s, match m s with
       | (Ok a, s') => f a s'
       | (Throw e, s') => (Throw e, s')
       end.
Definition lift {A} (r : result A) : Eff Σ A := λ s, (r, s).

(** [try { body } catch (error) { handler }] *)
Definition try_catchE {A} (body : Eff Σ A) (handler : exn → Eff Σ A) : Eff Σ A :=
  λ s, match body s with
       | (Ok a, s') => (Ok a, s')
       | (Throw e, s') => handler e s'
       end.

(** The callback of [Array.prototype.map], element after element. *)
Fixpoint mapE {A B} (f : A → Eff Σ B) (l : list A) : Eff Σ (list B) :=
  match l with
  | [] => ret []
  | x :: l' => bind (f x) (λ y, bind (mapE f l') (λ ys, ret (y :: ys)))
  end.

(** A computation on a part [σ] of the state. *)
Definition zoom {σ A} (get : Σ → σ) (put : σ → Σ → Σ) (m : Eff σ A) : Eff Σ A :=
  λ s, let '(r, t) := m (get s) in (r, put t s).

End Combinators.

#[export] Instance Eff_ret {Σ} : MRet (Eff Σ) := @ret Σ.
#[export] Instance Eff_bind {Σ} : MBind (Eff Σ) := λ A B f m, bind m f.

End Effect.

(** ** The rest of the runtime and of the HTTP client *)

(** [JSON.stringify(value, null, space)], and [String(value)], the text
    that [new Error(value)] keeps as its message.  For [undefined], where
    [JSON.stringify] answers [undefined] and not a text, the text is
    immaterial: every exported function that stringifies a value which can
    be [undefined] reads a property of that value after the encryption,
    which throws. *)
Class JsText : Type := {
  JSON_stringify : jsval → option Z → string;
  ToString : jsval → string;
}.

(** The other vault endpoints of [apiService], each answering with the
    response object of its request. *)
Class VaultApi `{ApiService} : Type := {
  api_getVaultEntry : string → net → result jsval * net;
  api_createVaultEntry : jsval → net → result jsval * net;
  api_updateVaultEntry : string → jsval → net → result jsval * net;
  api_deleteVaultEntry : string → net → result jsval * net;
  api_importVault : jsval → net → result jsval * net;
}.

(** ** The vault service: encrypting, storing and exporting *)

Module VaultOps.
Import Crypto Vault Effect.

(** A call of the HTTP client with its arguments. *)
Inductive request : Type :=
| GetVaultEntry (id : string)
| CreateVaultEntry (data : jsval)
| UpdateVaultEntry (id : string) (data : jsval)
| DeleteVaultEntry (id : string)
| ImportVault (entries : jsval).

(** The message of [new Error(v)]. *)
Definition error_message `{JsText} (v : jsval) : string :=
  match v with
  | VStr s => s
  | _ => ToString v
  end.

(** [if (response.error || !response.data) throw new Error(response.error || fallback)] *)
Definition check_response `{JsText} (response : jsval) (fallback : string) : result unit :=
  error ← prop_get response "error";
  failed ← (if truthy error then Ok true
            else data ← prop_get response "data"; Ok (negb (truthy data)));
  if failed : bool then
    error ← prop_get response "error";
    Throw (Error (if truthy error then error_message error else fallback))
  else Ok tt.

Section WithLibraries.
Context `{Sodium} `{Runtime} `{ApiService} `{!VaultApi} `{JsText}.

Definition encryptVaultEntry (entry : jsval) (key salt : bytes) (g : rng)
    : result jsval * rng :=
  let entryJson := JSON_stringify entry None in
  let '(sealed, g') := encryptData entryJson key g in
  (box ← sealed;
   encryptedData ← serializeEncryptedData (ciphertext box) (nonce box) salt;
   id ← prop_get entry "id";
   createdAt ← prop_get entry "createdAt";
   updatedAt ← prop_get entry "updatedAt";
   Ok (VObj (<["updatedAt" := updatedAt]>
            (<["createdAt" := createdAt]>
            (<["encryptedData" := VStr encryptedData]>
            (<["id" := id]> ∅))))),
   g').

(** The state the service runs in: the random source, the world of the
    decrypting half, and, as ghost state, the calls of the HTTP client made
    so far. *)
Record session : Type := {
  s_rng : rng;
  s_world : world;
  requests : list request;
}.

Definition Op (A : Type) : Type := Eff session A.

Definition in_world {A} (m : M A) : Eff session A :=
  zoom s_world
       (λ w s, {| s_rng := s_rng s; s_world := w; requests := requests s |}) m.

Definition with_rng {A} (f : rng → result A * rng) : Eff session A :=
  zoom s_rng
       (λ g s, {| s_rng := g; s_world := s_world s; requests := requests s |}) f.

(** A call of the HTTP client: the network answers, and the call is
    recorded. *)
Definition call (q : request) : Eff session jsval :=
  λ s,
    let w := s_world s in
    let '(response, n) :=
      match q with
      | GetVaultEntry id => api_getVaultEntry id (w_net w)
      | CreateVaultEntry data => api_createVaultEntry data (w_net w)
      | UpdateVaultEntry id data => api_updateVaultEntry id data (w_net w)
      | DeleteVaultEntry id => api_deleteVaultEntry id (w_net w)
      | ImportVault entries => api_importVault entries (w_net w)
      end in
    (response,
     {| s_rng := s_rng s;
        s_world := {| w_clock := w_clock w; w_net := n; console := console w;
                      decrypt_calls := decrypt_calls w |};
        requests := requests s ++ [q] |}).

(** [{ ...entry, id, createdAt: new Date().toISOString(),
       updatedAt: new Date().toISOString() }] *)
Definition stamped (entry id : jsval) : Eff session jsval :=
  createdAt ← in_world now_iso;
  updatedAt ← in_world now_iso;
  ret (VObj (<["updatedAt" := VStr updatedAt]>
            (<["createdAt" := VStr createdAt]>
            (<["id" := id]> (own_props entry))))).

(** [{ encryptedData: encryptedEntry.encryptedData,
       metadata: { title: entry.name, url: entry.url, category: entry.category,
                   tags: entry.tags, lastModified: new Date().toISOString() } }] *)
Definition request_data (encryptedEntry entry : jsval) : Eff session jsval :=
  encryptedData ← lift (prop_get encryptedEntry "encryptedData");
  title ← lift (prop_get entry "name");
  url ← lift (prop_get entry "url");
  category ← lift (prop_get entry "category");
  tags ← lift (prop_get entry "tags");
  lastModified ← in_world now_iso;
  ret (VObj (<["metadata" :=
                 VObj (<["lastModified" := VStr lastModified]>
                      (<["tags" := tags]>
                      (<["category" := category]>
                      (<["url" := url]>
                      (<["title" := title]> ∅)))))]>
            (<["encryptedData" := encryptedData]> ∅))).

Definition getVaultEntry (id : string) (key : bytes) : Eff session jsval :=
  try_catchE
    (response ← call (GetVaultEntry id);
     error ← lift (prop_get response "error");
     if truthy error then ret VNull
     else
       data ← lift (prop_get response "data");
       if negb (truthy data) then ret VNull
       else
         data ← lift (prop_get response "data");
         entry_id ← lift (prop_get data "id");
         data ← lift (prop_get response "data");
         encryptedData ← lift (prop_get data "encryptedData");
         data ← lift (prop_get response "data");
         createdAt ← lift (prop_get data "createdAt");
         data ← lift (prop_get response "data");
         updatedAt ← lift (prop_get data "updatedAt");
         in_world (call_decryptVaultEntry
                     (VObj (<["updatedAt" := updatedAt]>
                           (<["createdAt" := createdAt]>
                           (<["encryptedData" := encryptedData]>
                           (<["id" := entry_id]> ∅)))))
                     key))
    (λ error,
     logged ← in_world (console_error
                          [LVal (VStr ("Failed to get vault entry " +:+ id +:+ ":"));
                           LExn error]);
     ret VNull).

Definition createVaultEntry (entry : jsval) (key salt : bytes) : Eff session jsval :=
  try_catchE
    (tempEntry ← stamped entry (VStr "temp-id");
     encryptedEntry ← with_rng (encryptVaultEntry tempEntry key salt);
     data ← request_data encryptedEntry entry;
     response ← call (CreateVaultEntry data);
     checked ← lift (check_response response "Failed to create vault entry");
     data ← lift (prop_get response "data");
     id ← lift (prop_get data "id");
     data ← lift (prop_get response "data");
     createdAt ← lift (prop_get data "createdAt");
     data ← lift (prop_get response "data");
     updatedAt ← lift (prop_get data "updatedAt");
     ret (VObj (<["updatedAt" := updatedAt]>
               (<["createdAt" := createdAt]>
               (<["id" := id]> (own_props entry))))))
    (λ error, throw error).

Definition updateVaultEntry (id : string) (entry : jsval) (key salt : bytes)
    : Eff session jsval :=
  try_catchE
    (tempEntry ← stamped entry (VStr id);
     encryptedEntry ← with_rng (encryptVaultEntry tempEntry key salt);
     data ← request_data encryptedEntry entry;
     response ← call (UpdateVaultEntry id data);
     checked ← lift (check_response response "Failed to update vault entry");
     stamped entry (VStr id))
    (λ error, throw error).

Definition deleteVaultEntry (id : string) : Eff session bool :=
  try_catchE
    (response ← call (DeleteVaultEntry id);
     error ← lift (prop_get response "error");
     ret (negb (truthy error)))
    (λ error,
     logged ← in_world (console_error
                          [LVal (VStr ("Failed to delete vault entry " +:+ id +:+ ":"));
                           LExn error]);
     ret false).

Definition exportVault (entries : list jsval) (key salt : bytes) : Eff session string :=
  encryptedEntries ← mapE (λ entry, with_rng (encryptVaultEntry entry key salt)) entries;
  timestamp ← in_world now_iso;
  let exportData :=
    VObj (<["entries" := VArr encryptedEntries]>
         (<["timestamp" := VStr timestamp]>
         (<["version" := VStr "1.0.0"]>
         (<["format" := VStr "falconpass-export"]> ∅)))) in
  ret (JSON_stringify exportData (Some 2)).

Definition importVaultEntries (entries : list jsval) (key salt : bytes)
    : Eff session (list jsval) :=
  try_catchE
    (encryptedEntries ←
       mapE (λ entry,
             tempEntry ← stamped entry (VStr "temp-id");
             encrypted ← with_rng (encryptVaultEntry tempEntry key salt);
             lift (prop_get encrypted "encryptedData"))
            entries;
     response ← call (ImportVault (VArr encryptedEntries));
     checked ← lift (check_response response "Failed to import vault entries");
     ret entries)
    (λ error, throw error).

End WithLibraries.

End VaultOps.

(** ** Notions of the statements about storing and exporting *)

Module VaultOpsWording.
Import Contract.

(** An [EncryptedVaultEntry]. *)
Definition wrapper (id : jsval) (blob : string) (createdAt updatedAt : jsval) : jsval :=
  VObj (<["updatedAt" := updatedAt]>
       (<["createdAt" := createdAt]>
       (<["encryptedData" := VStr blob]>
       (<["id" := id]> ∅)))).

(** A [VaultEntry]: an object that has an [id], a [createdAt] and an
    [updatedAt]. *)
Definition vault_entry (e : jsval) : Prop :=
  ∃ o : gmap string jsval,
    e = VObj o ∧ is_Some (o !! "id") ∧ is_Some (o !! "createdAt")
    ∧ is_Some (o !! "updatedAt").

(** [e] can be stored: its JSON text is text that the string codec of the
    secret box carries unchanged, and [JSON.parse] reads [e] back from
    it. *)
Definition storable `{Sodium} `{Runtime} `{JsText} (e : jsval) : Prop :=
  utf8_text (JSON_stringify e None)
  ∧ JSON_parse (JSON_stringify e None) = Ok e.

(** [{ ...entry, id, createdAt, updatedAt }] *)
Definition with_stamps (entry id createdAt updatedAt : jsval) : jsval :=
  VObj (<["updatedAt" := updatedAt]>
       (<["createdAt" := createdAt]>
       (<["id" := id]> (own_props entry)))).

(** The temporary entry that the storing operations encrypt: [entry] under
    [id] and two readings of the clock [c]. *)
Definition temp_entry `{Runtime} (entry id : jsval) (c : clock) : jsval :=
  let '(createdAt, c1) := Date_toISOString c in
  let '(updatedAt, _) := Date_toISOString c1 in
  with_stamps entry id (VStr createdAt) (VStr updatedAt).

(** The archive object that [exportVault] writes. *)
Definition archive_object (timestamp : string) (encryptedEntries : list jsval) : jsval :=
  VObj (<["entries" := VArr encryptedEntries]>
       (<["timestamp" := VStr timestamp]>
       (<["version" := VStr "1.0.0"]>
       (<["format" := VStr "falconpass-export"]> ∅)))).

(** The object that [createVaultEntry] and [updateVaultEntry] send. *)
Definition sent_data (blob : jsval) (entry : jsval) (lastModified : string) : jsval :=
  VObj (<["metadata" :=
            VObj (<["lastModified" := VStr lastModified]>
                 (<["tags" := VaultWording.field entry "tags"]>
                 (<["category" := VaultWording.field entry "category"]>
                 (<["url" := VaultWording.field entry "url"]>
                 (<["title" := VaultWording.field entry "name"]> ∅)))))]>
       (<["encryptedData" := blob]> ∅)).

(** The clock after [k] readings, and its next reading then. *)
Fixpoint advance `{Runtime} (k : nat) (c : clock) : clock :=
  match k with
  | O => c
  | S k' => advance k' (Date_toISOString c).2
  end.

Definition reading `{Runtime} (k : nat) (c : clock) : string :=
  (Date_toISOString (advance k c)).1.

(** The error with which a storing operation refuses [response]: the
    error of reading a response that is [null] or [undefined], the message
    of the server, or the fallback when the response has neither a message
    nor data. *)
Definition refusal `{JsText} (fallback : string) (response : jsval) (e : exn) : Prop :=
  match prop_get response "error" with
  | Throw e' => e = e'
  | Ok error =>
      if truthy error then e = Error (VaultOps.error_message error)
      else truthy (VaultWording.field response "data") = false ∧ e = Error fallback
  end.

Section WithLibraries.
Context `{Sodium} `{Runtime} `{ApiService} `{!VaultApi} `{JsText}.

(** [s'] differs from [s] in the clock only. *)
Definition clock_only (s s' : VaultOps.session) : Prop :=
  VaultOps.s_rng s' = VaultOps.s_rng s
  ∧ VaultOps.requests s' = VaultOps.requests s
  ∧ Vault.w_net (VaultOps.s_world s') = Vault.w_net (VaultOps.s_world s)
  ∧ Vault.console (VaultOps.s_world s') = Vault.console (VaultOps.s_world s)
  ∧ Vault.decrypt_calls (VaultOps.s_world s')
    = Vault.decrypt_calls (VaultOps.s_world s).

End WithLibraries.

End VaultOpsWording.

(** ** Reference instances of the rest of the runtime *)

Module RefText.
Import Ref.

Definition hex_digit (n : nat) : ascii :=
  nth n (list_ascii_of_string "0123456789abcdef") "0"%char.

(** The escape of one character of a JSON string. *)
Definition escape_char (c : ascii) : string :=
  if Ascii.eqb c quote then String "\" (String quote "")
  else if Ascii.eqb c "\" then "\\"
  else if Ascii.eqb c "008" then "\b"
  else if Ascii.eqb c "009" then "\t"
  else if Ascii.eqb c "010" then "\n"
  else if Ascii.eqb c "012" then "\f"
  else if Ascii.eqb c "013" then "\r"
  else if (nat_of_ascii c <? 32)%nat
  then "\u00" +:+ String (hex_digit (nat_of_ascii c / 16))
                    (String (hex_digit (nat_of_ascii c mod 16)) "")
  else String c "".

Fixpoint escape (s : string) : string :=
  match s with
  | EmptyString => EmptyString
  | String c s' => escape_char c +:+ escape s'
  end.

Definition quoted (s : string) : string :=
  String quote (escape s +:+ String quote "").

Fixpoint join (sep : string) (l : list string) : string :=
  match l with
  | [] => ""
  | [x] => x
  | x :: l' => x +:+ sep +:+ join sep l'
  end.

Definition newline : string := String "010" "".

Fixpoint spaces (n : nat) : string :=
  match n with
  | O => ""
  | S n' => String " " (spaces n')
  end.

(** An opening bracket, the items and the closing bracket, on one line, or
    on one line per item when there is an indentation. *)
Definition bracketed (space level : nat) (opening closing : string)
    (items : list string) : string :=
  match items with
  | [] => opening +:+ closing
  | _ =>
      if (space =? 0)%nat then opening +:+ join "," items +:+ closing
      else
        let inner := newline +:+ spaces (space * S level) in
        opening +:+ inner +:+ join ("," +:+ inner) items
          +:+ newline +:+ spaces (space * level) +:+ closing
  end.

(** The JSON text of a value; [None] for [undefined], which an object
    omits and an array writes as [null]. *)
Fixpoint stringify (space level : nat) (v : jsval) : option string :=
  match v with
  | VUndefined => None
  | VNull => Some "null"
  | VBool b => Some (if b then "true" else "false")
  | VNum n => Some (pretty n)
  | VStr s => Some (quoted s)
  | VArr l =>
      Some (bracketed space level "[" "]"
              (map (λ x, default "null" (stringify space (S level) x)) l))
  | VObj o =>
      Some (bracketed space level "{" "}"
              (map_fold (λ k x acc,
                         match stringify space (S level) x with
                         | Some t =>
                             (quoted k +:+ (if (space =? 0)%nat then ":" else ": ") +:+ t)
                               :: acc
                         | None => acc
                         end) [] o))
  end.

Definition JSON_stringify (v : jsval) (space : option Z) : string :=
  default "undefined" (stringify (Z.to_nat (Z.min 10 (default 0 space))) 0 v).

Fixpoint ToString (v : jsval) : string :=
  match v with
  | VUndefined => "undefined"
  | VNull => "null"
  | VBool b => if b then "true" else "false"
  | VNum n => pretty n
  | VStr s => s
  | VArr l =>
      join "," (map (λ x, match x with
                          | VUndefined | VNull => ""
                          | _ => ToString x
                          end) l)
  | VObj _ => "[object Object]"
  end.

#[export] Instance text : JsText := Build_JsText JSON_stringify ToString.

(** Every endpoint takes the next response of the queue. *)
#[export] Instance vault_api : VaultApi :=
  Build_VaultApi Ref.api
    (λ id, api_getVaultEntries) (λ data, api_getVaultEntries)
    (λ id data, api_getVaultEntries) (λ id, api_getVaultEntries)
    (λ entries, api_getVaultEntries).

End RefText.

Module SampleOps.
Import Crypto Vault Effect VaultOps VaultOpsWording Ref RefText Sample.

(** A vault entry and a new entry, which has no [id] and no time stamps
    yet. *)
Definition netflix : jsval :=
  VObj (<["updatedAt" := VStr "2024-03-01T00:00:00.000Z"]>
       (<["createdAt" := VStr "2024-01-15T00:00:00.000Z"]>
       (<["favorite" := VBool true]>
       (<["password" := VStr "s3cret"]>
       (<["username" := VStr "ann"]>
       (<["name" := VStr "Netflix"]>
       (<["id" := VStr "e7"]> ∅))))))).

Definition github : jsval :=
  VObj (<["updatedAt" := VStr "2024-03-02T00:00:00.000Z"]>
       (<["createdAt" := VStr "2024-01-16T00:00:00.000Z"]>
       (<["favorite" := VBool false]>
       (<["tags" := VArr [VStr "work"; VStr "code"]]>
       (<["name" := VStr "GitHub"]>
       (<["id" := VStr "e8"]> ∅)))))).

Definition new_entry : jsval :=
  VObj (<["favorite" := VBool false]>
       (<["url" := VStr "https://example.org"]>
       (<["password" := VStr "hunter2"]>
       (<["name" := VStr "Example"]> ∅)))).

(** The answer of the server to a creation. *)
Definition created_response : jsval :=
  VObj (<["data" := VObj (<["updatedAt" := VStr "2024-05-01T10:00:00.000Z"]>
                         (<["createdAt" := VStr "2024-05-01T10:00:00.000Z"]>
                         (<["id" := VStr "srv-1"]> ∅)))]> ∅).

Definition refused_response : jsval :=
  VObj (<["error" := VStr "Unauthorized"]> ∅).

Definition session_with (responses : list jsval) : session :=
  {| s_rng := seed;
     s_world := {| w_clock := 0%nat; w_net := responses; console := [];
                   decrypt_calls := [] |};
     requests := [] |}.

End SampleOps.

(** ** The vault store *)

Module Store.
Import Crypto Vault Effect.

(** [error.message] of a caught error. *)
Definition message (e : exn) : string :=
  match e with
  | Error msg | TypeError msg | RangeError msg | SyntaxError msg => msg
  end.

(** [v === id] for a string [id]. *)
Definition strict_eq_str (v : jsval) (lit : string) : bool :=
  negb (strict_neq_str v lit).

(** [VaultState]; [null] is [None]. *)
Record VaultState : Type := {
  entries : list jsval;
  isLoading : bool;
  error : option string;
  searchTerm : string;
  selectedTags : list string;
  selectedCategory : option string;
  showFavoritesOnly : bool;
}.

Definition initialState : VaultState :=
  {| entries := []; isLoading := false; error := None; searchTerm := "";
     selectedTags := []; selectedCategory := None; showFavoritesOnly := false |}.

(** The partial states that the actions hand to [set]. *)
Definition set_entries (l : list jsval) (st : VaultState) : VaultState :=
  {| entries := l; isLoading := isLoading st; error := error st;
     searchTerm := searchTerm st; selectedTags := selectedTags st;
     selectedCategory := selectedCategory st;
     showFavoritesOnly := showFavoritesOnly st |}.

Definition set_isLoading (b : bool) (st : VaultState) : VaultState :=
  {| entries := entries st; isLoading := b; error := error st;
     searchTerm := searchTerm st; selectedTags := selectedTags st;
     selectedCategory := selectedCategory st;
     showFavoritesOnly := showFavoritesOnly st |}.

Definition set_error (e : option string) (st : VaultState) : VaultState :=
  {| entries := entries st; isLoading := isLoading st; error := e;
     searchTerm := searchTerm st; selectedTags := selectedTags st;
     selectedCategory := selectedCategory st;
     showFavoritesOnly := showFavoritesOnly st |}.

Definition setSearchTerm (term : string) (st : VaultState) : VaultState :=
  {| entries := entries st; isLoading := isLoading st; error := error st;
     searchTerm := term; selectedTags := selectedTags st;
     selectedCategory := selectedCategory st;
     showFavoritesOnly := showFavoritesOnly st |}.

Definition setSelectedTags (tags : list string) (st : VaultState) : VaultState :=
  {| entries := entries st; isLoading := isLoading st; error := error st;
     searchTerm := searchTerm st; selectedTags := tags;
     selectedCategory := selectedCategory st;
     showFavoritesOnly := showFavoritesOnly st |}.

Definition setSelectedCategory (category : option string) (st : VaultState) : VaultState :=
  {| entries := entries st; isLoading := isLoading st; error := error st;
     searchTerm := searchTerm st; selectedTags := selectedTags st;
     selectedCategory := category;
     showFavoritesOnly := showFavoritesOnly st |}.

Definition setShowFavoritesOnly (show : bool) (st : VaultState) : VaultState :=
  {| entries := entries st; isLoading := isLoading st; error := error st;
     searchTerm := searchTerm st; selectedTags := selectedTags st;
     selectedCategory := selectedCategory st;
     showFavoritesOnly := show |}.

Definition clearFilters (st : VaultState) : VaultState :=
  {| entries := entries st; isLoading := isLoading st; error := error st;
     searchTerm := ""; selectedTags := [];
     selectedCategory := None; showFavoritesOnly := false |}.

Definition clearError (st : VaultState) : VaultState := set_error None st.

(** [state.entries.map(e => (e.id === id ? updatedEntry : e))] *)
Fixpoint replace_by_id (id : string) (updatedEntry : jsval) (l : list jsval)
    : result (list jsval) :=
  match l with
  | [] => Ok []
  | e :: l' =>
      e_id ← prop_get e "id";
      rest ← replace_by_id id updatedEntry l';
      Ok ((if strict_eq_str e_id id then updatedEntry else e) :: rest)
  end.

(** [state.entries.filter(e => e.id !== id)] *)
Fixpoint remove_by_id (id : string) (l : list jsval) : result (list jsval) :=
  match l with
  | [] => Ok []
  | e :: l' =>
      e_id ← prop_get e "id";
      rest ← remove_by_id id l';
      Ok (if strict_neq_str e_id id then e :: rest else rest)
  end.

Section WithLibraries.
Context `{Sodium} `{Runtime} `{ApiService} `{!VaultApi} `{JsText}.

(** The state of the application: the store and the session of the
    service. *)
Record app : Type := {
  store : VaultState;
  service : VaultOps.session;
}.

(** [set(state => f(state))] *)
Definition set (f : VaultState → VaultState) : Eff app unit :=
  λ a, (Ok tt, {| store := f (store a); service := service a |}).

(** [useVaultStore.getState()] *)
Definition getState : Eff app VaultState := λ a, (Ok (store a), a).

Definition in_service {A} (m : Eff VaultOps.session A) : Eff app A :=
  zoom service (λ s a, {| store := store a; service := s |}) m.

Definition fetchEntries (key : bytes) : Eff app unit :=
  started ← set (λ st, set_error None (set_isLoading true st));
  try_catchE
    (entries ← in_service (VaultOps.in_world (getVaultEntries key));
     set (λ st, set_isLoading false (set_entries entries st)))
    (λ error, set (λ st, set_error (Some (message error)) (set_isLoading false st))).

Definition getEntry (id : string) (key : bytes) : Eff app jsval :=
  try_catchE
    (in_service (VaultOps.getVaultEntry id key))
    (λ error,
     failed ← set (set_error (Some (message error)));
     ret VNull).

Definition createEntry (entry : jsval) (key salt : bytes) : Eff app jsval :=
  started ← set (λ st, set_error None (set_isLoading true st));
  try_catchE
    (newEntry ← in_service (VaultOps.createVaultEntry entry key salt);
     stored ← set (λ st, set_isLoading false (set_entries (entries st ++ [newEntry]) st));
     ret newEntry)
    (λ error,
     failed ← set (λ st, set_error (Some (message error)) (set_isLoading false st));
     throw error).

Definition updateEntry (id : string) (entry : jsval) (key salt : bytes) : Eff app jsval :=
  started ← set (λ st, set_error None (set_isLoading true st));
  try_catchE
    (updatedEntry ← in_service (VaultOps.updateVaultEntry id entry key salt);
     state ← getState;
     replaced ← lift (replace_by_id id updatedEntry (entries state));
     stored ← set (λ st, set_isLoading false (set_entries replaced st));
     ret updatedEntry)
    (λ error,
     failed ← set (λ st, set_error (Some (message error)) (set_isLoading false st));
     throw error).

Definition deleteEntry (id : string) : Eff app bool :=
  started ← set (λ st, set_error None (set_isLoading true st));
  try_catchE
    (success ← in_service (VaultOps.deleteVaultEntry id);
     stored ←
       (if success : bool then
          state ← getState;
          kept ← lift (remove_by_id id (entries state));
          set (λ st, set_isLoading false (set_entries kept st))
        else set (set_isLoading false));
     ret success)
    (λ error,
     failed ← set (λ st, set_error (Some (message error)) (set_isLoading false st));
     ret false).

Definition exportVault (key salt : bytes) : Eff app string :=
  state ← getState;
  in_service (VaultOps.exportVault (entries state) key salt).

Definition importVault (jsonData : string) (key salt : bytes) : Eff app (list jsval) :=
  started ← set (λ st, set_error None (set_isLoading true st));
  try_catchE
    (importedEntries ← in_service (VaultOps.in_world (Vault.importVault jsonData key));
     savedEntries ← in_service (VaultOps.importVaultEntries importedEntries key salt);
     stored ← set (λ st, set_isLoading false (set_entries (entries st ++ savedEntries) st));
     ret savedEntries)
    (λ error,
     failed ← set (λ st, set_error (Some (message error)) (set_isLoading false st));
     throw error).

End WithLibraries.

End Store.

(** ** The vault service object (services/vaultService.ts) *)

Module VaultServiceClass.
Import Crypto Vault Effect.

(** The fields of the object; [null] is [None]. *)
Record fields : Type := {
  masterKey : option bytes;
  masterPassword : option string;
}.

Definition locked : exn :=
  Error "Vault is locked. Please enter your master password.".

Section WithLibraries.
Context `{Sodium} `{Argon2} `{Runtime} `{ApiService} `{!VaultApi} `{JsText}.

(** The object and the session it runs in. *)
Record state : Type := {
  this : fields;
  session : VaultOps.session;
}.

Definition get_this : Eff state fields := λ st, (Ok (this st), st).

Definition set_this (f : fields → fields) : Eff state unit :=
  λ st, (Ok tt, {| this := f (this st); session := session st |}).

Definition in_session {A} (m : Eff VaultOps.session A) : Eff state A :=
  zoom session (λ s st, {| this := this st; session := s |}) m.

Definition setMasterPassword (password : string) : Eff state unit :=
  assigned ← set_this (λ f, {| masterKey := masterKey f;
                               masterPassword := Some password |});
  derived ← in_session (VaultOps.with_rng (deriveKeyFromPassword password None));
  set_this (λ f, {| masterKey := Some (key derived);
                    masterPassword := masterPassword f |}).

Definition clearMasterPassword : Eff state unit :=
  cleared ← set_this (λ f, {| masterKey := masterKey f; masterPassword := None |});
  set_this (λ f, {| masterKey := None; masterPassword := masterPassword f |}).

Definition isUnlocked : Eff state bool :=
  this ← get_this;
  ret (bool_decide (masterKey this ≠ None)).

Definition encryptVaultEntry (entry : jsval) : Eff state string :=
  this ← get_this;
  match masterKey this with
  | None => throw locked
  | Some masterKey =>
      let dataString := JSON_stringify entry None in
      box ← in_session (VaultOps.with_rng (encryptData dataString masterKey));
      let salt := Uint8Array.new 16 in
      lift (serializeEncryptedData (ciphertext box) (nonce box) salt)
  end.

Definition decryptVaultEntry (encryptedData : string) : Eff state jsval :=
  this ← get_this;
  match masterKey this with
  | None => throw locked
  | Some masterKey =>
      envelope ← lift (deserializeEncryptedData encryptedData);
      dataString ← lift (decryptData (env_ciphertext envelope) (env_nonce envelope)
                                     masterKey);
      lift (JSON_parse dataString)
  end.

Definition updateVaultEntry (id : string) (entry : jsval) : Eff state unit :=
  unlocked ← isUnlocked;
  if negb unlocked then throw locked
  else
    encryptedData ← encryptVaultEntry entry;
    title ← lift (prop_get entry "title");
    url ← lift (prop_get entry "url");
    category ← lift (prop_get entry "category");
    tags ← lift (prop_get entry "tags");
    lastModified ← in_session (VaultOps.in_world now_iso);
    response ←
      in_session
        (VaultOps.call
           (VaultOps.UpdateVaultEntry id
              (VObj (<["metadata" :=
                         VObj (<["lastModified" := VStr lastModified]>
                              (<["tags" := tags]>
                              (<["category" := category]>
                              (<["url" := url]>
                              (<["title" := title]> ∅)))))]>
                    (<["encryptedData" := VStr encryptedData]> ∅)))));
    error ← lift (prop_get response "error");
    if truthy error then throw (Error (VaultOps.error_message error))
    else ret tt.

End WithLibraries.

End VaultServiceClass.

(** ** The login handshake (services/auth.ts) *)

Module Auth.

(** One turn of the loop of [login] that fills [response]:
    [response[i] = challengeData[i] ^ key[i % key.length]].  An index
    outside an array reads [undefined], which [^] takes as 0; for an empty
    key the index is [NaN], which reads [undefined] as well. *)
Definition response_step (challengeData key response : bytes) (i : nat) : bytes :=
  <[i := byte_xor (default x00 (challengeData !! i))
                  (default x00 (key !! (i `mod` length key)%nat))]> response.

Definition login_response (challengeData key : bytes) : bytes :=
  foldl (response_step challengeData key)
        (Uint8Array.new (length challengeData))
        (seq 0 (length challengeData)).

End Auth.

(** ** Lengths that the secret box checks, and the bias of the generator *)

Module Lengths.

(** [crypto_secretbox_open_easy] opens only a box of at least the 16 bytes
    of the tag, under a 24-byte nonce and a 32-byte key. *)
Definition secretbox_open_lengths `{Sodium} : Prop :=
  ∀ c n k m : bytes,
    crypto_secretbox_open_easy c n k = Ok m →
    (16 ≤ length c)%nat ∧ length n = 24%nat ∧ length k = 32%nat.

End Lengths.

Module Bias.
Import Crypto.

(** The 256 values of a byte. *)
Definition all_bytes : list byte := map (λ i, byte_of_N (N.of_nat i)) (seq 0 256).

(** The number of byte values for which one turn of the loop of
    [generatePassword] appends the character at index [j] of the set. *)
Definition hits (charset : string) (j : nat) : nat :=
  length (filter (λ b, password_step [b] charset "" 0
                       = default "" (char_at charset j))
                 all_bytes).

(** The same count for every index of the set. *)
Definition all_hits (charset : string) : list nat :=
  map (hits charset) (seq 0 (String.length charset)).

(** The counts of a set of [n] characters under the reduction modulo [n]. *)
Definition expected_hits (n : nat) : list nat :=
  map (λ j, (256 / n + (if (j <? 256 mod n)%nat then 1 else 0))%nat) (seq 0 n).

End Bias.

(** Runs of the storing operations on the inputs above. *)
Module SampleRuns.
Import Crypto Vault Effect VaultOps VaultOpsWording Ref RefText Sample SampleOps.

Definition value_of (r : result jsval) : jsval :=
  match r with
  | Ok v => v
  | Throw _ => VUndefined
  end.

Definition values_of (r : result (list jsval)) : list jsval :=
  match r with
  | Ok l => l
  | Throw _ => []
  end.

(** A creation that the server accepts, and one that it refuses. *)
Definition created_entry : jsval :=
  Eval vm_compute in
    value_of (createVaultEntry new_entry the_key the_salt
                (session_with [created_response])).1.

Definition after_create : session :=
  (createVaultEntry new_entry the_key the_salt (session_with [created_response])).2.

Definition after_refusal : session :=
  (createVaultEntry new_entry the_key the_salt (session_with [refused_response])).2.

(** An update of the entry [e7]. *)
Definition updated_entry : jsval :=
  Eval vm_compute in
    value_of (updateVaultEntry "e7" netflix the_key the_salt
                (session_with [created_response])).1.

Definition after_update : session :=
  (updateVaultEntry "e7" netflix the_key the_salt (session_with [created_response])).2.

(** An upload of two entries. *)
Definition after_upload : session :=
  (importVaultEntries [netflix; github] the_key the_salt
     (session_with [created_response])).2.

(** The import of the archive with a damaged entry: what the service
    returns for it, and the store after the import. *)
Definition imported_entries : list jsval :=
  Eval vm_compute in
    values_of (importVault archive the_key (s_world (session_with [created_response]))).1.

Definition world_after_import : world :=
  (importVault archive the_key (s_world (session_with [created_response]))).2.

Definition fresh_app : Store.app :=
  {| Store.store := Store.initialState;
     Store.service := session_with [created_response] |}.

Definition app_after_import : Store.app :=
  (Store.importVault archive the_key the_salt fresh_app).2.

(** A store that shows three entries, two of them under the same [id]. *)
Definition stocked_app : Store.app :=
  {| Store.store := Store.set_entries [netflix; github; netflix] Store.initialState;
     Store.service := session_with [created_response] |}.

(** The service object, unlocked under the sample key, and locked
    again. *)
Definition unlocked_object : VaultServiceClass.state :=
  {| VaultServiceClass.this :=
       {| VaultServiceClass.masterKey := Some the_key;
          VaultServiceClass.masterPassword := Some "Tr0ub4dor&3" |};
     VaultServiceClass.session := session_with [created_response] |}.

Definition locked_object : VaultServiceClass.state :=
  (VaultServiceClass.clearMasterPassword unlocked_object).2.

(** A response whose data has [null] between two entries, and the world
    in which the server gives it. *)
Definition listing_with_null : jsval :=
  VObj (<["data" := VArr [good_entry; VNull; good_entry]]> ∅).

Definition null_world : world :=
  {| w_clock := 0%nat; w_net := [listing_with_null]; console := [];
     decrypt_calls := [] |}.

(** A challenge of the server, as bytes. *)
Definition challenge : bytes := Eval vm_compute in (draw 48 5%N).1.

End SampleRuns.

(** * Properties *)

(** ** Results *)

Lemma result_bind_ok {A B} (r : result A) (f : A → result B) (b : B) :
  r ≫= f = Ok b → ∃ a, r = Ok a ∧ f a = Ok b.
Proof. destruct r as [a|e]; [eauto | discriminate]. Qed.

Lemma not_ok_throws {A} (r : result A) : (∀ a, r ≠ Ok a) → ∃ e, r = Throw e.
Proof. destruct r as [a|e]; [intros Hr; by destruct (Hr a) | eauto]. Qed.

(** ** Numbers *)

Module NumberFacts.

Lemma integer_of_of_Z (n : Z) : integer_of (of_Z n) = Some n.
Proof. unfold integer_of, of_Z. cbn [Q2Qc this]. by rewrite inject_Z_Qred. Qed.

Lemma twice_of_Z (n : Z) : twice (of_Z n) = of_Z (n * 2).
Proof.
  unfold twice, of_Z. f_equal. apply Qc_is_canon. unfold Qcmult.
  cbn [Q2Qc this]. rewrite !Qred_correct. by rewrite inject_Z_mult.
Qed.

Lemma turns_of_Z (n : Z) : turns (of_Z n) = Some (Z.to_nat n).
Proof.
  unfold turns, of_Z. cbn [Q2Qc this]. by rewrite inject_Z_Qred, Qceiling_Z.
Qed.

End NumberFacts.

(** ** Typed arrays *)

Module Uint8ArrayFacts.
Import Uint8Array.

(** Writing [src] right after the part of a zeroed buffer that is already
    written. *)
Lemma set_after_prefix (pre src : bytes) (k : nat) :
  set (pre ++ new (length src + k)) src (length pre)
  = Ok ((pre ++ src) ++ new k).
Proof.
  unfold set, new.
  rewrite decide_True.
  2:{ rewrite length_app, length_replicate. lia. }
  f_equal.
  rewrite take_app_length, <- app_assoc. do 2 f_equal.
  rewrite replicate_add, <- drop_drop, drop_app_length.
  rewrite <- (length_replicate (length src) x00) at 1.
  apply drop_app_length.
Qed.

Lemma slice_prefix (a b : bytes) : slice (a ++ b) 0 (length a) = a.
Proof. unfold slice. rewrite drop_0, Nat.sub_0_r. apply take_app_length. Qed.

Lemma slice_middle (a b c : bytes) :
  slice (a ++ b ++ c) (length a) (length a + length b) = b.
Proof.
  unfold slice. rewrite drop_app_length.
  replace (length a + length b - length a)%nat with (length b) by lia.
  apply take_app_length.
Qed.

Lemma slice_from_suffix (a b c : bytes) :
  slice_from (a ++ b ++ c) (length a + length b) = c.
Proof.
  unfold slice_from. rewrite <- drop_drop, drop_app_length. apply drop_app_length.
Qed.

End Uint8ArrayFacts.

(** ** Bytes *)

Module BytesFacts.

Lemma byte_of_to_N (b : byte) : byte_of_N (Byte.to_N b) = b.
Proof. unfold byte_of_N. by rewrite Byte.of_to_N. Qed.

Lemma to_N_lt (b : byte) : (Byte.to_N b < 256)%N.
Proof. pose proof (Byte.to_N_bounded b). lia. Qed.

Lemma to_of_N_byte (n : N) : (n < 256)%N → Byte.to_N (byte_of_N n) = n.
Proof.
  intros Hn. unfold byte_of_N. destruct (Byte.of_N n) as [b|] eqn:Hb.
  - by apply Byte.to_of_N.
  - apply Byte.of_N_None_iff in Hb. lia.
Qed.

Lemma byte_xor_cancel (a b : byte) : byte_xor (byte_xor a b) b = a.
Proof.
  unfold byte_xor.
  destruct (Byte.to_bits a) as (a0 & a1 & a2 & a3 & a4 & a5 & a6 & a7) eqn:Ea.
  destruct (Byte.to_bits b) as (b0 & b1 & b2 & b3 & b4 & b5 & b6 & b7) eqn:Eb.
  rewrite Byte.to_bits_of_bits.
  rewrite <- (Byte.of_bits_to_bits a), Ea.
  repeat f_equal; rewrite Bool.xorb_assoc, Bool.xorb_nilpotent; apply Bool.xorb_false_r.
Qed.

End BytesFacts.

(** ** Strings *)

Module StringFacts.
Import Wording Checks.

Lemma chars_app (a b : string) : chars (a +:+ b) = chars a ++ chars b.
Proof.
  induction a as [|c a IH]; simpl; [done|]. unfold chars in *. simpl. by rewrite IH.
Qed.

Lemma length_chars (s : string) : length (chars s) = String.length s.
Proof.
  induction s as [|c s IH]; simpl; [done|]. unfold chars in *. simpl. by rewrite IH.
Qed.

Lemma length_append_char (s : string) (c : ascii) :
  String.length (s +:+ String c EmptyString) = S (String.length s).
Proof. rewrite <- !length_chars, chars_app, length_app. simpl. lia. Qed.

Lemma append_empty (a b : string) : a +:+ b = "" → a = "" ∧ b = "".
Proof. destruct a; simpl; [done | discriminate]. Qed.

(** An index inside the string reads one of its characters. *)
Lemma char_at_lt (s : string) (i : nat) :
  (i < String.length s)%nat →
  ∃ c, char_at s i = Some (String c EmptyString) ∧ c ∈ chars s.
Proof.
  revert i. induction s as [|a s IH]; intros i Hi; simpl in Hi; [lia|].
  unfold char_at. destruct i as [|i]; simpl.
  - exists a. split; [done|]. unfold chars. simpl. apply list_elem_of_here.
  - destruct (IH i) as (c & Hc & Hin); [lia|]. unfold char_at in Hc.
    exists c. destruct (String.get i s); [|done]. split; [done|].
    unfold chars. simpl. by apply list_elem_of_further.
Qed.

(** A property of every character of a list, checked by running a test
    over the list. *)
Lemma all_check (P : ascii → Prop) (f : ascii → bool) (l : list ascii) :
  (∀ c, f c = true → P c) → forallb f l = true → ∀ c, c ∈ l → P c.
Proof.
  intros Hf. rewrite forallb_forall. intros Hall c Hc.
  apply Hf, Hall. by apply list_elem_of_In.
Qed.

End StringFacts.

(** ** The reference libraries keep the contracts *)

Module RefFacts.
Import Ref BytesFacts NumberFacts.

Ltac euclid := zify; Z.to_euclidean_division_equations; lia.

Lemma dec6_enc6 (i : N) : (i < 64)%N → dec6 (enc6 i) = Some i.
Proof.
  intros Hi. rewrite <- (N2Nat.id i).
  assert (N.to_nat i < 64)%nat as Hn by lia.
  generalize dependent (N.to_nat i). clear. intros n Hn.
  do 64 (destruct n as [|n]; [reflexivity|]). lia.
Qed.

(** The four characters of three bytes hold the three bytes. *)
Lemma group3 (b0 b1 b2 : N) :
  (b0 < 256 → b1 < 256 → b2 < 256 →
   let n := b0 * 65536 + b1 * 256 + b2 in
   let m := ((n / 262144 * 64 + n / 4096 mod 64) * 64 + n / 64 mod 64) * 64 + n mod 64 in
   n / 262144 < 64 ∧ m / 65536 = b0 ∧ m / 256 mod 256 = b1 ∧ m mod 256 = b2)%N.
Proof.
  intros H0 H1 H2 n m.
  assert (m = n) as -> by (subst m n; euclid).
  subst n. euclid.
Qed.

Lemma group2 (b0 b1 : N) :
  (b0 < 256 → b1 < 256 →
   let n := b0 * 1024 + b1 * 4 in
   let m := (n / 4096 * 64 + n / 64 mod 64) * 64 + n mod 64 in
   n / 4096 < 64 ∧ m mod 4 = 0 ∧ m / 1024 = b0 ∧ m / 4 mod 256 = b1)%N.
Proof.
  intros H0 H1 n m.
  assert (m = n) as -> by (subst m n; euclid).
  subst n. euclid.
Qed.

Lemma group1 (b0 : N) :
  (b0 < 256 →
   let n := b0 * 16 in
   let m := n / 64 * 64 + n mod 64 in
   n / 64 < 64 ∧ m mod 16 = 0 ∧ m / 16 = b0)%N.
Proof.
  intros H0 n m.
  assert (m = n) as -> by (subst m n; euclid).
  subst n. euclid.
Qed.

Lemma mod64_lt (n : N) : (n mod 64 < 64)%N.
Proof. apply N.mod_lt. lia. Qed.

(** Induction over a list three elements at a time. *)
Lemma list_ind3 {A} (P : list A → Prop) :
  P [] → (∀ a, P [a]) → (∀ a b, P [a; b]) →
  (∀ a b c l, P l → P (a :: b :: c :: l)) → ∀ l, P l.
Proof.
  intros H0 H1 H2 H3. fix IH 1.
  intros [|a [|b [|c l]]]; [exact H0 | apply H1 | apply H2 | apply H3, IH].
Qed.

Lemma decode_encode (bs : bytes) :
  ∃ ns, sextets (encode_chars bs) = Some ns ∧ decode_sextets ns = Some bs.
Proof.
  induction bs as [|b0|b0 b1|b0 b1 b2 rest (ns & Hs & Hd)] using list_ind3.
  - by exists [].
  - destruct (group1 (Byte.to_N b0) (to_N_lt b0)) as (Hlt & Hz & Hb).
    eexists. cbn [encode_chars sextets].
    rewrite !dec6_enc6 by (assumption || apply mod64_lt).
    split; [reflexivity|]. cbn [decode_sextets].
    rewrite Hz, Hb, byte_of_to_N. reflexivity.
  - destruct (group2 (Byte.to_N b0) (Byte.to_N b1) (to_N_lt b0) (to_N_lt b1))
      as (Hlt & Hz & Hb0 & Hb1).
    eexists. cbn [encode_chars sextets].
    rewrite !dec6_enc6 by (assumption || apply mod64_lt).
    split; [reflexivity|]. cbn [decode_sextets].
    rewrite Hz, Hb0, Hb1, !byte_of_to_N. reflexivity.
  - destruct (group3 (Byte.to_N b0) (Byte.to_N b1) (Byte.to_N b2)
                (to_N_lt b0) (to_N_lt b1) (to_N_lt b2))
      as (Hlt & Hb0 & Hb1 & Hb2).
    eexists. cbn [encode_chars sextets].
    rewrite !dec6_enc6 by (assumption || apply mod64_lt).
    rewrite Hs. split; [reflexivity|]. cbn [decode_sextets].
    rewrite Hd, Hb0, Hb1, Hb2, !byte_of_to_N. reflexivity.
Qed.

Lemma from_to_base64 (bs : bytes) : from_base64 (to_base64 bs) = Ok bs.
Proof.
  unfold from_base64, to_base64.
  rewrite list_ascii_of_string_of_list_ascii.
  destruct (decode_encode bs) as (ns & -> & ->). reflexivity.
Qed.

Lemma ref_base64_roundtrip : Contract.base64_roundtrip.
Proof. exact from_to_base64. Qed.

(** For the reference codec the texts that it carries unchanged are the
    well-formed UTF-8 strings that begin with no byte order mark. *)
Lemma ref_utf8_text (p : string) :
  Contract.utf8_text p ↔ well_formed p ∧ without_byte_order_mark p = p.
Proof.
  unfold Contract.utf8_text, well_formed. simpl. unfold to_string, from_string.
  rewrite string_of_list_byte_of_string.
  destruct (utf8_valid _); split; try done.
  - intros [= Hp]. done.
  - intros [_ ->]. done.
  - intros [? _]. done.
Qed.

Lemma ref_string_codec : Contract.string_codec.
Proof.
  intros p Hp. simpl. unfold to_string, from_string.
  unfold well_formed in Hp. rewrite Hp.
  by rewrite string_of_list_byte_of_string.
Qed.

Lemma xor_stream_cancel (ks : nat → byte) (m : bytes) (i : nat) :
  xor_stream ks i (xor_stream ks i m) = m.
Proof.
  revert i. induction m as [|b m IH]; intros i; simpl; [done|].
  by rewrite byte_xor_cancel, IH.
Qed.

Lemma length_le_bytes (n : nat) (x : N) : length (le_bytes n x) = n.
Proof. revert x. induction n as [|n IH]; intros x; simpl; [done|]. by rewrite IH. Qed.

Lemma length_checksum (k n body : bytes) : length (checksum k n body) = 16%nat.
Proof. apply length_le_bytes. Qed.

Lemma secretbox_open_seal (m n k : bytes) :
  length n = 24%nat → length k = 32%nat →
  ∃ c, crypto_secretbox_easy m n k = Ok c ∧ crypto_secretbox_open_easy c n k = Ok m.
Proof.
  intros Hn Hk. eexists. split.
  - unfold crypto_secretbox_easy. rewrite Hn, Hk. reflexivity.
  - unfold crypto_secretbox_open_easy. rewrite Hn, Hk. cbn [Nat.eqb negb].
    set (body := xor_stream (keystream k n) 0 m).
    pose proof (length_checksum k n body) as Hlen.
    destruct (Nat.ltb_spec (length (checksum k n body ++ body)) 16) as [Hlt|_].
    { rewrite length_app in Hlt. lia. }
    rewrite take_app_length', drop_app_length' by exact Hlen.
    rewrite decide_True by reflexivity.
    subst body. by rewrite xor_stream_cancel.
Qed.

Lemma ref_secretbox_roundtrip : Contract.secretbox_roundtrip.
Proof. exact secretbox_open_seal. Qed.

Lemma draw_length (n : nat) (g : N) : length (draw n g).1 = n.
Proof.
  revert g. induction n as [|n IH]; intros g; simpl; [done|].
  specialize (IH (lcg g)). destruct (draw n (lcg g)) as [bs g2]. simpl in *. lia.
Qed.

Lemma ref_randombytes_length : Contract.randombytes_length.
Proof.
  intros n g Hn. simpl. unfold randombytes_buf. rewrite integer_of_of_Z.
  destruct (Z.ltb_spec n 0) as [?|_]; [lia|].
  destruct (Z.leb_spec 2147483648 n) as [?|_]; [lia|]. cbn [orb].
  pose proof (draw_length (Z.to_nat n) g) as Hd.
  destruct (draw (Z.to_nat n) g) as [bs g']. by exists bs.
Qed.

Lemma ref_argon2_output_length : Contract.argon2_output_length.
Proof.
  intros o h. simpl. unfold argon2_hash.
  destruct (length (salt o) <? 8)%nat; [discriminate|].
  destruct (hashLen o <? 4); [discriminate|].
  intros [= <-]. apply length_le_bytes.
Qed.

End RefFacts.

(** ** The crypto module *)

Module CryptoFacts.
Import Crypto Contract Uint8ArrayFacts.

Section WithSodium.
Context `{Sodium}.

(** The three writes of [serializeEncryptedData] fill the buffer with the
    salt, the nonce and the ciphertext, in this order, and never throw. *)
Lemma serialize_bytes (c n s : bytes) :
  serializeEncryptedData c n s = Ok (to_base64 (s ++ n ++ c)).
Proof.
  unfold serializeEncryptedData.
  pose proof (set_after_prefix [] s (length n + length c)) as H1.
  simpl in H1. rewrite Nat.add_assoc in H1. rewrite H1. clear H1. simpl.
  pose proof (set_after_prefix s n (length c)) as H2.
  rewrite H2. clear H2. simpl.
  pose proof (set_after_prefix (s ++ n) c 0) as H3.
  rewrite Nat.add_0_r, length_app in H3. rewrite H3. simpl.
  unfold Uint8Array.new. simpl. by rewrite app_nil_r, <- app_assoc.
Qed.

(** C6.  For every salt [s], nonce [n] and ciphertext [c] (of any length,
    so also for a 16-byte salt and a 24-byte nonce),
    [serializeEncryptedData c n s] returns the Base64 text of the bytes
    [s ++ n ++ c], and decoding that text gives exactly [s ++ n ++ c]. *)
Theorem serialize_layout (c n s : bytes) :
  base64_roundtrip →
  ∃ blob : string,
    serializeEncryptedData c n s = Ok blob
    ∧ blob = to_base64 (s ++ n ++ c)
    ∧ from_base64 blob = Ok (s ++ n ++ c).
Proof.
  intros Hb64. exists (to_base64 (s ++ n ++ c)).
  split; [apply serialize_bytes|]. split; [reflexivity|]. apply Hb64.
Qed.

(** What [deserializeEncryptedData] returns for a blob that decodes. *)
Lemma deserialize_decoded (blob : string) (b : bytes) :
  from_base64 blob = Ok b →
  deserializeEncryptedData blob
  = Ok {| env_ciphertext := drop 40 b; env_nonce := take 24 (drop 16 b);
          env_salt := take 16 b |}.
Proof. intros Hb. unfold deserializeEncryptedData. rewrite Hb. reflexivity. Qed.

(** C2.  For every 16-byte salt [s], 24-byte nonce [n] and byte string [c],
    deserializing the serialized envelope returns exactly [(c, n, s)]. *)
Theorem deserialize_serialize (c n s : bytes) :
  base64_roundtrip →
  length s = 16%nat → length n = 24%nat →
  serializeEncryptedData c n s ≫= deserializeEncryptedData
  = Ok {| env_ciphertext := c; env_nonce := n; env_salt := s |}.
Proof.
  intros Hb64 Hs Hn. rewrite serialize_bytes. cbn [mbind result_bind].
  unfold deserializeEncryptedData. rewrite Hb64. cbn [mbind result_bind].
  unfold SALT_BYTES, NONCE_BYTES. f_equal. f_equal.
  - transitivity (Uint8Array.slice_from (s ++ n ++ c) (length s + length n));
      [by rewrite Hs, Hn | apply slice_from_suffix].
  - transitivity (Uint8Array.slice (s ++ n ++ c) (length s) (length s + length n));
      [by rewrite Hs, Hn | apply slice_middle].
  - transitivity (Uint8Array.slice (s ++ n ++ c) 0 (length s));
      [by rewrite Hs | apply slice_prefix].
Qed.

(** C3, as the code has it.  For every input whose decoded length is less
    than 40 bytes, [deserializeEncryptedData] does not fail: it returns the
    slices 0:16, 16:40 and 40:end of the decoded bytes, that is a salt of at
    most 16 bytes, a nonce of fewer than 24 bytes and an empty ciphertext. *)
Theorem deserialize_short_blob (blob : string) (b : bytes) :
  from_base64 blob = Ok b → (length b < 40)%nat →
  deserializeEncryptedData blob
  = Ok {| env_ciphertext := []; env_nonce := drop 16 b; env_salt := take 16 b |}
  ∧ (length (take 16 b) ≤ 16)%nat
  ∧ (length (drop 16 b) < 24)%nat
  ∧ ∀ e : exn, deserializeEncryptedData blob ≠ Throw e.
Proof.
  intros Hb Hlen. rewrite (deserialize_decoded _ _ Hb).
  rewrite (drop_ge b 40) by lia.
  rewrite (take_ge (drop 16 b)) by (rewrite length_drop; lia).
  split; [reflexivity|]. split; [rewrite length_take; lia|].
  split; [rewrite length_drop; lia|]. discriminate.
Qed.

(** [deserializeEncryptedData] throws exactly when the decoding throws. *)
Lemma deserialize_throws_iff (blob : string) (e : exn) :
  deserializeEncryptedData blob = Throw e ↔ from_base64 blob = Throw e.
Proof.
  unfold deserializeEncryptedData.
  destruct (from_base64 blob); cbn [mbind result_bind]; split; congruence.
Qed.

(** A text that does not begin with the byte order mark is left as it
    is. *)
Lemma without_no_byte_order_mark (p : string) :
  (∀ rest : string, p ≠ byte_order_mark +:+ rest) → without_byte_order_mark p = p.
Proof.
  intros Hp. destruct p as [|a [|b [|c rest]]]; try reflexivity.
  unfold without_byte_order_mark.
  destruct (Ascii.eqb_spec a "239") as [->|]; [|reflexivity].
  destruct (Ascii.eqb_spec b "187") as [->|]; [|reflexivity].
  destruct (Ascii.eqb_spec c "191") as [->|]; [|reflexivity].
  by destruct (Hp rest).
Qed.

(** C1, as the code has it.  For every UTF-8 text [p] and every 32-byte
    key [k], [encryptData] returns a box and a 24-byte nonce, and
    [decryptData] on them with the same key returns [p] without the byte
    order mark U+FEFF that it begins with, if it begins with one; so it
    returns exactly [p] for every [p] that does not begin with one. *)
Theorem decrypt_encrypt (p : string) (k : bytes) (g : rng) :
  randombytes_length → secretbox_roundtrip → string_codec →
  well_formed p → length k = 32%nat →
  ∃ box : sealed,
    (encryptData p k g).1 = Ok box
    ∧ length (nonce box) = 24%nat
    ∧ decryptData (ciphertext box) (nonce box) k = Ok (without_byte_order_mark p)
    ∧ ((∀ rest : string, p ≠ byte_order_mark +:+ rest) →
       decryptData (ciphertext box) (nonce box) k = Ok p).
Proof.
  intros Hrand Hbox Hcodec Htext Hk. unfold encryptData.
  destruct (Hrand (Z.of_nat NONCE_BYTES) g) as (n & Hdraw & Hn); [unfold NONCE_BYTES; lia|].
  destruct (randombytes_buf (Z.of_nat NONCE_BYTES) g) as [drawn g'].
  simpl in Hdraw. subst drawn. rewrite Nat2Z.id in Hn. unfold NONCE_BYTES in Hn.
  destruct (Hbox (from_string p) n k Hn Hk) as (c & Hseal & Hopen).
  exists {| ciphertext := c; nonce := n |}. cbn [fst mbind result_bind].
  rewrite Hseal. cbn [mbind result_bind ciphertext nonce].
  split; [reflexivity|]. split; [exact Hn|].
  assert (decryptData c n k = Ok (without_byte_order_mark p)) as Hdec.
  { unfold decryptData. rewrite Hopen. cbn [mbind result_bind].
    rewrite (Hcodec p Htext). reflexivity. }
  split; [exact Hdec|].
  intros Hp. by rewrite Hdec, without_no_byte_order_mark.
Qed.

(** [decryptData] returns the text of what the secret box opened to, or
    throws its one error. *)
Lemma decryptData_cases (c n k : bytes) :
  (∃ d p, crypto_secretbox_open_easy c n k = Ok d ∧ to_string d = Ok p
          ∧ decryptData c n k = Ok p)
  ∨ decryptData c n k = Throw decryption_failed.
Proof.
  unfold decryptData.
  destruct (crypto_secretbox_open_easy c n k) as [d|e]; cbn [mbind result_bind].
  - destruct (to_string d) as [p|e] eqn:Hp; [left; eauto | right; reflexivity].
  - right. reflexivity.
Qed.

(** C7.  [deriveKeyFromPassword] hashes with Argon2id, 3 iterations,
    65536 KiB of memory and an output of 32 bytes, for every password and
    salt.  When the salt is omitted the salt is the 16 bytes that
    [sodium.randombytes_buf(16)] returns, and that salt is returned with
    the key. *)
Theorem deriveKey_parameters `{Argon2}
    (password : string) (salt : option bytes) (g : rng) :
  randombytes_length → argon2_output_length →
  ∃ (s : bytes) (g' : rng),
    match salt with
    | Some given => s = given ∧ g' = g
    | None => randombytes_buf 16 g = (Ok s, g') ∧ length s = 16%nat
    end
    ∧ deriveKeyFromPassword password salt g
      = (hash ← argon2_hash {| pass := password; salt := s; type := Argon2id;
                               time := 3; mem := 65536; hashLen := 32 |};
         Ok {| key := hash; key_salt := s |},
         g')
    ∧ ∀ d : derived, (deriveKeyFromPassword password salt g).1 = Ok d →
        length (key d) = 32%nat ∧ key_salt d = s.
Proof.
  intros Hrand Hlen.
  assert (∀ s d,
    (hash ← argon2_hash {| pass := password; salt := s; type := Argon2id;
                           time := 3; mem := 65536; hashLen := 32 |};
     Ok {| key := hash; key_salt := s |}) = Ok d →
    length (key d) = 32%nat ∧ key_salt d = s) as Hkey.
  { intros s d Hd. apply result_bind_ok in Hd as (h & Hh & [= <-]).
    split; [|reflexivity]. by apply Hlen in Hh. }
  unfold deriveKeyFromPassword. destruct salt as [given|].
  - exists given, g. split; [done|]. split; [reflexivity|]. apply Hkey.
  - destruct (Hrand (Z.of_nat SALT_BYTES) g) as (s & Hdraw & Hs); [unfold SALT_BYTES; lia|].
    change (Z.of_nat SALT_BYTES) with 16 in *.
    destruct (randombytes_buf 16 g) as [drawn g'] eqn:Hd. simpl in Hdraw. subst drawn.
    exists s, g'. split; [done|]. split; [reflexivity|]. apply Hkey.
Qed.

End WithSodium.

End CryptoFacts.

(** ** The password generator *)

Module PasswordFacts.
Import Crypto Contract Wording Checks StringFacts NumberFacts.

(** The character set is the concatenation of the selected parts, or the
    alphanumeric set when that is empty. *)
Lemma build_charset_eq (o : password_options) :
  build_charset o
  = let sel := part (uppercase o) uppercaseChars +:+ part (lowercase o) lowercaseChars
               +:+ part (numbers o) numberChars +:+ part (symbols o) symbolChars in
    if String.eqb sel "" then uppercaseChars +:+ lowercaseChars +:+ numberChars else sel.
Proof.
  unfold build_charset, part.
  destruct (flag (uppercase o)), (flag (lowercase o)), (flag (numbers o)),
    (flag (symbols o)); reflexivity.
Qed.

Lemma flag_is_set (f : option bool) : flag f = true ↔ is_set f.
Proof. unfold is_set. destruct f as [[|]|]; simpl; split; congruence. Qed.

Lemma part_elem (f : option bool) (set : string) (c : ascii) :
  c ∈ chars (part f set) → is_set f ∧ c ∈ chars set.
Proof.
  unfold part. destruct (flag f) eqn:Hf.
  - intros Hc. split; [by apply flag_is_set | done].
  - intros Hc. by apply not_elem_of_nil in Hc.
Qed.

Lemma part_empty (f : option bool) (set : string) :
  set ≠ "" → part f set = "" → ¬ is_set f.
Proof.
  unfold part. intros Hne Hp Hset. apply flag_is_set in Hset. rewrite Hset in Hp. done.
Qed.

Lemma upper_codes (c : ascii) :
  c ∈ chars uppercaseChars → (65 ≤ nat_of_ascii c ≤ 90)%nat.
Proof.
  revert c.
  apply (all_check _ (λ c, (65 <=? nat_of_ascii c)%nat && (nat_of_ascii c <=? 90)%nat)).
  - intros c [?%Nat.leb_le ?%Nat.leb_le]%andb_prop. lia.
  - reflexivity.
Qed.

Lemma lower_codes (c : ascii) :
  c ∈ chars lowercaseChars → (97 ≤ nat_of_ascii c ≤ 122)%nat.
Proof.
  revert c.
  apply (all_check _ (λ c, (97 <=? nat_of_ascii c)%nat && (nat_of_ascii c <=? 122)%nat)).
  - intros c [?%Nat.leb_le ?%Nat.leb_le]%andb_prop. lia.
  - reflexivity.
Qed.

Lemma number_codes (c : ascii) : c ∈ chars numberChars → is_digit c.
Proof.
  revert c.
  apply (all_check _ (λ c, (48 <=? nat_of_ascii c)%nat && (nat_of_ascii c <=? 57)%nat)).
  - intros c [?%Nat.leb_le ?%Nat.leb_le]%andb_prop. unfold is_digit. lia.
  - reflexivity.
Qed.

(** Every character of the set that the loop indexes is one the flags
    select, or alphanumeric when no flag is set. *)
Lemma build_charset_elem (o : password_options) (c : ascii) :
  c ∈ chars (build_charset o) →
  selected o c ∨ (no_flag_set o ∧ alphanumeric c).
Proof.
  rewrite build_charset_eq. cbv zeta.
  destruct (String.eqb_spec
    (part (uppercase o) uppercaseChars +:+ part (lowercase o) lowercaseChars
     +:+ part (numbers o) numberChars +:+ part (symbols o) symbolChars) "") as [He|_].
  - intros Hc. right. split.
    + apply append_empty in He as [Hu He]. apply append_empty in He as [Hl He].
      apply append_empty in He as [Hn Hs].
      repeat split; eapply part_empty; try eassumption; discriminate.
    + rewrite !chars_app, !elem_of_app in Hc. unfold alphanumeric.
      destruct Hc as [Hc|[Hc|Hc]];
        [apply upper_codes in Hc | apply lower_codes in Hc | apply number_codes in Hc];
        unfold is_digit in *; cbv zeta; lia.
  - intros Hc. left. rewrite !chars_app, !elem_of_app in Hc. unfold selected.
    destruct Hc as [Hc|[Hc|[Hc|Hc]]]; apply part_elem in Hc; tauto.
Qed.

Lemma build_charset_nonempty (o : password_options) :
  (0 < String.length (build_charset o))%nat.
Proof.
  unfold build_charset.
  destruct (flag (uppercase o)), (flag (lowercase o)), (flag (numbers o)),
    (flag (symbols o)); vm_compute; lia.
Qed.

Section WithSodium.
Context `{Sodium}.

(** The loop appends one character of the set per index, as long as the
    indices are inside the random bytes. *)
Lemma password_loop (randomBytes : bytes) (charset : string) (l : list nat) :
  (0 < String.length charset)%nat →
  (∀ i, i ∈ l → i < length randomBytes)%nat →
  ∀ password : string,
  let password' := foldl (password_step randomBytes charset) password l in
  String.length password' = (String.length password + length l)%nat
  ∧ ∀ c, c ∈ chars password' → c ∈ chars password ∨ c ∈ chars charset.
Proof.
  intros Hcs. induction l as [|i l IH]; intros Hl password; cbn [foldl].
  { cbn [length]. split; [lia | auto]. }
  assert (i < length randomBytes)%nat as Hi by (apply Hl, list_elem_of_here).
  destruct (lookup_lt_is_Some_2 randomBytes i Hi) as [b Hb].
  destruct (char_at_lt charset (Byte.to_nat b `mod` String.length charset))
    as (ch & Hch & Hin); [apply Nat.mod_upper_bound; lia|].
  assert (password_step randomBytes charset password i
          = password +:+ String ch EmptyString) as ->.
  { unfold password_step. by rewrite Hb, Hch. }
  destruct (IH (λ j Hj, Hl j (list_elem_of_further _ _ _ Hj))
              (password +:+ String ch EmptyString)) as [Hlen Hchars].
  split.
  - rewrite Hlen, length_append_char. cbn [length]. lia.
  - intros c Hc. destruct (Hchars c Hc) as [Hc'|Hc']; [|by right].
    rewrite chars_app, elem_of_app in Hc'. destruct Hc' as [?|Hc']; [by left|].
    apply list_elem_of_singleton in Hc'. subst c. by right.
Qed.

(** C8, as the code has it.  For every integer length [n] with
    [0 <= n < 2^30] (16 when omitted) and every setting of the flags (all
    set when omitted), [generatePassword] returns a string of exactly [n]
    characters, each from one of the selected character sets; with only
    [numbers] set every character is a digit 0-9; and with no flag set the
    characters are alphanumeric and nothing is thrown. *)
Theorem generatePassword_charset
    (length : option Z) (options : option password_options) (g : rng) :
  let n := default 16 length in
  let o := default default_options options in
  randombytes_length → 0 ≤ n < 1073741824 →
  ∃ password : string,
    (generatePassword (of_Z <$> length) options g).1 = Ok password
    ∧ Z.of_nat (String.length password) = n
    ∧ (∀ c, c ∈ chars password → selected o c ∨ (no_flag_set o ∧ alphanumeric c))
    ∧ (is_set (numbers o) → ¬ is_set (uppercase o) → ¬ is_set (lowercase o) →
       ¬ is_set (symbols o) → ∀ c, c ∈ chars password → is_digit c)
    ∧ (no_flag_set o → ∀ c, c ∈ chars password → alphanumeric c).
Proof.
  intros n o Hrand Hn. unfold generatePassword. fold o.
  assert (default (of_Z 16) (of_Z <$> length) = of_Z n) as ->
    by (subst n; by destruct length).
  rewrite twice_of_Z, turns_of_Z.
  destruct (Hrand (n * 2) g) as (randomBytes & Hdraw & Hlen); [lia|].
  destruct (randombytes_buf (n * 2) g) as [drawn g']. simpl in Hdraw. subst drawn.
  cbn [fst mbind result_bind]. eexists. split; [reflexivity|].
  destruct (password_loop randomBytes (build_charset o) (seq 0 (Z.to_nat n))
              (build_charset_nonempty o)) with (password := EmptyString)
    as [Hl Hc].
  { intros i Hi. apply elem_of_seq in Hi. lia. }
  assert (∀ c, c ∈ chars (foldl (password_step randomBytes (build_charset o)) ""
                                (seq 0 (Z.to_nat n))) →
               selected o c ∨ (no_flag_set o ∧ alphanumeric c)) as Hsel.
  { intros c Hin. destruct (Hc c Hin) as [Hnil|Hcs].
    - by apply not_elem_of_nil in Hnil.
    - by apply build_charset_elem. }
  split; [|split; [|split]].
  - rewrite Hl, length_seq. cbn [String.length]. lia.
  - exact Hsel.
  - intros Hnum Hup Hlow Hsym c Hin.
    destruct (Hsel c Hin) as [Hs|[(_ & _ & Hno & _) _]]; [|by destruct Hno].
    destruct Hs as [[? _]|[[? _]|[[_ Hd]|[? _]]]]; try done.
    by apply number_codes.
  - intros (Hup & Hlow & Hnum & Hsym) c Hin.
    destruct (Hsel c Hin) as [Hs|[_ Ha]]; [|exact Ha].
    destruct Hs as [[? _]|[[? _]|[[? _]|[? _]]]]; done.
Qed.

End WithSodium.

End PasswordFacts.

(** ** The vault service *)

Module VaultFacts.
Import Crypto Vault VaultWording.

Lemma prop_get_readable (v : jsval) (name : string) :
  readable v → prop_get v name = Ok (field v name).
Proof. intros [Hu Hn]. by destruct v. Qed.

Lemma prop_get_ok_readable (v r : jsval) (name : string) :
  prop_get v name = Ok r → readable v ∧ r = field v name.
Proof. destruct v; simpl; intros [= <-] || discriminate; (split; [split|]; done). Qed.

Section WithLibraries.
Context `{Sodium} `{Runtime} `{ApiService}.

(** C10.  For every encrypted entry [e] and key [k] for which the blob
    deserializes, decrypts and parses, [decryptVaultEntry e k] returns an
    object whose [id], [createdAt] and [updatedAt] are those of [e], also
    where the decrypted JSON has fields of these names; and when the
    decrypted JSON is an object, every other field of the result is the
    field of this name of that object (and is absent where that object has
    none). *)
Theorem decryptVaultEntry_fields
    (e : jsval) (k : bytes) (blob json : string) (env : envelope) (entry : jsval) :
  prop_get e "encryptedData" = Ok (VStr blob) →
  deserializeEncryptedData blob = Ok env →
  decryptData (env_ciphertext env) (env_nonce env) k = Ok json →
  JSON_parse json = Ok entry →
  ∃ (id createdAt updatedAt : jsval) (o : gmap string jsval),
    prop_get e "id" = Ok id
    ∧ prop_get e "createdAt" = Ok createdAt
    ∧ prop_get e "updatedAt" = Ok updatedAt
    ∧ decryptVaultEntry e k = Ok (VObj o)
    ∧ o !! "id" = Some id
    ∧ o !! "createdAt" = Some createdAt
    ∧ o !! "updatedAt" = Some updatedAt
    ∧ ∀ fields : gmap string jsval,
        entry = VObj fields →
        ∀ name : string,
          name ≠ "id" → name ≠ "createdAt" → name ≠ "updatedAt" →
          o !! name = fields !! name.
Proof.
  intros Hdata Hdes Hdec Hparse.
  destruct (prop_get_ok_readable _ _ _ Hdata) as [Hread _].
  exists (field e "id"), (field e "createdAt"), (field e "updatedAt").
  eexists. rewrite !(prop_get_readable e) by done.
  do 3 (split; [reflexivity|]).
  unfold decryptVaultEntry.
  rewrite Hdata. cbn [mbind result_bind deserialize_value].
  rewrite Hdes. cbn [mbind result_bind].
  rewrite Hdec. cbn [mbind result_bind].
  rewrite Hparse. cbn [mbind result_bind].
  rewrite !(prop_get_readable e) by done. cbn [mbind result_bind try_catch].
  split; [reflexivity|].
  split; [by rewrite !lookup_insert_ne, lookup_insert_eq by done|].
  split; [by rewrite lookup_insert_ne, lookup_insert_eq by done|].
  split; [by rewrite lookup_insert_eq|].
  intros fields -> name Hid Hc Hu. by rewrite !lookup_insert_ne.
Qed.

(** Conversely, [decryptVaultEntry] returns only when the blob
    deserialized, decrypted and parsed, and then what it returns is the
    parsed entry under the three fields of the wrapper. *)
Lemma decryptVaultEntry_ok_inv (e : jsval) (k : bytes) (v : jsval) :
  decryptVaultEntry e k = Ok v →
  ∃ (blob json : string) (env : envelope) (entry : jsval),
    prop_get e "encryptedData" = Ok (VStr blob)
    ∧ deserializeEncryptedData blob = Ok env
    ∧ decryptData (env_ciphertext env) (env_nonce env) k = Ok json
    ∧ JSON_parse json = Ok entry
    ∧ v = VObj (<["updatedAt" := field e "updatedAt"]>
               (<["createdAt" := field e "createdAt"]>
               (<["id" := field e "id"]> (own_props entry)))).
Proof.
  unfold decryptVaultEntry, try_catch.
  destruct (prop_get e "encryptedData") as [data|] eqn:Hdata;
    cbn [mbind result_bind]; [|discriminate].
  destruct (prop_get_ok_readable _ _ _ Hdata) as [Hread _].
  destruct data as [| | | |blob| |]; cbn [deserialize_value mbind result_bind];
    try discriminate.
  destruct (deserializeEncryptedData blob) as [env|] eqn:Hdes;
    cbn [mbind result_bind]; [|discriminate].
  destruct (decryptData _ _ k) as [json|] eqn:Hdec;
    cbn [mbind result_bind]; [|discriminate].
  destruct (JSON_parse json) as [entry|] eqn:Hparse;
    cbn [mbind result_bind]; [|discriminate].
  rewrite !(prop_get_readable e) by done. cbn [mbind result_bind].
  intros [= <-]. by exists blob, json, env, entry.
Qed.

(** Whatever goes wrong inside [decryptVaultEntry], it throws one error. *)
Lemma decryptVaultEntry_throws (e : jsval) (k : bytes) (err : exn) :
  decryptVaultEntry e k = Throw err → err = Error "Failed to decrypt vault entry".
Proof.
  unfold decryptVaultEntry, try_catch.
  destruct (_ ≫= _); [discriminate | by intros [= <-]].
Qed.

(** Whatever goes wrong inside [importVault], it throws one error. *)
Lemma importVault_throws (jsonData : string) (key : bytes) (w : world) (e : exn) :
  (importVault jsonData key w).1 = Throw e →
  e = Error "Failed to import vault: Invalid format".
Proof.
  unfold importVault, try_catchM.
  destruct (_ ≫= _) as [[out|e'] w']; [discriminate|].
  unfold mbind, M_bind, bind, console_error, throw. cbn. by intros [= <-].
Qed.

(** C4, as the code has it.  For every archive that parses and whose
    [format] is not ["falconpass-export"], [importVault] throws the
    generic [Error] with the message "Failed to import vault: Invalid
    format" and has called [decryptVaultEntry] on no entry; all it did was
    to log the rejection of the format.  This error is the one that
    [importVault] throws for every failure. *)
Theorem importVault_unknown_format
    (jsonData : string) (key : bytes) (w : world) (importData format : jsval) :
  JSON_parse jsonData = Ok importData →
  prop_get importData "format" = Ok format →
  format ≠ VStr "falconpass-export" →
  (∃ w' : world,
    importVault jsonData key w
    = (Throw (Error "Failed to import vault: Invalid format"), w')
    ∧ decrypt_calls w' = decrypt_calls w
    ∧ console w' = console w ++ [[LVal (VStr "Failed to import vault:");
                                  LExn (Error "Invalid export format")]]
    ∧ w_clock w' = w_clock w ∧ w_net w' = w_net w)
  ∧ ∀ (other : string) (key' : bytes) (w0 : world) (e : exn),
      (importVault other key' w0).1 = Throw e →
      e = Error "Failed to import vault: Invalid format".
Proof.
  intros Hparse Hformat Hne. split; [|apply importVault_throws].
  assert (strict_neq_str format "falconpass-export" = true) as Hneq.
  { destruct format; try reflexivity. simpl.
    destruct (String.eqb_spec s "falconpass-export"); [congruence | reflexivity]. }
  eexists. unfold importVault, try_catchM, mbind, M_bind, bind, lift.
  rewrite Hparse, Hformat, Hneq. cbn. repeat split; reflexivity.
Qed.

(** More generally, [importVault] calls [decryptVaultEntry] only for an
    archive that parses and carries the recognized format: a text that
    does not parse, a value without properties and a missing format are
    refused with the same error. *)
Lemma importVault_refuses_without_decrypting
    (jsonData : string) (key : bytes) (w : world) :
  (∀ importData : jsval,
     JSON_parse jsonData = Ok importData →
     prop_get importData "format" ≠ Ok (VStr "falconpass-export")) →
  ∃ w' : world,
    importVault jsonData key w
    = (Throw (Error "Failed to import vault: Invalid format"), w')
    ∧ decrypt_calls w' = decrypt_calls w.
Proof.
  intros Hformat.
  unfold importVault, try_catchM, mbind, M_bind, bind, lift.
  destruct (JSON_parse jsonData) as [importData|e] eqn:Hparse.
  2:{ eexists. cbn. split; reflexivity. }
  specialize (Hformat importData eq_refl).
  destruct (prop_get importData "format") as [format|e] eqn:Hget.
  2:{ eexists. cbn. split; reflexivity. }
  assert (strict_neq_str format "falconpass-export" = true) as ->.
  { destruct format; try reflexivity. simpl.
    destruct (String.eqb_spec s "falconpass-export"); [congruence | reflexivity]. }
  eexists. cbn. split; reflexivity.
Qed.

(** The callback of [importVault] returns for every readable entry. *)
Lemma imported_entry_total (key : bytes) (e : jsval) (w : world) :
  readable e →
  ∃ (v : jsval) (w' : world),
    imported_entry key e w = (Ok v, w')
    ∧ import_outcome key e v
    ∧ decrypt_calls w' = decrypt_calls w ++ [e]
    ∧ w_net w' = w_net w.
Proof.
  intros Hread. unfold import_outcome.
  unfold imported_entry, try_catchM, call_decryptVaultEntry.
  destruct (decryptVaultEntry e key) as [d|err].
  { eexists _, _. split; [reflexivity|]. repeat split; reflexivity. }
  unfold mbind, M_bind, bind, lift, console_error, or_else, ret, now_iso.
  rewrite !(prop_get_readable e) by done. cbn.
  unfold import_placeholder, or_some_string.
  destruct (truthy (field e "id")), (truthy (field e "createdAt")) eqn:Hc,
    (truthy (field e "updatedAt")) eqn:Hu; cbn;
    repeat match goal with
    | |- context [Date_toISOString ?c] => destruct (Date_toISOString c) as [? ?]; cbn
    end;
    (eexists _, _; split; [reflexivity|]; split; [|split; reflexivity]);
    (eexists; split; [reflexivity|]);
    (split; [by rewrite !lookup_insert_ne, lookup_insert_eq by done|]);
    (split; [by rewrite !lookup_insert_ne, lookup_insert_eq by done|]);
    (split; [by rewrite !lookup_insert_ne, lookup_insert_eq by done|]);
    (split; [eexists; split;
              [by rewrite lookup_insert_ne, lookup_insert_eq by done|]
            | eexists; split; [by rewrite lookup_insert_eq|]]);
    rewrite ?Hc, ?Hu; eauto.
Qed.

Lemma mapM_imported (key : bytes) (entries : list jsval) :
  Forall readable entries →
  ∀ w : world,
  ∃ (out : list jsval) (w' : world),
    mapM (imported_entry key) entries w = (Ok out, w')
    ∧ Forall2 (import_outcome key) entries out
    ∧ decrypt_calls w' = decrypt_calls w ++ entries
    ∧ w_net w' = w_net w.
Proof.
  induction 1 as [|e entries He _ IH]; intros w.
  { exists [], w. cbn. rewrite app_nil_r. repeat split; constructor. }
  destruct (imported_entry_total key e w He) as (v & w1 & Hv & Hout & Hcalls & Hnet).
  destruct (IH w1) as (out & w2 & Hrest & Houts & Hcalls2 & Hnet2).
  exists (v :: out), w2. cbn [mapM]. unfold bind at 1. rewrite Hv.
  unfold bind at 1. rewrite Hrest. unfold ret.
  split; [reflexivity|]. split; [by constructor|].
  rewrite Hcalls2, Hcalls, Hnet2, Hnet, <- app_assoc. done.
Qed.

(** The callback of [getVaultEntries] returns for every readable entry. *)
Lemma fetched_entry_total (key : bytes) (e : jsval) (w : world) :
  readable e →
  ∃ (v : jsval) (w' : world),
    fetched_entry key e w = (Ok v, w')
    ∧ fetch_outcome key e v
    ∧ decrypt_calls w' = decrypt_calls w ++ [fetched_wrapper e].
Proof.
  intros Hread. unfold fetch_outcome, fetch_placeholder.
  unfold fetched_entry, try_catchM, call_decryptVaultEntry, mbind, M_bind, bind, lift.
  rewrite !(prop_get_readable e) by done. fold (fetched_wrapper e).
  destruct (decryptVaultEntry (fetched_wrapper e) key) as [d|err].
  { eexists _, _. split; [reflexivity|]. split; reflexivity. }
  cbn. eexists _, _. split; [reflexivity|]. split; reflexivity.
Qed.

Lemma mapM_fetched (key : bytes) (entries : list jsval) :
  Forall readable entries →
  ∀ w : world,
  ∃ (out : list jsval) (w' : world),
    mapM (fetched_entry key) entries w = (Ok out, w')
    ∧ Forall2 (fetch_outcome key) entries out
    ∧ decrypt_calls w' = decrypt_calls w ++ map fetched_wrapper entries.
Proof.
  induction 1 as [|e entries He _ IH]; intros w.
  { exists [], w. cbn. rewrite app_nil_r. repeat split; constructor. }
  destruct (fetched_entry_total key e w He) as (v & w1 & Hv & Hout & Hcalls).
  destruct (IH w1) as (out & w2 & Hrest & Houts & Hcalls2).
  exists (v :: out), w2. cbn [mapM]. unfold bind at 1. rewrite Hv.
  unfold bind at 1. rewrite Hrest. unfold ret.
  split; [reflexivity|]. split; [by constructor|].
  rewrite Hcalls2, Hcalls, <- app_assoc. done.
Qed.

(** Among entries that are objects, a decryption failure of one entry
    does not abort a bulk operation.  For every archive of this format
    whose entries are neither [null] nor [undefined], [importVault] returns
    a list with one element per entry: the decrypted entry, or the
    placeholder where [decryptVaultEntry] throws; and [decryptVaultEntry]
    has been called on every entry.  The same holds for [getVaultEntries]
    over the entries of a response without error. *)
Lemma bulk_decryption_isolates_failures (key : bytes) (w : world) :
  (∀ (jsonData : string) (importData : jsval) (entries : list jsval),
     JSON_parse jsonData = Ok importData →
     prop_get importData "format" = Ok (VStr "falconpass-export") →
     prop_get importData "entries" = Ok (VArr entries) →
     Forall readable entries →
     ∃ (out : list jsval) (w' : world),
       importVault jsonData key w = (Ok out, w')
       ∧ length out = length entries
       ∧ Forall2 (import_outcome key) entries out
       ∧ decrypt_calls w' = decrypt_calls w ++ entries)
  ∧
  (∀ (response error : jsval) (entries : list jsval) (n : net),
     api_getVaultEntries (w_net w) = (Ok response, n) →
     prop_get response "error" = Ok error → truthy error = false →
     prop_get response "data" = Ok (VArr entries) →
     Forall readable entries →
     ∃ (out : list jsval) (w' : world),
       getVaultEntries key w = (Ok out, w')
       ∧ length out = length entries
       ∧ Forall2 (fetch_outcome key) entries out
       ∧ decrypt_calls w' = decrypt_calls w ++ map fetched_wrapper entries).
Proof.
  split.
  - intros jsonData importData entries Hparse Hformat Hentries Hread.
    destruct (mapM_imported key entries Hread w)
      as (out & w' & Hmap & Hout & Hcalls & _).
    exists out, w'.
    unfold importVault, try_catchM, mbind, M_bind, bind, lift.
    rewrite Hparse, Hformat.
    change (strict_neq_str (VStr "falconpass-export") "falconpass-export") with false.
    cbv iota. rewrite Hentries. cbn [array_map].
    rewrite Hmap. split; [reflexivity|]. split; [|done].
    symmetry. by eapply Forall2_length.
  - intros response error entries n Hfetch Herror Hfalsy Hdata Hread.
    set (w1 := {| w_clock := w_clock w; w_net := n; console := console w;
                  decrypt_calls := decrypt_calls w |}).
    destruct (mapM_fetched key entries Hread w1) as (out & w' & Hmap & Hout & Hcalls).
    exists out, w'.
    unfold getVaultEntries, try_catchM, mbind, M_bind, bind, lift, fetch_entries.
    rewrite Hfetch, Herror, Hfalsy, Hdata. cbn [truthy negb array_map].
    fold w1. rewrite Hmap. split; [reflexivity|]. split; [|done].
    symmetry. by eapply Forall2_length.
Qed.

(** An array element that is [null] is not an entry: the handler of the
    callback reads its [id], which throws, and the import fails as a
    whole. *)
Lemma imported_null_throws (key : bytes) (w : world) :
  ∃ (e : exn) (w' : world), imported_entry key VNull w = (Throw e, w').
Proof.
  unfold imported_entry, try_catchM, call_decryptVaultEntry.
  assert (decryptVaultEntry VNull key = Throw (Error "Failed to decrypt vault entry"))
    as -> by reflexivity.
  eexists _, _. reflexivity.
Qed.

Lemma importVault_null_entry
    (jsonData : string) (key : bytes) (w : world) (importData : jsval)
    (before after : list jsval) :
  JSON_parse jsonData = Ok importData →
  prop_get importData "format" = Ok (VStr "falconpass-export") →
  prop_get importData "entries" = Ok (VArr (before ++ VNull :: after)) →
  Forall readable before →
  ∃ w' : world,
    importVault jsonData key w
    = (Throw (Error "Failed to import vault: Invalid format"), w').
Proof.
  intros Hparse Hformat Hentries Hread.
  assert (∀ w0, ∃ e w1,
            mapM (imported_entry key) (before ++ VNull :: after) w0 = (Throw e, w1))
    as Hmap.
  { clear Hentries. induction Hread as [|x before Hx _ IH]; intros w0.
    - destruct (imported_null_throws key w0) as (e & w1 & Hnull).
      exists e, w1. cbn [app mapM]. unfold bind at 1. by rewrite Hnull.
    - destruct (imported_entry_total key x w0 Hx) as (v & w1 & Hv & _).
      destruct (IH w1) as (e & w2 & Hrest).
      exists e, w2. cbn [app mapM]. unfold bind at 1. rewrite Hv.
      unfold bind at 1. by rewrite Hrest. }
  destruct (Hmap w) as (e & w1 & Hthrow).
  eexists. unfold importVault, try_catchM, mbind, M_bind, bind, lift.
  rewrite Hparse, Hformat.
  change (strict_neq_str (VStr "falconpass-export") "falconpass-export") with false.
  cbv iota. rewrite Hentries. cbn [array_map]. rewrite Hthrow. reflexivity.
Qed.

End WithLibraries.

End VaultFacts.

(** ** Runs of the code with the reference libraries *)

Module Runs.
Import Crypto Contract Wording Vault VaultWording Ref Sample.

Example run_to_base64 : to_base64 [x00; x00; x00] = "AAAA".
Proof. reflexivity. Qed.

Example run_unlock_and_store : unlock_and_store = Ok gmail.
Proof. vm_compute. reflexivity. Qed.

Example run_wrong_password : wrong_password = Throw decryption_failed.
Proof. vm_compute. reflexivity. Qed.

Example run_digits :
  (generatePassword (Some (of_Z 16)) (Some digits_only) seed).1 = Ok "7757299279488218".
Proof. vm_compute. reflexivity. Qed.

Example run_defaults : (generatePassword None None seed).1 = Ok "xx]dg*VsJp.S!kFw".
Proof. vm_compute. reflexivity. Qed.

(** No flag set: the alphanumeric set. *)
Example run_no_flag :
  (generatePassword (Some (of_Z 8))
     (Some {| uppercase := None; lowercase := None; numbers := None;
              symbols := Some false |}) seed).1
  = Ok "NNp3gHvI".
Proof. vm_compute. reflexivity. Qed.

(** A negative length is refused by the reference random source. *)
Example run_negative_length :
  (generatePassword (Some (of_Z (-1))) None seed).1
  = Throw (TypeError "length must be an unsigned integer").
Proof. vm_compute. reflexivity. Qed.

(** For the length two and a half five bytes are drawn and the loop takes
    three turns. *)
Example run_two_and_a_half :
  (generatePassword (Some two_and_a_half) (Some digits_only) seed).1 = Ok "775".
Proof. vm_compute. reflexivity. Qed.

(** A string is spread by its code units: the lock emoji is a pair of
    surrogates, U+D83D and U+DD12. *)
Example run_code_units :
  code_units "aé🔒" = ["a"; "é"; surrogate 55357; surrogate 56594].
Proof. vm_compute. reflexivity. Qed.

(** The fields of the wrapper replace the ones of the plaintext. *)
Example run_stamped : decryptVaultEntry stamped_entry the_key = Ok stamped_result.
Proof. vm_compute. reflexivity. Qed.

(** The damaged entry of the archive becomes a placeholder, its
    neighbours are decrypted. *)
Example run_import :
  summary (importVault archive the_key start).1
  = Ok [(VStr "e1", VStr "Gmail", VUndefined);
        (VStr "e2", VUndefined, VStr "🔒 Encrypted Import Entry");
        (VStr "e1", VStr "Gmail", VUndefined)].
Proof. vm_compute. reflexivity. Qed.

Example run_listing :
  summary (getVaultEntries the_key start).1
  = Ok [(VStr "e1", VStr "Gmail", VUndefined);
        (VStr "e2", VUndefined, VStr "🔒 Encrypted Entry");
        (VStr "e1", VStr "Gmail", VUndefined)].
Proof. vm_compute. reflexivity. Qed.

(** An archive with [null] among its entries is refused as a whole. *)
Example run_null_archive :
  (importVault null_archive the_key start).1
  = Throw (Error "Failed to import vault: Invalid format").
Proof. vm_compute. reflexivity. Qed.

(** C9, where the code departs from it.  For the archive whose entries are
    one that decrypts and [null], [importVault] calls [decryptVaultEntry]
    on both, the second call fails, and the import throws: it returns no
    list of two elements with a placeholder for the second.  For the
    response with the same two entries [getVaultEntries] decrypts the
    first and returns the empty list. *)
Theorem bulk_operation_aborts_on_null :
  (importVault null_after_good the_key start).1
  = Throw (Error "Failed to import vault: Invalid format")
  ∧ decrypt_calls (importVault null_after_good the_key start).2 = [good_entry; VNull]
  ∧ decryptVaultEntry good_entry the_key = Ok good_result
  ∧ decryptVaultEntry VNull the_key = Throw (Error "Failed to decrypt vault entry")
  ∧ (getVaultEntries the_key null_after_good_listing).1 = Ok []
  ∧ decrypt_calls (getVaultEntries the_key null_after_good_listing).2 = [good_entry].
Proof.
  split; [vm_compute; reflexivity|].
  split; [vm_compute; reflexivity|].
  split; [vm_compute; reflexivity|].
  split; [vm_compute; reflexivity|].
  split; [vm_compute; reflexivity|].
  vm_compute. reflexivity.
Qed.

End Runs.

(** ** The theorems at concrete inputs, with the reference libraries *)

Module Witnesses.
Import Crypto Contract Wording Vault VaultWording Ref Sample.

Lemma decrypt_encrypt_witness :
  randombytes_length ∧ secretbox_roundtrip ∧ string_codec
  ∧ well_formed gmail ∧ length the_key = 32%nat
  ∧ ∃ box : sealed,
      (encryptData gmail the_key seed).1 = Ok box
      ∧ length (Crypto.nonce box) = 24%nat
      ∧ decryptData (ciphertext box) (Crypto.nonce box) the_key
        = Ok (without_byte_order_mark gmail)
      ∧ ((∀ rest : string, gmail ≠ byte_order_mark +:+ rest) →
         decryptData (ciphertext box) (Crypto.nonce box) the_key = Ok gmail).
Proof.
  assert (well_formed gmail) as Htext by (vm_compute; reflexivity).
  assert (length the_key = 32%nat) as Hkey by reflexivity.
  split; [exact RefFacts.ref_randombytes_length|].
  split; [exact RefFacts.ref_secretbox_roundtrip|].
  split; [exact RefFacts.ref_string_codec|].
  split; [exact Htext|]. split; [exact Hkey|].
  exact (CryptoFacts.decrypt_encrypt gmail the_key seed
           RefFacts.ref_randombytes_length RefFacts.ref_secretbox_roundtrip
           RefFacts.ref_string_codec Htext Hkey).
Defined.

(** C1 as the specification states it fails on the text "hi" after a byte
    order mark: the text is UTF-8, the key has 32 bytes, and [decryptData]
    on the box and the nonce that [encryptData] returned for it returns
    "hi", which is not the text. *)
Lemma decrypt_encrypt_counterexample :
  well_formed marked ∧ length the_key = 32%nat
  ∧ ∃ box : sealed,
      (encryptData marked the_key seed).1 = Ok box
      ∧ decryptData (ciphertext box) (Crypto.nonce box) the_key = Ok "hi"
      ∧ "hi" ≠ marked.
Proof.
  split; [vm_compute; reflexivity|]. split; [reflexivity|].
  eexists. split; [vm_compute; reflexivity|].
  split; [vm_compute; reflexivity|]. discriminate.
Qed.

Lemma deserialize_serialize_witness :
  base64_roundtrip
  ∧ length the_salt = 16%nat ∧ length the_nonce = 24%nat
  ∧ serializeEncryptedData gmail_box the_nonce the_salt ≫= deserializeEncryptedData
    = Ok gmail_envelope.
Proof.
  split; [exact RefFacts.ref_base64_roundtrip|].
  split; [reflexivity|]. split; [reflexivity|].
  exact (CryptoFacts.deserialize_serialize gmail_box the_nonce the_salt
           RefFacts.ref_base64_roundtrip eq_refl eq_refl).
Defined.

Lemma deserialize_short_blob_witness :
  from_base64 "AAAA" = Ok [x00; x00; x00]
  ∧ (length [x00; x00; x00] < 40)%nat
  ∧ deserializeEncryptedData "AAAA"
    = Ok {| env_ciphertext := []; env_nonce := []; env_salt := [x00; x00; x00] |}
  ∧ (length (take 16 [x00; x00; x00]) ≤ 16)%nat
  ∧ (length (drop 16 [x00; x00; x00]) < 24)%nat
  ∧ ∀ e : exn, deserializeEncryptedData "AAAA" ≠ Throw e.
Proof.
  assert (from_base64 "AAAA" = Ok [x00; x00; x00]) as Hb by reflexivity.
  assert (length [x00; x00; x00] < 40)%nat as Hlen by (simpl; lia).
  split; [exact Hb|]. split; [exact Hlen|].
  exact (CryptoFacts.deserialize_short_blob "AAAA" [x00; x00; x00] Hb Hlen).
Defined.

(** C3 as the specification states it fails on the blob ["AAAA"]: it
    decodes to three bytes, and [deserializeEncryptedData] returns a triple
    and throws nothing. *)
Lemma deserialize_short_blob_counterexample :
  from_base64 "AAAA" = Ok [x00; x00; x00]
  ∧ deserializeEncryptedData "AAAA"
    = Ok {| env_ciphertext := []; env_nonce := []; env_salt := [x00; x00; x00] |}
  ∧ ¬ ∃ e : exn, deserializeEncryptedData "AAAA" = Throw e.
Proof.
  split; [reflexivity|]. split; [reflexivity|]. intros [e He]. discriminate He.
Qed.

Lemma importVault_unknown_format_witness :
  JSON_parse foreign_archive = Ok foreign_value
  ∧ prop_get foreign_value "format" = Ok (VStr "not-falconpass")
  ∧ (∃ w' : world,
      importVault foreign_archive the_key start
      = (Throw (Error "Failed to import vault: Invalid format"), w')
      ∧ decrypt_calls w' = decrypt_calls start
      ∧ console w' = console start ++ [[LVal (VStr "Failed to import vault:");
                                        LExn (Error "Invalid export format")]]
      ∧ w_clock w' = w_clock start ∧ w_net w' = w_net start)
  ∧ ∀ (other : string) (key' : bytes) (w0 : world) (e : exn),
      (importVault other key' w0).1 = Throw e →
      e = Error "Failed to import vault: Invalid format".
Proof.
  assert (JSON_parse foreign_archive = Ok foreign_value) as Hparse
    by (vm_compute; reflexivity).
  assert (prop_get foreign_value "format" = Ok (VStr "not-falconpass")) as Hformat
    by reflexivity.
  split; [exact Hparse|]. split; [exact Hformat|].
  apply (VaultFacts.importVault_unknown_format foreign_archive the_key start
           foreign_value (VStr "not-falconpass") Hparse Hformat).
  discriminate.
Defined.

(** C4 as the specification states it fails on the archive of another
    product: what [importVault] throws for it is an [Error], of no class
    of its own, and it is the very error that [importVault] throws for a
    text that is no JSON. *)
Lemma importVault_unknown_format_counterexample :
  JSON_parse foreign_archive = Ok foreign_value
  ∧ prop_get foreign_value "format" = Ok (VStr "not-falconpass")
  ∧ JSON_parse no_json = Throw (SyntaxError "Unexpected token")
  ∧ ∃ e : exn,
      (importVault foreign_archive the_key start).1 = Throw e
      ∧ error_name e = "Error"
      ∧ error_name e ≠ "UnsupportedFormatError"
      ∧ (importVault no_json the_key start).1 = Throw e.
Proof.
  split; [vm_compute; reflexivity|]. split; [reflexivity|].
  split; [vm_compute; reflexivity|].
  exists (Error "Failed to import vault: Invalid format").
  split; [vm_compute; reflexivity|]. split; [reflexivity|].
  split; [discriminate|]. vm_compute. reflexivity.
Qed.

Lemma serialize_layout_witness :
  base64_roundtrip
  ∧ ∃ blob : string,
    serializeEncryptedData gmail_box the_nonce the_salt = Ok blob
    ∧ blob = to_base64 (the_salt ++ the_nonce ++ gmail_box)
    ∧ from_base64 blob = Ok (the_salt ++ the_nonce ++ gmail_box).
Proof.
  split; [exact RefFacts.ref_base64_roundtrip|].
  exact (CryptoFacts.serialize_layout gmail_box the_nonce the_salt
           RefFacts.ref_base64_roundtrip).
Defined.

Lemma deriveKey_parameters_witness :
  randombytes_length ∧ argon2_output_length
  ∧ ∃ (s : bytes) (g' : N),
    (randombytes_buf 16 seed = (Ok s, g') ∧ length s = 16%nat)
    ∧ deriveKeyFromPassword "Tr0ub4dor&3" None seed
      = (hash ← argon2_hash {| pass := "Tr0ub4dor&3"; salt := s; type := Argon2id;
                               time := 3; mem := 65536; hashLen := 32 |};
         Ok {| key := hash; key_salt := s |},
         g')
    ∧ ∀ d : derived, (deriveKeyFromPassword "Tr0ub4dor&3" None seed).1 = Ok d →
        length (key d) = 32%nat ∧ key_salt d = s.
Proof.
  split; [exact RefFacts.ref_randombytes_length|].
  split; [exact RefFacts.ref_argon2_output_length|].
  exact (CryptoFacts.deriveKey_parameters "Tr0ub4dor&3" None seed
           RefFacts.ref_randombytes_length RefFacts.ref_argon2_output_length).
Defined.

Lemma generatePassword_charset_witness :
  randombytes_length ∧ 0 ≤ 16 < 1073741824
  ∧ ∃ password : string,
      (generatePassword (of_Z <$> Some 16) (Some digits_only) seed).1 = Ok password
      ∧ Z.of_nat (String.length password) = 16
      ∧ (∀ c, c ∈ chars password →
              selected digits_only c ∨ (no_flag_set digits_only ∧ alphanumeric c))
      ∧ (is_set (numbers digits_only) → ¬ is_set (uppercase digits_only) →
         ¬ is_set (lowercase digits_only) → ¬ is_set (symbols digits_only) →
         ∀ c, c ∈ chars password → is_digit c)
      ∧ (no_flag_set digits_only → ∀ c, c ∈ chars password → alphanumeric c).
Proof.
  assert (0 ≤ 16 < 1073741824) as Hlen by lia.
  split; [exact RefFacts.ref_randombytes_length|].
  split; [exact Hlen|].
  exact (PasswordFacts.generatePassword_charset (Some 16) (Some digits_only) seed
           RefFacts.ref_randombytes_length Hlen).
Defined.

(** C8 as the specification states it fails on the length [2^30]: the
    random source is asked for [2^31] bytes, which it refuses, and
    [generatePassword] throws and returns no string. *)
Lemma generatePassword_charset_counterexample :
  too_long = 2 ^ 30
  ∧ (generatePassword (Some (of_Z too_long)) None seed).1
    = Throw (TypeError "length must be an unsigned integer")
  ∧ ¬ ∃ password : string,
        (generatePassword (Some (of_Z too_long)) None seed).1 = Ok password.
Proof.
  assert ((generatePassword (Some (of_Z too_long)) None seed).1
          = Throw (TypeError "length must be an unsigned integer")) as Hrun
    by (vm_compute; reflexivity).
  split; [reflexivity|]. split; [exact Hrun|].
  intros [password Hp]. rewrite Hrun in Hp. discriminate Hp.
Qed.

Lemma readable_archive_entries : Forall readable archive_entries.
Proof. repeat constructor; discriminate. Qed.

Lemma bulk_decryption_isolates_failures_witness :
  (∃ (out : list jsval) (w' : world),
     importVault archive the_key start = (Ok out, w')
     ∧ length out = 3%nat
     ∧ Forall2 (import_outcome the_key) archive_entries out
     ∧ decrypt_calls w' = archive_entries)
  ∧
  (∃ (out : list jsval) (w' : world),
     getVaultEntries the_key start = (Ok out, w')
     ∧ length out = 3%nat
     ∧ Forall2 (fetch_outcome the_key) archive_entries out
     ∧ decrypt_calls w' = map fetched_wrapper archive_entries).
Proof.
  assert (JSON_parse archive = Ok archive_value) as Hparse by (vm_compute; reflexivity).
  split.
  - exact (proj1 (VaultFacts.bulk_decryption_isolates_failures the_key start)
             archive archive_value archive_entries
             Hparse eq_refl eq_refl readable_archive_entries).
  - exact (proj2 (VaultFacts.bulk_decryption_isolates_failures the_key start)
             listing VUndefined archive_entries []
             eq_refl eq_refl eq_refl eq_refl readable_archive_entries).
Defined.

Lemma decryptVaultEntry_fields_witness :
  prop_get stamped_entry "encryptedData" = Ok (VStr stamped_blob)
  ∧ deserializeEncryptedData stamped_blob = Ok stamped_envelope
  ∧ decryptData stamped_box the_nonce the_key = Ok stamped_plaintext
  ∧ JSON_parse stamped_plaintext = Ok (VObj stamped_fields)
  ∧ stamped_fields !! "id" = Some (VStr "inner")
  ∧ decryptVaultEntry stamped_entry the_key = Ok stamped_result
  ∧ ∃ (id createdAt updatedAt : jsval) (o : gmap string jsval),
      prop_get stamped_entry "id" = Ok id
      ∧ prop_get stamped_entry "createdAt" = Ok createdAt
      ∧ prop_get stamped_entry "updatedAt" = Ok updatedAt
      ∧ decryptVaultEntry stamped_entry the_key = Ok (VObj o)
      ∧ o !! "id" = Some id
      ∧ o !! "createdAt" = Some createdAt
      ∧ o !! "updatedAt" = Some updatedAt
      ∧ ∀ fields : gmap string jsval,
          VObj stamped_fields = VObj fields →
          ∀ name : string,
            name ≠ "id" → name ≠ "createdAt" → name ≠ "updatedAt" →
            o !! name = fields !! name.
Proof.
  assert (prop_get stamped_entry "encryptedData" = Ok (VStr stamped_blob)) as Hdata
    by reflexivity.
  assert (deserializeEncryptedData stamped_blob = Ok stamped_envelope) as Hdes
    by (vm_compute; reflexivity).
  assert (decryptData stamped_box the_nonce the_key = Ok stamped_plaintext) as Hdec
    by (vm_compute; reflexivity).
  assert (JSON_parse stamped_plaintext = Ok (VObj stamped_fields)) as Hparse
    by (vm_compute; reflexivity).
  split; [exact Hdata|]. split; [exact Hdes|]. split; [exact Hdec|].
  split; [exact Hparse|].
  split; [vm_compute; reflexivity|].
  split; [vm_compute; reflexivity|].
  exact (VaultFacts.decryptVaultEntry_fields stamped_entry the_key stamped_blob
           stamped_plaintext stamped_envelope (VObj stamped_fields)
           Hdata Hdes Hdec Hparse).
Defined.

End Witnesses.

(** ** The vault service: encrypting, storing and exporting *)

Module VaultOpsFacts.
Import Crypto Contract Vault VaultWording Effect VaultOps VaultOpsWording.
Import CryptoFacts VaultFacts.

(** Lookups in an object literal. *)
Ltac lookups :=
  repeat first [rewrite lookup_insert_eq | rewrite lookup_insert_ne by done].

Section WithLibraries.
Context `{Sodium} `{Runtime} `{ApiService} `{!VaultApi} `{JsText}.

(** What was sealed under a 32-byte key opens under it. *)
Lemma encryptData_opens (p : string) (k : bytes) (g : rng) :
  randombytes_length → secretbox_roundtrip → utf8_text p → length k = 32%nat →
  ∃ (c n : bytes) (g' : rng),
    encryptData p k g = (Ok {| ciphertext := c; nonce := n |}, g')
    ∧ length n = 24%nat
    ∧ decryptData c n k = Ok p.
Proof.
  intros Hrand Hbox Htext Hk. unfold encryptData.
  destruct (Hrand (Z.of_nat NONCE_BYTES) g) as (n & Hdraw & Hn); [unfold NONCE_BYTES; lia|].
  destruct (randombytes_buf (Z.of_nat NONCE_BYTES) g) as [drawn g'].
  simpl in Hdraw. subst drawn. rewrite Nat2Z.id in Hn. unfold NONCE_BYTES in Hn.
  destruct (Hbox (from_string p) n k Hn Hk) as (c & Hseal & Hopen).
  exists c, n, g'. cbn [mbind result_bind]. rewrite Hseal. cbn [mbind result_bind].
  split; [reflexivity|]. split; [exact Hn|].
  unfold decryptData. rewrite Hopen. cbn [mbind result_bind].
  rewrite Htext. reflexivity.
Qed.

(** The blob of a 16-byte salt, a 24-byte nonce and a box is read back as
    that nonce and that box. *)
Lemma deserialize_blob (c n s : bytes) :
  base64_roundtrip → length s = 16%nat → length n = 24%nat →
  deserializeEncryptedData (to_base64 (s ++ n ++ c))
  = Ok {| env_ciphertext := c; env_nonce := n; env_salt := s |}.
Proof.
  intros Hb64 Hs Hn. rewrite (deserialize_decoded _ (s ++ n ++ c)) by apply Hb64.
  f_equal. f_equal.
  - rewrite app_assoc. apply drop_app_length'. rewrite length_app. lia.
  - rewrite drop_app_length' by (symmetry; exact Hs).
    apply take_app_length'. symmetry. exact Hn.
  - apply take_app_length'. symmetry. exact Hs.
Qed.

(** [encryptVaultEntry] on a readable entry whose JSON text the secret box
    carries: the wrapper it returns, and what its blob holds. *)
Lemma encryptVaultEntry_wrapper (e : jsval) (key salt : bytes) (g : rng) :
  randombytes_length → secretbox_roundtrip → length key = 32%nat →
  readable e → utf8_text (JSON_stringify e None) →
  ∃ (c n : bytes) (g' : rng),
    length n = 24%nat
    ∧ decryptData c n key = Ok (JSON_stringify e None)
    ∧ encryptVaultEntry e key salt g
      = (Ok (wrapper (field e "id") (to_base64 (salt ++ n ++ c))
                     (field e "createdAt") (field e "updatedAt")), g').
Proof.
  intros Hrand Hbox Hk Hread Htext.
  destruct (encryptData_opens _ key g Hrand Hbox Htext Hk) as (c & n & g' & Henc & Hn & Hdec).
  exists c, n, g'. split; [exact Hn|]. split; [exact Hdec|].
  unfold encryptVaultEntry. rewrite Henc. cbn [mbind result_bind ciphertext nonce].
  rewrite serialize_bytes. cbn [mbind result_bind].
  rewrite !(prop_get_readable e) by done. reflexivity.
Qed.

(** [encryptVaultEntry] returns for every readable entry and 32-byte
    key. *)
Lemma encryptVaultEntry_returns (e : jsval) (key salt : bytes) (g : rng) :
  randombytes_length → secretbox_roundtrip → length key = 32%nat → readable e →
  ∃ (blob : string) (g' : rng),
    encryptVaultEntry e key salt g
    = (Ok (wrapper (field e "id") blob (field e "createdAt") (field e "updatedAt")), g').
Proof.
  intros Hrand Hbox Hk Hread. unfold encryptVaultEntry, encryptData.
  destruct (Hrand (Z.of_nat NONCE_BYTES) g) as (n & Hdraw & Hn); [unfold NONCE_BYTES; lia|].
  destruct (randombytes_buf (Z.of_nat NONCE_BYTES) g) as [drawn g'].
  simpl in Hdraw. subst drawn. rewrite Nat2Z.id in Hn. unfold NONCE_BYTES in Hn.
  destruct (Hbox (from_string (JSON_stringify e None)) n key Hn Hk) as (c & Hseal & _).
  exists (to_base64 (salt ++ n ++ c)), g'.
  cbn [mbind result_bind]. rewrite Hseal. cbn [mbind result_bind ciphertext nonce].
  rewrite serialize_bytes. cbn [mbind result_bind].
  rewrite !(prop_get_readable e) by done. reflexivity.
Qed.

(** [decryptVaultEntry] on a wrapper whose blob holds the JSON text of
    [parsed]. *)
Lemma decryptVaultEntry_wrapper
    (i createdAt updatedAt : jsval) (c n salt key : bytes) (json : string)
    (parsed : jsval) :
  base64_roundtrip → length salt = 16%nat → length n = 24%nat →
  decryptData c n key = Ok json → JSON_parse json = Ok parsed →
  decryptVaultEntry (wrapper i (to_base64 (salt ++ n ++ c)) createdAt updatedAt) key
  = Ok (with_stamps parsed i createdAt updatedAt).
Proof.
  intros Hb64 Hs Hn Hdec Hparse. unfold decryptVaultEntry, wrapper, prop_get.
  lookups.
  cbn [default from_option id mbind result_bind deserialize_value].
  rewrite deserialize_blob by done.
  cbn [mbind result_bind env_ciphertext env_nonce].
  rewrite Hdec. cbn [mbind result_bind]. rewrite Hparse. reflexivity.
Qed.

(** Writing to a vault entry its own [id], [createdAt] and [updatedAt]
    changes nothing. *)
Lemma with_own_stamps (e : jsval) :
  vault_entry e →
  with_stamps e (field e "id") (field e "createdAt") (field e "updatedAt") = e.
Proof.
  intros (o & -> & [i Hi] & [c Hc] & [u Hu]). unfold with_stamps. cbn [own_props field].
  rewrite Hi, Hc, Hu. cbn [default]. f_equal.
  rewrite (insert_id o "id") by done.
  rewrite (insert_id o "createdAt") by done.
  by rewrite (insert_id o "updatedAt").
Qed.

Lemma vault_entry_readable (e : jsval) : vault_entry e → readable e.
Proof. intros (o & -> & _). by split. Qed.

(** X1.  An entry that was encrypted with a 32-byte key and a 16-byte salt
    decrypts to itself: [encryptVaultEntry] returns a wrapper with the
    [id] and the time stamps of the entry, and [decryptVaultEntry] on that
    wrapper, with the same key, returns the entry. *)
Theorem encrypt_decrypt_entry (e : jsval) (key salt : bytes) (g : rng) :
  base64_roundtrip → randombytes_length → secretbox_roundtrip →
  length key = 32%nat → length salt = 16%nat →
  vault_entry e → storable e →
  ∃ (blob : string) (g' : rng),
    encryptVaultEntry e key salt g
    = (Ok (wrapper (field e "id") blob (field e "createdAt") (field e "updatedAt")), g')
    ∧ decryptVaultEntry
        (wrapper (field e "id") blob (field e "createdAt") (field e "updatedAt")) key
      = Ok e.
Proof.
  intros Hb64 Hrand Hbox Hk Hs Hentry [Htext Hparse].
  destruct (encryptVaultEntry_wrapper e key salt g Hrand Hbox Hk
              (vault_entry_readable e Hentry) Htext)
    as (c & n & g' & Hn & Hdec & Henc).
  exists (to_base64 (salt ++ n ++ c)), g'. split; [exact Henc|].
  rewrite (decryptVaultEntry_wrapper _ _ _ c n salt key _ e) by done.
  by rewrite with_own_stamps.
Qed.


(** Every entry of an export is encrypted, and nothing but the random
    source changes. *)
Lemma export_wrappers (key salt : bytes) (entries : list jsval) :
  base64_roundtrip → randombytes_length → secretbox_roundtrip →
  length key = 32%nat → length salt = 16%nat →
  Forall (λ e, vault_entry e ∧ storable e) entries →
  ∀ s : session,
  ∃ (wrappers : list jsval) (s' : session),
    mapE (λ entry, with_rng (encryptVaultEntry entry key salt)) entries s
    = (Ok wrappers, s')
    ∧ s_world s' = s_world s ∧ requests s' = requests s
    ∧ Forall2 (λ e w, decryptVaultEntry w key = Ok e) entries wrappers.
Proof.
  intros Hb64 Hrand Hbox Hk Hs. induction 1 as [|e entries [He Hst] _ IH]; intros s.
  { exists [], s. cbn. repeat split; constructor. }
  destruct Hst as [Htext Hparse].
  destruct (encryptVaultEntry_wrapper e key salt (s_rng s) Hrand Hbox Hk
              (vault_entry_readable e He) Htext)
    as (c & n & g' & Hn & Hopen & Henc).
  set (blob := to_base64 (salt ++ n ++ c)) in *.
  assert (decryptVaultEntry
            (wrapper (field e "id") blob (field e "createdAt") (field e "updatedAt")) key
          = Ok e) as Hdec.
  { unfold blob. rewrite (decryptVaultEntry_wrapper _ _ _ c n salt key _ e) by done.
    by rewrite with_own_stamps. }
  set (s1 := {| s_rng := g'; s_world := s_world s; requests := requests s |}).
  destruct (IH s1) as (wrappers & s' & Hmap & Hw & Hr & Hall).
  exists (wrapper (field e "id") blob (field e "createdAt") (field e "updatedAt") :: wrappers), s'.
  cbn [mapE]. unfold bind at 1, with_rng at 1, zoom. rewrite Henc. fold s1.
  unfold bind at 1. rewrite Hmap. unfold ret.
  split; [reflexivity|]. split; [by rewrite Hw|]. split; [by rewrite Hr|].
  by constructor.
Qed.


(** Entries that all decrypt are imported as their decryptions, and
    nothing is logged. *)
Lemma import_decrypted (key : bytes) (entries wrappers : list jsval) :
  Forall2 (λ e w, decryptVaultEntry w key = Ok e) entries wrappers →
  ∀ w : world,
  ∃ w' : world,
    mapM (imported_entry key) wrappers w = (Ok entries, w')
    ∧ console w' = console w
    ∧ decrypt_calls w' = decrypt_calls w ++ wrappers.
Proof.
  induction 1 as [|e x entries wrappers Hx _ IH]; intros w.
  { exists w. cbn. by rewrite app_nil_r. }
  set (w1 := {| w_clock := w_clock w; w_net := w_net w; console := console w;
                decrypt_calls := decrypt_calls w ++ [x] |}).
  destruct (IH w1) as (w' & Hmap & Hcon & Hcalls).
  exists w'. cbn [mapM]. unfold Vault.bind at 1.
  unfold imported_entry at 1, try_catchM, call_decryptVaultEntry. rewrite Hx. fold w1.
  unfold Vault.bind at 1. rewrite Hmap. unfold Vault.ret.
  split; [reflexivity|]. split; [by rewrite Hcon|].
  rewrite Hcalls. subst w1. cbn [decrypt_calls]. by rewrite <- app_assoc.
Qed.

(** [exportVault] encrypts every entry and writes the archive object. *)
Lemma export_archive (entries : list jsval) (key salt : bytes) (s : session) :
  base64_roundtrip → randombytes_length → secretbox_roundtrip →
  length key = 32%nat → length salt = 16%nat →
  Forall (λ e, vault_entry e ∧ storable e) entries →
  ∃ (timestamp : string) (wrappers : list jsval) (s' : session),
    exportVault entries key salt s
    = (Ok (JSON_stringify (archive_object timestamp wrappers) (Some 2)), s')
    ∧ requests s' = requests s
    ∧ Forall2 (λ e w, decryptVaultEntry w key = Ok e) entries wrappers.
Proof.
  intros Hb64 Hrand Hbox Hk Hs Hall.
  destruct (export_wrappers key salt entries Hb64 Hrand Hbox Hk Hs Hall s)
    as (wrappers & s1 & Hmap & Hw & Hr & Hdec).
  destruct (Date_toISOString (w_clock (s_world s1))) as [timestamp c'] eqn:Hnow.
  exists timestamp, wrappers. eexists.
  split; [|split; [|exact Hdec]].
  - unfold exportVault, mbind, Eff_bind. unfold bind at 1. rewrite Hmap.
    unfold bind, in_world, zoom, now_iso. rewrite Hnow. unfold ret. reflexivity.
  - cbn [requests]. exact Hr.
Qed.

(** [importVault] on an archive object whose wrappers all decrypt. *)
Lemma import_archive
    (json timestamp : string) (key : bytes) (entries wrappers : list jsval) (w : world) :
  JSON_parse json = Ok (archive_object timestamp wrappers) →
  Forall2 (λ e x, decryptVaultEntry x key = Ok e) entries wrappers →
  ∃ w' : world,
    importVault json key w = (Ok entries, w') ∧ console w' = console w.
Proof.
  intros Hparse Hdec.
  destruct (import_decrypted key entries wrappers Hdec w) as (w' & Hmap' & Hcon & _).
  exists w'. split; [|exact Hcon].
  unfold importVault, try_catchM, mbind, M_bind, Vault.bind, Vault.lift.
  rewrite Hparse. unfold archive_object, prop_get. lookups.
  cbn [default from_option id].
  change (strict_neq_str (VStr "falconpass-export") "falconpass-export") with false.
  cbv iota. cbn [array_map]. rewrite Hmap'. reflexivity.
Qed.

(** X2.  Export and import are inverse to each other.  For vault entries
    that can be stored, a 32-byte key and a 16-byte salt, [exportVault]
    returns, without sending anything, the JSON text of an archive object;
    and whenever [JSON.parse] reads that object back from the text,
    [importVault] on the text, with the same key, returns exactly the
    exported entries, in their order, and logs no error. *)
Theorem export_import_roundtrip (entries : list jsval) (key salt : bytes) (s : session) :
  base64_roundtrip → randombytes_length → secretbox_roundtrip →
  length key = 32%nat → length salt = 16%nat →
  Forall (λ e, vault_entry e ∧ storable e) entries →
  ∃ (timestamp : string) (wrappers : list jsval) (s' : session),
    let json := JSON_stringify (archive_object timestamp wrappers) (Some 2) in
    exportVault entries key salt s = (Ok json, s')
    ∧ requests s' = requests s
    ∧ length wrappers = length entries
    ∧ (JSON_parse json = Ok (archive_object timestamp wrappers) →
       ∀ w : world,
       ∃ w' : world,
         importVault json key w = (Ok entries, w') ∧ console w' = console w).
Proof.
  intros Hb64 Hrand Hbox Hk Hs Hall.
  destruct (export_archive entries key salt s Hb64 Hrand Hbox Hk Hs Hall)
    as (timestamp & wrappers & s' & Hexport & Hr & Hdec).
  exists timestamp, wrappers, s'. cbv zeta.
  split; [exact Hexport|]. split; [exact Hr|].
  split; [symmetry; by eapply Forall2_length|].
  intros Hparse w. by eapply import_archive.
Qed.


(** Stamping twice is stamping once: the later stamps win. *)
Lemma with_stamps_twice (entry i c u i' c' u' : jsval) :
  with_stamps (with_stamps entry i c u) i' c' u' = with_stamps entry i' c' u'.
Proof.
  unfold with_stamps. cbn [own_props]. f_equal. apply map_eq. intros k.
  destruct (decide (k = "updatedAt")) as [->|Hu]; [by lookups|].
  destruct (decide (k = "createdAt")) as [->|Hc]; [by lookups|].
  destruct (decide (k = "id")) as [->|Hi]; [by lookups|].
  by rewrite !lookup_insert_ne.
Qed.

Lemma advance_add (a b : nat) (c : clock) :
  advance (a + b) c = advance b (advance a c).
Proof. revert c. induction a as [|a IH]; intros c; [done|]. cbn. apply IH. Qed.

Lemma temp_entry_readings (entry i : jsval) (c : clock) :
  temp_entry entry i c = with_stamps entry i (VStr (reading 0 c)) (VStr (reading 1 c)).
Proof.
  unfold temp_entry, reading. cbn [advance].
  destruct (Date_toISOString c) as [createdAt c1]. cbn [fst snd].
  by destruct (Date_toISOString c1) as [updatedAt c2].
Qed.

Lemma stamped_run (entry i : jsval) (s : session) :
  ∃ s' : session,
    stamped entry i s = (Ok (temp_entry entry i (w_clock (s_world s))), s')
    ∧ clock_only s s'
    ∧ w_clock (s_world s') = advance 2 (w_clock (s_world s)).
Proof.
  unfold stamped, temp_entry, mbind, Eff_bind, bind, in_world, zoom, now_iso.
  cbn [advance].
  destruct (Date_toISOString (w_clock (s_world s))) as [createdAt c1]. cbn.
  destruct (Date_toISOString c1) as [updatedAt c2]. cbn.
  eexists. split; [reflexivity|]. by repeat split.
Qed.


(** The temporary entry is encrypted, drawing from the random source only,
    and its blob decrypts, under any wrapper, to the entry with the [id]
    and the time stamps of that wrapper. *)
Lemma encrypt_temp (entry i : jsval) (c : clock) (key salt : bytes) (s : session) :
  base64_roundtrip → randombytes_length → secretbox_roundtrip →
  length key = 32%nat → length salt = 16%nat →
  storable (temp_entry entry i c) →
  ∃ (blob : string) (wi wc wu : jsval) (s' : session),
    with_rng (encryptVaultEntry (temp_entry entry i c) key salt) s
    = (Ok (wrapper wi blob wc wu), s')
    ∧ s_world s' = s_world s ∧ requests s' = requests s
    ∧ ∀ i' c' u' : jsval,
        decryptVaultEntry (wrapper i' blob c' u') key = Ok (with_stamps entry i' c' u').
Proof.
  intros Hb64 Hrand Hbox Hk Hs [Htext Hparse].
  assert (∃ t1 t2, temp_entry entry i c = with_stamps entry i (VStr t1) (VStr t2))
    as (t1 & t2 & Htemp).
  { unfold temp_entry. destruct (Date_toISOString c) as [t1 c1].
    destruct (Date_toISOString c1) as [t2 c2]. by exists t1, t2. }
  destruct (encryptVaultEntry_wrapper (temp_entry entry i c) key salt (s_rng s)
              Hrand Hbox Hk) as (ct & n & g' & Hn & Hdec & Henc);
    [rewrite Htemp; by split | exact Htext |].
  eexists (to_base64 (salt ++ n ++ ct)), _, _, _, _.
  split; [unfold with_rng, zoom; rewrite Henc; reflexivity|].
  split; [reflexivity|]. split; [reflexivity|].
  intros i' c' u'.
  rewrite (decryptVaultEntry_wrapper _ _ _ ct n salt key _ _ Hb64 Hs Hn Hdec Hparse).
  rewrite Htemp. by rewrite with_stamps_twice.
Qed.

(** The request object of a readable entry; an entry that is [null] or
    [undefined] has no [name] to read. *)
Lemma request_data_run (wi wc wu : jsval) (blob : string) (entry : jsval) (s : session) :
  readable entry →
  ∃ s' : session,
    request_data (wrapper wi blob wc wu) entry s
    = (Ok (sent_data (VStr blob) entry (reading 0 (w_clock (s_world s)))), s')
    ∧ clock_only s s'
    ∧ w_clock (s_world s') = advance 1 (w_clock (s_world s)).
Proof.
  intros Hread.
  unfold request_data, mbind, Eff_bind, bind, lift, in_world, zoom, now_iso.
  rewrite !(prop_get_readable entry) by done.
  unfold wrapper, prop_get. lookups. cbn [default from_option id].
  unfold reading. cbn [advance].
  destruct (Date_toISOString (w_clock (s_world s))) as [lastModified c1]. cbn.
  eexists. split; [reflexivity|]. by repeat split.
Qed.

Lemma request_data_unreadable (wi wc wu : jsval) (blob : string) (entry : jsval)
    (s : session) :
  ¬ readable entry →
  ∃ (e : exn) (s' : session),
    request_data (wrapper wi blob wc wu) entry s = (Throw e, s').
Proof.
  intros Hread.
  unfold request_data, mbind, Eff_bind, bind, lift.
  unfold wrapper, prop_get at 1. lookups. cbn [default from_option id].
  destruct entry; try (exfalso; apply Hread; by split); cbn; eauto.
Qed.

(** A response passes the check exactly when it has no error and has
    data. *)
Lemma check_response_ok (response : jsval) (fallback : string) :
  check_response response fallback = Ok tt →
  readable response
  ∧ truthy (field response "error") = false
  ∧ truthy (field response "data") = true.
Proof.
  unfold check_response.
  destruct (prop_get response "error") as [error|] eqn:Herr; [|discriminate].
  destruct (prop_get_ok_readable _ _ _ Herr) as [Hread ->].
  cbn [mbind result_bind].
  destruct (truthy (field response "error")) eqn:Ht; cbn [mbind result_bind].
  { discriminate. }
  rewrite (prop_get_readable response) by done. cbn [mbind result_bind].
  destruct (truthy (field response "data")); cbn [negb]; [done|].
  cbn [mbind result_bind]. discriminate.
Qed.

Lemma readable_or_not (v : jsval) : readable v ∨ ¬ readable v.
Proof.
  destruct v; try (left; by split); right; intros [Hu Hn]; by (apply Hu || apply Hn).
Qed.

(** A truthy value has properties to read. *)
Lemma truthy_readable (v : jsval) : truthy v = true → readable v.
Proof. by destruct v; split. Qed.

(** X3.  What [createVaultEntry] returns is what is stored.  For a 32-byte
    key, a 16-byte salt and an entry whose temporary copy (the entry under
    the [id] "temp-id" and two readings of the clock) is storable:
    whenever [createVaultEntry] returns an entry, it has sent one request;
    the request carries a blob and the name, address, category and tags of
    the entry in clear; the entry returned is the given one under the
    [id] and the time stamps that the response carries; and the blob,
    stored under that [id] and those time stamps, decrypts to exactly the
    entry returned. *)
Theorem createVaultEntry_stored
    (entry : jsval) (key salt : bytes) (s s' : session) (created : jsval) :
  base64_roundtrip → randombytes_length → secretbox_roundtrip →
  length key = 32%nat → length salt = 16%nat →
  storable (temp_entry entry (VStr "temp-id") (w_clock (s_world s))) →
  createVaultEntry entry key salt s = (Ok created, s') →
  ∃ (blob lastModified : string) (response : jsval) (n : net),
    let data := sent_data (VStr blob) entry lastModified in
    let d := field response "data" in
    requests s' = requests s ++ [CreateVaultEntry data]
    ∧ api_createVaultEntry data (w_net (s_world s)) = (Ok response, n)
    ∧ created = with_stamps entry (field d "id") (field d "createdAt") (field d "updatedAt")
    ∧ decryptVaultEntry
        (wrapper (field d "id") blob (field d "createdAt") (field d "updatedAt")) key
      = Ok created.
Proof.
  intros Hb64 Hrand Hbox Hk Hs Hstor Hrun.
  unfold createVaultEntry, try_catchE, mbind, Eff_bind in Hrun.
  destruct (stamped_run entry (VStr "temp-id") s) as (s1 & Hstamp & Hs1 & _).
  unfold bind at 1 in Hrun. rewrite Hstamp in Hrun.
  destruct (encrypt_temp entry (VStr "temp-id") (w_clock (s_world s)) key salt s1
              Hb64 Hrand Hbox Hk Hs Hstor)
    as (blob & wi & wc & wu & s2 & Henc & Hw2 & Hr2 & Hdec).
  unfold bind at 1 in Hrun. rewrite Henc in Hrun.
  destruct (readable_or_not entry) as [Hread|Hread].
  2:{ destruct (request_data_unreadable wi wc wu blob entry s2 Hread) as (e & s3 & Hreq).
      unfold bind at 1 in Hrun. rewrite Hreq in Hrun. discriminate. }
  destruct (request_data_run wi wc wu blob entry s2 Hread) as (s3 & Hreq & Hs3 & _).
  set (lm := reading 0 (w_clock (s_world s2))) in *.
  unfold bind at 1 in Hrun. rewrite Hreq in Hrun.
  unfold bind at 1, call at 1 in Hrun.
  assert (w_net (s_world s3) = w_net (s_world s)) as Hnet.
  { destruct Hs3 as (_ & _ & -> & _). rewrite Hw2. by destruct Hs1 as (_ & _ & -> & _). }
  assert (requests s3 = requests s) as Hreqs.
  { destruct Hs3 as (_ & -> & _). rewrite Hr2. by destruct Hs1 as (_ & -> & _). }
  rewrite Hnet, Hreqs in Hrun.
  destruct (api_createVaultEntry (sent_data (VStr blob) entry lm) (w_net (s_world s)))
    as [[response|e] n] eqn:Hapi; [|discriminate].
  exists blob, lm, response, n. cbv zeta.
  unfold bind at 1, lift at 1 in Hrun.
  destruct (check_response response "Failed to create vault entry") as [[]|e] eqn:Hcheck;
    [|discriminate].
  apply check_response_ok in Hcheck as (Hresp & _ & Hdata).
  apply truthy_readable in Hdata.
  unfold bind, lift in Hrun.
  rewrite !(prop_get_readable response) in Hrun by done.
  rewrite !(prop_get_readable (field response "data")) in Hrun by done.
  unfold ret in Hrun. injection Hrun as <- <-. cbn [requests].
  split; [reflexivity|]. split; [exact Hapi|]. split; [reflexivity|].
  apply Hdec.
Qed.


Lemma check_response_throw (response : jsval) (fallback : string) (e : exn) :
  check_response response fallback = Throw e → refusal fallback response e.
Proof.
  unfold check_response, refusal.
  destruct (prop_get response "error") as [error|e'] eqn:Herr;
    cbn [mbind result_bind]; [|by intros [= <-]].
  destruct (prop_get_ok_readable _ _ _ Herr) as [Hread ->].
  destruct (truthy (field response "error")) eqn:Ht; cbn [mbind result_bind].
  { by intros [= <-]. }
  rewrite (prop_get_readable response) by done. cbn [mbind result_bind].
  destruct (truthy (field response "data")); cbn [negb mbind result_bind]; [done|].
  by intros [= <-].
Qed.

(** X4.  How [createVaultEntry] fails.  For a readable entry and a
    32-byte key it throws only after it has sent its request, and what it
    throws is the failure of the request itself, or else the refusal of
    the response: the error of reading a response that is [null] or
    [undefined], the message of the server when the response carries an
    error, and "Failed to create vault entry" when it carries neither an
    error nor data. *)
Theorem createVaultEntry_failure
    (entry : jsval) (key salt : bytes) (s s' : session) (e : exn) :
  randombytes_length → secretbox_roundtrip →
  length key = 32%nat →
  readable entry →
  createVaultEntry entry key salt s = (Throw e, s') →
  ∃ data : jsval,
    requests s' = requests s ++ [CreateVaultEntry data]
    ∧ match (api_createVaultEntry data (w_net (s_world s))).1 with
      | Throw e' => e = e'
      | Ok response => refusal "Failed to create vault entry" response e
      end.
Proof.
  intros Hrand Hbox Hk Hread Hrun.
  unfold createVaultEntry, try_catchE, mbind, Eff_bind in Hrun.
  destruct (stamped_run entry (VStr "temp-id") s) as (s1 & Hstamp & Hs1 & _).
  unfold bind at 1 in Hrun. rewrite Hstamp in Hrun.
  assert (readable (temp_entry entry (VStr "temp-id") (w_clock (s_world s)))) as Htemp
    by (rewrite temp_entry_readings; by split).
  destruct (encryptVaultEntry_returns _ key salt (s_rng s1) Hrand Hbox Hk Htemp)
    as (blob & g' & Henc).
  unfold bind at 1, with_rng at 1, zoom at 1 in Hrun. rewrite Henc in Hrun.
  set (s2 := {| s_rng := g'; s_world := s_world s1; requests := requests s1 |}) in *.
  assert (s_world s2 = s_world s1 ∧ requests s2 = requests s1) as [Hw2 Hr2] by done.
  match type of Hrun with
  | context [request_data (wrapper ?wi ?b ?wc ?wu) entry] =>
      destruct (request_data_run wi wc wu b entry s2 Hread) as (s3 & Hreq & Hs3 & _)
  end.
  set (lm := reading 0 (w_clock (s_world s2))) in *.
  unfold bind at 1 in Hrun. rewrite Hreq in Hrun.
  unfold bind at 1, call at 1 in Hrun.
  assert (w_net (s_world s3) = w_net (s_world s)) as Hnet.
  { destruct Hs3 as (_ & _ & -> & _). rewrite Hw2. by destruct Hs1 as (_ & _ & -> & _). }
  assert (requests s3 = requests s) as Hreqs.
  { destruct Hs3 as (_ & -> & _). rewrite Hr2. by destruct Hs1 as (_ & -> & _). }
  rewrite Hnet, Hreqs in Hrun.
  exists (sent_data (VStr blob) entry lm).
  destruct (api_createVaultEntry (sent_data (VStr blob) entry lm) (w_net (s_world s)))
    as [[response|e'] n] eqn:Hapi; cbn [fst].
  2:{ unfold throw in Hrun. injection Hrun as <- <-. by split. }
  unfold bind at 1, lift at 1 in Hrun.
  destruct (check_response response "Failed to create vault entry") as [[]|e'] eqn:Hcheck.
  - apply check_response_ok in Hcheck as (Hresp & _ & Hdata).
    apply truthy_readable in Hdata.
    unfold bind, lift in Hrun.
    rewrite !(prop_get_readable response) in Hrun by done.
    rewrite !(prop_get_readable (field response "data")) in Hrun by done.
    discriminate.
  - unfold throw in Hrun. injection Hrun as <- <-.
    split; [reflexivity|]. by apply check_response_throw.
Qed.


(** X5.  What [updateVaultEntry] returns.  For a 32-byte key, a 16-byte
    salt and an entry whose temporary copy (the entry under the [id] of
    the call and two readings of the clock) is storable: whenever
    [updateVaultEntry] returns, the entry returned is the given one under
    the [id] of the call, whatever [id] the entry or the response carries,
    and under two new readings of the clock, the fourth and the fifth of
    the call: its [createdAt] is the time of the update.  One request was
    sent, whose [lastModified] is the third reading, and its blob
    decrypts, under any wrapper, to the given entry with the [id] and the
    time stamps of that wrapper. *)
Theorem updateVaultEntry_result
    (id : string) (entry : jsval) (key salt : bytes) (s s' : session) (updated : jsval) :
  base64_roundtrip → randombytes_length → secretbox_roundtrip →
  length key = 32%nat → length salt = 16%nat →
  storable (temp_entry entry (VStr id) (w_clock (s_world s))) →
  updateVaultEntry id entry key salt s = (Ok updated, s') →
  let c := w_clock (s_world s) in
  updated = with_stamps entry (VStr id) (VStr (reading 3 c)) (VStr (reading 4 c))
  ∧ ∃ blob : string,
      requests s'
      = requests s ++ [UpdateVaultEntry id (sent_data (VStr blob) entry (reading 2 c))]
      ∧ ∀ i' c' u' : jsval,
          decryptVaultEntry (wrapper i' blob c' u') key
          = Ok (with_stamps entry i' c' u').
Proof.
  intros Hb64 Hrand Hbox Hk Hs Hstor Hrun c.
  unfold updateVaultEntry, try_catchE, mbind, Eff_bind in Hrun.
  destruct (stamped_run entry (VStr id) s) as (s1 & Hstamp & Hs1 & Hc1).
  unfold bind at 1 in Hrun. rewrite Hstamp in Hrun.
  destruct (encrypt_temp entry (VStr id) (w_clock (s_world s)) key salt s1
              Hb64 Hrand Hbox Hk Hs Hstor)
    as (blob & wi & wc & wu & s2 & Henc & Hw2 & Hr2 & Hdec).
  unfold bind at 1 in Hrun. rewrite Henc in Hrun.
  destruct (readable_or_not entry) as [Hread|Hread].
  2:{ destruct (request_data_unreadable wi wc wu blob entry s2 Hread) as (e & s3 & Hreq).
      unfold bind at 1 in Hrun. rewrite Hreq in Hrun. discriminate. }
  destruct (request_data_run wi wc wu blob entry s2 Hread) as (s3 & Hreq & Hs3 & Hc3).
  unfold bind at 1 in Hrun. rewrite Hreq in Hrun.
  assert (w_clock (s_world s2) = advance 2 c) as Hc2 by (by rewrite Hw2).
  assert (w_clock (s_world s3) = advance 3 c) as Hc3'.
  { rewrite Hc3, Hc2. symmetry. apply (advance_add 2 1). }
  assert (reading 0 (w_clock (s_world s2)) = reading 2 c) as Hlm.
  { unfold reading. rewrite Hc2. cbn [advance]. reflexivity. }
  rewrite Hlm in Hrun.
  unfold bind at 1, call at 1 in Hrun.
  assert (requests s3 = requests s) as Hreqs.
  { destruct Hs3 as (_ & -> & _). rewrite Hr2. by destruct Hs1 as (_ & -> & _). }
  rewrite Hreqs in Hrun.
  destruct (api_updateVaultEntry id (sent_data (VStr blob) entry (reading 2 c))
              (w_net (s_world s3))) as [[response|e] n] eqn:Hapi; [|discriminate].
  unfold bind at 1, lift at 1 in Hrun.
  destruct (check_response response "Failed to update vault entry") as [[]|e] eqn:Hcheck;
    [|discriminate].
  match type of Hrun with
  | (let (_, _) := stamped _ _ ?s4 in _) = _ =>
      destruct (stamped_run entry (VStr id) s4) as (s5 & Hstamp' & Hs5 & _);
      rewrite Hstamp' in Hrun; cbn [s_world w_clock] in Hrun
  end.
  injection Hrun as <- <-. split.
  - rewrite temp_entry_readings, Hc3'. unfold reading.
    rewrite <- (advance_add 3 0), <- (advance_add 3 1). reflexivity.
  - exists blob. split; [|exact Hdec].
    destruct Hs5 as (_ & -> & _). reflexivity.
Qed.


(** [deleteVaultEntry] returns whatever the request does. *)
Lemma deleteVaultEntry_returns (id : string) (s : session) :
  ∃ (b : bool) (s' : session), deleteVaultEntry id s = (Ok b, s').
Proof.
  unfold deleteVaultEntry, try_catchE.
  match goal with
  | |- ∃ b s', (let (_, _) := ?body in _) = _ => destruct body as [[b|e] s1]
  end; [by eexists _, _|].
  unfold mbind, Eff_bind, bind, in_world, zoom, console_error, ret. by eexists _, _.
Qed.

(** X6.  [deleteVaultEntry] never throws and always sends its request.  It
    answers [true] exactly when the request returned a response without an
    error.  When the request returned a response that is neither [null]
    nor [undefined], it logs nothing.  When the request failed, or the
    response is [null] or [undefined], it answers [false] and logs one
    line: the text "Failed to delete vault entry", the [id] and a colon,
    and after it the error of the request or of reading the response. *)
Theorem deleteVaultEntry_answer (id : string) (s : session) :
  ∃ (b : bool) (s' : session),
    deleteVaultEntry id s = (Ok b, s')
    ∧ requests s' = requests s ++ [DeleteVaultEntry id]
    ∧ (b = true ↔
       ∃ response : jsval,
         (api_deleteVaultEntry id (w_net (s_world s))).1 = Ok response
         ∧ readable response ∧ truthy (field response "error") = false)
    ∧ match (api_deleteVaultEntry id (w_net (s_world s))).1
              ≫= (λ response, prop_get response "error") with
      | Ok error =>
          b = negb (truthy error) ∧ console (s_world s') = console (s_world s)
      | Throw e =>
          b = false
          ∧ console (s_world s')
            = console (s_world s)
              ++ [[LVal (VStr ("Failed to delete vault entry " +:+ id +:+ ":")); LExn e]]
      end.
Proof.
  unfold deleteVaultEntry, try_catchE, mbind at 1 2, Eff_bind, bind, call, lift, ret.
  destruct (api_deleteVaultEntry id (w_net (s_world s))) as [[response|e] n] eqn:Hapi;
    cbn [fst mbind result_bind].
  - destruct (readable_or_not response) as [Hread|Hread].
    + rewrite (prop_get_readable response) by done.
      eexists _, _. split; [reflexivity|]. cbn [requests s_world console].
      split; [reflexivity|]. split; [|by split].
      split.
      * intros Hb. exists response. split; [reflexivity|]. split; [exact Hread|].
        by apply negb_true_iff.
      * intros (r & [= <-] & _ & Hr). by apply negb_true_iff.
    + assert (∃ e, prop_get response "error" = Throw e) as [e ->].
      { destruct response; try (exfalso; apply Hread; by split); cbn; eauto. }
      unfold in_world, zoom, console_error. cbn.
      eexists _, _. split; [reflexivity|]. cbn.
      split; [reflexivity|]. split; [|by split].
      split; [done|]. intros (r & [= <-] & Hr & _). by destruct Hread.
  - unfold in_world, zoom, console_error. cbn.
    eexists _, _. split; [reflexivity|]. cbn.
    split; [reflexivity|]. split; [|by split].
    split; [done|]. by intros (r & [=] & _).
Qed.

(** X7.  [getVaultEntry] never throws and always sends its request.  It
    answers [null], or the decryption of the entry that the response
    carries: it returns an entry only when the response has no error and
    [decryptVaultEntry] returned that entry for the [id], blob and time
    stamps of the data of the response. *)
Theorem getVaultEntry_answer (id : string) (key : bytes) (s : session) :
  ∃ (v : jsval) (s' : session),
    getVaultEntry id key s = (Ok v, s')
    ∧ requests s' = requests s ++ [GetVaultEntry id]
    ∧ (v = VNull
       ∨ ∃ response : jsval,
           (api_getVaultEntry id (w_net (s_world s))).1 = Ok response
           ∧ truthy (field response "error") = false
           ∧ truthy (field response "data") = true
           ∧ decryptVaultEntry (fetched_wrapper (field response "data")) key = Ok v).
Proof.
  unfold getVaultEntry, try_catchE, mbind, Eff_bind.
  unfold bind at 1, call at 1.
  destruct (api_getVaultEntry id (w_net (s_world s))) as [[response|e] n] eqn:Hapi;
    cbn [fst].
  2:{ unfold bind, in_world, zoom, console_error, ret. cbn.
      eexists _, _. split; [reflexivity|]. split; [reflexivity|]. by left. }
  destruct (readable_or_not response) as [Hread|Hread].
  2:{ assert (∃ e, prop_get response "error" = Throw e) as [e He].
      { destruct response; try (exfalso; apply Hread; by split); cbn; eauto. }
      unfold bind, lift. rewrite He. unfold in_world, zoom, console_error, ret. cbn.
      eexists _, _. split; [reflexivity|]. split; [reflexivity|]. by left. }
  unfold bind at 1, lift at 1. rewrite (prop_get_readable response) by done.
  destruct (truthy (field response "error")) eqn:Herr.
  { unfold ret. eexists _, _. split; [reflexivity|]. split; [reflexivity|]. by left. }
  unfold bind at 1, lift at 1. rewrite (prop_get_readable response) by done.
  destruct (truthy (field response "data")) eqn:Hdata; cbn [negb].
  2:{ unfold ret. eexists _, _. split; [reflexivity|]. split; [reflexivity|]. by left. }
  pose proof (truthy_readable _ Hdata) as Hd.
  unfold bind, lift.
  rewrite ?(prop_get_readable response) by done.
  rewrite !(prop_get_readable (field response "data")) by done.
  fold (fetched_wrapper (field response "data")).
  unfold in_world, zoom, call_decryptVaultEntry. cbn [s_world].
  destruct (decryptVaultEntry (fetched_wrapper (field response "data")) key) as [v|e] eqn:Hdec.
  - eexists _, _. split; [reflexivity|]. split; [reflexivity|]. right.
    exists response. by repeat split.
  - unfold console_error, ret. cbn.
    eexists _, _. split; [reflexivity|]. split; [reflexivity|]. by left.
Qed.


(** Every entry of an upload is encrypted under the temporary [id] and two
    readings of the clock, and only its blob is kept. *)
Lemma upload_blobs (key salt : bytes) (entries : list jsval) :
  base64_roundtrip → randombytes_length → secretbox_roundtrip →
  length key = 32%nat → length salt = 16%nat →
  ∀ s : session,
  (∀ (j : nat) (e : jsval), entries !! j = Some e →
     storable (temp_entry e (VStr "temp-id") (advance (2 * j) (w_clock (s_world s))))) →
  ∃ (blobs : list string) (s' : session),
    mapE (λ entry,
          tempEntry ← stamped entry (VStr "temp-id");
          encrypted ← with_rng (encryptVaultEntry tempEntry key salt);
          lift (prop_get encrypted "encryptedData"))
         entries s
    = (Ok (map VStr blobs), s')
    ∧ requests s' = requests s
    ∧ w_net (s_world s') = w_net (s_world s)
    ∧ Forall2 (λ e blob, ∀ i' c' u' : jsval,
                 decryptVaultEntry (wrapper i' blob c' u') key
                 = Ok (with_stamps e i' c' u'))
              entries blobs.
Proof.
  intros Hb64 Hrand Hbox Hk Hs.
  set (callback := λ entry : jsval, _).
  induction entries as [|e entries IH]; intros s Hstor.
  { exists [], s. cbn. repeat split; constructor. }
  destruct (stamped_run e (VStr "temp-id") s) as (s1 & Hstamp & Hs1 & Hc1).
  destruct (encrypt_temp e (VStr "temp-id") (w_clock (s_world s)) key salt s1
              Hb64 Hrand Hbox Hk Hs (Hstor 0%nat e eq_refl))
    as (blob & wi & wc & wu & s2 & Henc & Hw2 & Hr2 & Hdec).
  destruct (IH s2) as (blobs & s' & Hmap & Hr & Hn & Hall).
  { intros j x Hx. rewrite Hw2, Hc1, <- advance_add.
    replace (2 + 2 * j)%nat with (2 * S j)%nat by lia. by apply Hstor. }
  assert (callback e s = (Ok (VStr blob), s2)) as Hcb.
  { subst callback. cbv beta. unfold mbind, Eff_bind. unfold bind at 1. rewrite Hstamp.
    unfold bind at 1. rewrite Henc. unfold lift, wrapper, prop_get. lookups.
    reflexivity. }
  exists (blob :: blobs), s'. cbn [mapE map].
  unfold bind at 1. rewrite Hcb. unfold bind at 1. rewrite Hmap. unfold ret.
  split; [reflexivity|].
  split. { rewrite Hr, Hr2. by destruct Hs1 as (_ & -> & _). }
  split. { rewrite Hn, Hw2. by destruct Hs1 as (_ & _ & -> & _). }
  by constructor.
Qed.

(** The callback of an upload sends nothing. *)
Lemma upload_callback_frame (key salt : bytes) (e : jsval) (s s' : session)
    (r : result jsval) :
  (tempEntry ← stamped e (VStr "temp-id");
   encrypted ← with_rng (encryptVaultEntry tempEntry key salt);
   lift (prop_get encrypted "encryptedData")) s = (r, s') →
  requests s' = requests s.
Proof.
  unfold mbind, Eff_bind. unfold bind at 1.
  destruct (stamped_run e (VStr "temp-id") s) as (s1 & -> & (_ & Hr1 & _) & _).
  unfold bind, with_rng, zoom, lift.
  destruct (encryptVaultEntry _ key salt (s_rng s1)) as [[x|err] g'].
  - intros [= _ <-]. exact Hr1.
  - intros [= _ <-]. exact Hr1.
Qed.

(** A [map] whose callback sends nothing returns one element per element
    and sends nothing. *)
Lemma mapE_frame {A B} (f : A → Eff session B) (l : list A) :
  (∀ x s r s', f x s = (r, s') → requests s' = requests s) →
  ∀ (s s' : session) (out : list B),
    mapE f l s = (Ok out, s') → length out = length l ∧ requests s' = requests s.
Proof.
  intros Hf. induction l as [|x l IH]; intros s s' out; cbn [mapE].
  { unfold ret. by intros [= <- <-]. }
  unfold bind at 1. destruct (f x s) as [[y|e] s1] eqn:Hx; [|discriminate].
  unfold bind at 1. destruct (mapE f l s1) as [[ys|e] s2] eqn:Hl; [|discriminate].
  unfold ret. intros [= <- <-].
  destruct (IH _ _ _ Hl) as [Hlen Hr]. apply Hf in Hx.
  split; [cbn; by rewrite Hlen | by rewrite Hr, Hx].
Qed.

(** Whenever [importVaultEntries] returns, it returns its argument, having
    sent one request with one element per entry. *)
Lemma importVaultEntries_shape
    (entries : list jsval) (key salt : bytes) (s s' : session) (out : list jsval) :
  importVaultEntries entries key salt s = (Ok out, s') →
  out = entries
  ∧ ∃ payload : list jsval,
      requests s' = requests s ++ [ImportVault (VArr payload)]
      ∧ length payload = length entries.
Proof.
  intros Hrun. unfold importVaultEntries, try_catchE in Hrun.
  unfold mbind at 1 in Hrun. unfold Eff_bind at 1 in Hrun. unfold bind at 1 in Hrun.
  match type of Hrun with
  | context [mapE ?callback entries s] =>
      destruct (mapE callback entries s) as [[payload|e] s1] eqn:Hmap; [|discriminate];
      apply mapE_frame in Hmap as [Hlen Hr];
        [|intros x t r t'; apply upload_callback_frame]
  end.
  unfold mbind, Eff_bind, bind at 1, call at 1 in Hrun.
  destruct (api_importVault (VArr payload) (w_net (s_world s1))) as [[response|e] n];
    [|discriminate].
  unfold bind, lift in Hrun.
  destruct (check_response response "Failed to import vault entries") as [[]|e];
    [|discriminate].
  unfold ret in Hrun. injection Hrun as <- <-. split; [reflexivity|].
  exists payload. cbn [requests]. by rewrite Hr.
Qed.

(** X8.  [importVaultEntries] uploads and returns its argument.  For a
    32-byte key, a 16-byte salt and entries whose temporary copies (each
    entry under the [id] "temp-id" and the two readings of the clock of
    its turn) are storable: whenever [importVaultEntries] returns, it
    returns the given entries unchanged, with the ids they came with; it
    has sent one request, whose array has one blob per entry, in the order
    of the entries; and each blob decrypts, under any wrapper, to its
    entry with the [id] and the time stamps of that wrapper. *)
Theorem importVaultEntries_uploads
    (entries : list jsval) (key salt : bytes) (s s' : session) (out : list jsval) :
  base64_roundtrip → randombytes_length → secretbox_roundtrip →
  length key = 32%nat → length salt = 16%nat →
  (∀ (j : nat) (e : jsval), entries !! j = Some e →
     storable (temp_entry e (VStr "temp-id") (advance (2 * j) (w_clock (s_world s))))) →
  importVaultEntries entries key salt s = (Ok out, s') →
  out = entries
  ∧ ∃ blobs : list string,
      requests s' = requests s ++ [ImportVault (VArr (map VStr blobs))]
      ∧ length blobs = length entries
      ∧ Forall2 (λ e blob, ∀ i' c' u' : jsval,
                   decryptVaultEntry (wrapper i' blob c' u') key
                   = Ok (with_stamps e i' c' u'))
                entries blobs.
Proof.
  intros Hb64 Hrand Hbox Hk Hs Hstor Hrun.
  destruct (upload_blobs key salt entries Hb64 Hrand Hbox Hk Hs s Hstor)
    as (blobs & s1 & Hmap & Hr & Hn & Hall).
  unfold importVaultEntries, try_catchE in Hrun.
  unfold mbind at 1 in Hrun. unfold Eff_bind at 1 in Hrun. unfold bind at 1 in Hrun.
  rewrite Hmap in Hrun.
  unfold mbind, Eff_bind, bind at 1, call at 1 in Hrun.
  destruct (api_importVault (VArr (map VStr blobs)) (w_net (s_world s1)))
    as [[response|e] n]; [|discriminate].
  unfold bind, lift in Hrun.
  destruct (check_response response "Failed to import vault entries") as [[]|e];
    [|discriminate].
  unfold ret in Hrun. injection Hrun as <- <-. split; [reflexivity|].
  exists blobs. cbn [requests]. rewrite Hr. split; [reflexivity|].
  split; [|exact Hall]. symmetry. by eapply Forall2_length.
Qed.

End WithLibraries.
End VaultOpsFacts.

(** ** The envelope and the lengths that the secret box checks *)

Module EnvelopeFacts.
Import Crypto Contract Vault VaultWording Lengths.
Import CryptoFacts VaultFacts.

Section WithSodium.
Context `{Sodium}.

(** X9.  The layout of the envelope is fixed by the two lengths.  For a
    ciphertext that is not empty, deserializing the serialized envelope
    returns the triple that was serialized exactly when the salt has 16
    bytes and the nonce has 24: with any other length the blob is still
    written, and read back as other slices. *)
Theorem envelope_roundtrip_iff (c n s : bytes) :
  base64_roundtrip → c ≠ [] →
  serializeEncryptedData c n s ≫= deserializeEncryptedData
  = Ok {| env_ciphertext := c; env_nonce := n; env_salt := s |}
  ↔ length s = 16%nat ∧ length n = 24%nat.
Proof.
  intros Hb64 Hc. rewrite serialize_bytes. cbn [mbind result_bind].
  rewrite (deserialize_decoded _ (s ++ n ++ c)) by apply Hb64.
  split.
  - intros [= Hdrop Htake24 Htake16].
    apply (f_equal length) in Hdrop, Htake16.
    rewrite length_drop, !length_app in Hdrop.
    rewrite length_take, !length_app in Htake16.
    assert (length c ≠ 0)%nat by (by destruct c).
    lia.
  - intros [Hs Hn]. f_equal. f_equal.
    + rewrite app_assoc. apply drop_app_length'. rewrite length_app. lia.
    + rewrite drop_app_length' by (symmetry; exact Hs).
      apply take_app_length'. symmetry. exact Hn.
    + apply take_app_length'. symmetry. exact Hs.
Qed.

End WithSodium.

Section WithLibraries.
Context `{Sodium} `{Runtime}.

(** X10.  A blob that is too short is refused when it is opened, not when
    it is deserialized.  For an entry whose blob decodes to fewer than the
    56 bytes of a salt, a nonce and a tag, [deserializeEncryptedData]
    returns slices, and [decryptVaultEntry] throws its error, under every
    key: the secret box opens nothing under a nonce that is not 24 bytes
    long or for a box without a tag. *)
Theorem short_blob_is_refused (e : jsval) (k : bytes) (blob : string) (b : bytes) :
  secretbox_open_lengths →
  prop_get e "encryptedData" = Ok (VStr blob) →
  from_base64 blob = Ok b → (length b < 56)%nat →
  (∃ env, deserializeEncryptedData blob = Ok env)
  ∧ decryptVaultEntry e k = Throw (Error "Failed to decrypt vault entry").
Proof.
  intros Hlen Hdata Hb Hshort.
  split; [rewrite (deserialize_decoded _ _ Hb); eauto|].
  destruct (decryptVaultEntry e k) as [v|err] eqn:Hrun.
  2:{ by rewrite (decryptVaultEntry_throws _ _ _ Hrun). }
  exfalso.
  apply decryptVaultEntry_ok_inv in Hrun
    as (blob' & json & env & entry & Hdata' & Hdes & Hdec & _).
  rewrite Hdata in Hdata'. injection Hdata' as <-.
  rewrite (deserialize_decoded _ _ Hb) in Hdes. injection Hdes as <-.
  cbn [env_ciphertext env_nonce] in Hdec.
  destruct (decryptData_cases (drop 40 b) (take 24 (drop 16 b)) k)
    as [(d & p & Hopen & _)|Hthrow]; [|congruence].
  apply Hlen in Hopen as (Hc & Hn & _).
  rewrite length_drop in Hc. lia.
Qed.

End WithLibraries.

End EnvelopeFacts.

(** ** The listing *)

Module ListingFacts.
Import Crypto Contract Vault VaultWording.
Import CryptoFacts VaultFacts.

Section WithLibraries.
Context `{Sodium} `{Runtime}.

(** X11.  [getVaultEntries] never throws.  It answers the empty list when
    the request fails and when the response carries an error, and then it
    has called [decryptVaultEntry] on nothing. *)
Theorem getVaultEntries_never_throws `{ApiService} (key : bytes) (w : world) :
  ∃ (l : list jsval) (w' : world),
    getVaultEntries key w = (Ok l, w')
    ∧ ((∃ e, (api_getVaultEntries (w_net w)).1 = Throw e)
       ∨ (∃ response, (api_getVaultEntries (w_net w)).1 = Ok response
                      ∧ truthy (field response "error") = true) →
       l = [] ∧ decrypt_calls w' = decrypt_calls w).
Proof.
  unfold getVaultEntries, try_catchM, mbind, M_bind.
  unfold Vault.bind at 1, fetch_entries.
  destruct (api_getVaultEntries (w_net w)) as [[response|e] n] eqn:Hapi; cbn [fst].
  2:{ unfold Vault.bind, console_error, Vault.ret. cbn.
      eexists _, _. split; [reflexivity|]. intros _. by split. }
  match goal with
  | |- ∃ l w', (let (_, _) := ?body in _) = _ ∧ _ => destruct body as [[l|e] w1] eqn:Hbody
  end.
  - exists l, w1. split; [reflexivity|].
    intros [[e [=]]|(r & [= <-] & Herr)].
    unfold Vault.bind, Vault.lift in Hbody.
    destruct (prop_get response "error") as [error|] eqn:Hget; [|discriminate].
    apply prop_get_ok_readable in Hget as [_ ->]. rewrite Herr in Hbody.
    unfold Vault.ret in Hbody. by injection Hbody as <- <-.
  - unfold Vault.bind, console_error, Vault.ret. cbn.
    eexists _, _. split; [reflexivity|].
    intros [[e' [=]]|(r & [= <-] & Herr)].
    unfold Vault.bind, Vault.lift in Hbody.
    destruct (prop_get response "error") as [error|] eqn:Hget.
    + apply prop_get_ok_readable in Hget as [_ ->]. rewrite Herr in Hbody.
      discriminate.
    + by destruct response.
Qed.

(** The callback of [getVaultEntries] throws on an element that is [null]
    or [undefined]: its handler reads the [id] again. *)
Lemma fetched_unreadable_throws `{ApiService} (key : bytes) (e : jsval) (w : world) :
  ¬ readable e → ∃ (err : exn) (w' : world), fetched_entry key e w = (Throw err, w').
Proof.
  intros Hread. unfold fetched_entry, try_catchM, mbind, M_bind, Vault.bind, Vault.lift.
  destruct e; try (exfalso; apply Hread; by split); cbn; eauto.
Qed.

Lemma mapM_fetched_unreadable `{ApiService} (key : bytes) (entries : list jsval) :
  Exists (λ e, ¬ readable e) entries →
  ∀ w : world, ∃ (err : exn) (w' : world),
    mapM (fetched_entry key) entries w = (Throw err, w').
Proof.
  induction entries as [|e entries IH]; intros Hex w.
  { by apply Exists_nil in Hex. }
  cbn [mapM]. unfold Vault.bind at 1.
  destruct (fetched_entry key e w) as [[v|err] w1] eqn:He; [|eauto].
  apply Exists_cons in Hex as [Hbad|Hex].
  { destruct (fetched_unreadable_throws key e w Hbad) as (err & w2 & Hthrow). congruence. }
  destruct (IH Hex w1) as (err & w2 & Hrest).
  unfold Vault.bind at 1. rewrite Hrest. eauto.
Qed.

(** X12.  One bad element empties the listing.  When the data of the
    response is an array with an element that is [null] or [undefined],
    [getVaultEntries] returns the empty list, whatever the other elements
    are: the entries that decrypt are lost with it. *)
Theorem listing_with_null_is_empty `{ApiService}
    (key : bytes) (w : world) (response : jsval) (n : net) (entries : list jsval) :
  api_getVaultEntries (w_net w) = (Ok response, n) →
  truthy (field response "error") = false →
  field response "data" = VArr entries →
  Exists (λ e, ¬ readable e) entries →
  ∃ w' : world, getVaultEntries key w = (Ok [], w').
Proof.
  intros Hapi Herr Hdata Hbad.
  assert (readable response) as Hread by (destruct response; try discriminate; by split).
  unfold getVaultEntries, try_catchM, mbind, M_bind.
  unfold Vault.bind at 1, fetch_entries. rewrite Hapi.
  unfold Vault.bind at 1, Vault.lift at 1. rewrite (prop_get_readable response) by done.
  rewrite Herr.
  unfold Vault.bind at 1, Vault.lift at 1. rewrite (prop_get_readable response) by done.
  rewrite Hdata. cbn [truthy negb array_map].
  match goal with
  | |- context [mapM (fetched_entry key) entries ?w1] =>
      destruct (mapM_fetched_unreadable key entries Hbad w1) as (err & w2 & ->)
  end.
  unfold Vault.bind, console_error, Vault.ret. eauto.
Qed.

End WithLibraries.

End ListingFacts.

(** ** The bias of the password generator *)

Module BiasFacts.
Import Crypto Bias.

Lemma map_seq_ext_lookup (f g : nat → nat) (n j : nat) :
  map f (seq 0 n) = map g (seq 0 n) → (j < n)%nat → f j = g j.
Proof.
  intros Heq Hj.
  assert (map f (seq 0 n) !! j = map g (seq 0 n) !! j) as Hl by (by rewrite Heq).
  rewrite !list_lookup_fmap, !lookup_seq_lt in Hl by done.
  by injection Hl.
Qed.

Lemma all_hits_expected (o : password_options) :
  all_hits (build_charset o) = expected_hits (String.length (build_charset o)).
Proof.
  unfold build_charset.
  destruct (flag (uppercase o)), (flag (lowercase o)), (flag (numbers o)),
    (flag (symbols o)); vm_compute; reflexivity.
Qed.

Lemma charset_length_bias (o : password_options) :
  (256 mod String.length (build_charset o) ≠ 0)%nat.
Proof.
  unfold build_charset.
  destruct (flag (uppercase o)), (flag (lowercase o)), (flag (numbers o)),
    (flag (symbols o)); vm_compute; lia.
Qed.

(** X13.  The characters of a generated password are not equally likely.
    For every setting of the flags, with [n] the size of the character
    set: of the 256 values of a random byte, the loop of
    [generatePassword] maps [256 / n + 1] to each of the first
    [256 mod n] characters of the set and [256 / n] to each of the
    others, and [256 mod n] is never 0. *)
Theorem generatePassword_bias (o : password_options) (j : nat) :
  let charset := build_charset o in
  let n := String.length charset in
  (j < n)%nat →
  hits charset j = (256 / n + (if (j <? 256 mod n)%nat then 1 else 0))%nat
  ∧ (0 < 256 mod n)%nat.
Proof.
  intros charset n Hj. split.
  - apply (map_seq_ext_lookup
             (hits charset)
             (λ j, (256 / n + (if (j <? 256 mod n)%nat then 1 else 0))%nat) n j);
      [|exact Hj].
    apply all_hits_expected.
  - pose proof (charset_length_bias o). fold charset n in H. lia.
Qed.

End BiasFacts.

(** ** The login handshake *)

Module AuthFacts.
Import Auth BytesFacts.

Lemma byte_xor_comm (a b : byte) : byte_xor a b = byte_xor b a.
Proof.
  unfold byte_xor.
  destruct (Byte.to_bits a) as (a0 & a1 & a2 & a3 & a4 & a5 & a6 & a7).
  destruct (Byte.to_bits b) as (b0 & b1 & b2 & b3 & b4 & b5 & b6 & b7).
  by rewrite (xorb_comm a0), (xorb_comm a1), (xorb_comm a2), (xorb_comm a3),
    (xorb_comm a4), (xorb_comm a5), (xorb_comm a6), (xorb_comm a7).
Qed.

(** A loop that writes [f i] at every index of its range. *)
Lemma fill_lookup (f : nat → byte) (l : list nat) (r : bytes) (j : nat) :
  (∀ i, i ∈ l → i < length r)%nat →
  foldl (λ acc i, <[i := f i]> acc) r l !! j
  = if bool_decide (j ∈ l) then Some (f j) else r !! j.
Proof.
  revert r. induction l as [|i l IH]; intros r Hl; cbn [foldl].
  { by rewrite bool_decide_eq_false_2 by apply not_elem_of_nil. }
  rewrite IH.
  2:{ intros k Hk. rewrite length_insert. apply Hl. by right. }
  destruct (decide (j ∈ l)) as [Hin|Hin].
  { rewrite !bool_decide_eq_true_2; [done | by right | done]. }
  rewrite (bool_decide_eq_false_2 (j ∈ l)) by done.
  destruct (decide (j = i)) as [->|Hne].
  - rewrite bool_decide_eq_true_2 by left.
    apply list_lookup_insert_eq. apply Hl. left.
  - rewrite bool_decide_eq_false_2.
    + by apply list_lookup_insert_ne.
    + intros [?|?]%elem_of_cons; done.
Qed.

Lemma length_fill (f : nat → byte) (l : list nat) (r : bytes) :
  length (foldl (λ acc i, <[i := f i]> acc) r l) = length r.
Proof.
  revert r. induction l as [|i l IH]; intros r; cbn [foldl]; [done|].
  by rewrite IH, length_insert.
Qed.

Lemma length_login_response (challengeData key : bytes) :
  length (login_response challengeData key) = length challengeData.
Proof.
  unfold login_response, response_step. rewrite length_fill.
  apply length_replicate.
Qed.

(** Every byte of the response is the byte of the challenge, XORed with
    the byte of the key at the index reduced modulo the length of the
    key. *)
Lemma login_response_lookup (challengeData key : bytes) (i : nat) (c : byte) :
  challengeData !! i = Some c →
  login_response challengeData key !! i
  = Some (byte_xor c (default x00 (key !! (i `mod` length key)%nat))).
Proof.
  intros Hc. unfold login_response, response_step.
  pose proof (lookup_lt_Some _ _ _ Hc) as Hi.
  rewrite (fill_lookup
             (λ i, byte_xor (default x00 (challengeData !! i))
                            (default x00 (key !! (i `mod` length key)%nat)))).
  - rewrite bool_decide_eq_true_2 by (apply elem_of_seq; lia). by rewrite Hc.
  - intros k Hk%elem_of_seq. unfold Uint8Array.new. rewrite length_replicate. lia.
Qed.

(** X14.  The response of the login handshake gives the key away.  The
    response is as long as the challenge; and for a key that is not
    longer than the challenge, XORing the response with the challenge,
    both of which travel to and from the server, gives back every byte of
    the key. *)
Theorem login_response_reveals_key (challengeData key : bytes) :
  (length key ≤ length challengeData)%nat →
  length (login_response challengeData key) = length challengeData
  ∧ take (length key)
         (zip_with byte_xor (login_response challengeData key) challengeData)
    = key.
Proof.
  intros Hlen. split; [apply length_login_response|].
  apply list_eq. intros i.
  destruct (decide (i < length key)%nat) as [Hi|Hi].
  2:{ rewrite lookup_take_ge by lia. symmetry. apply lookup_ge_None. lia. }
  rewrite lookup_take_lt by done.
  destruct (lookup_lt_is_Some_2 key i Hi) as [k Hk].
  destruct (lookup_lt_is_Some_2 challengeData i) as [c Hc]; [lia|].
  rewrite lookup_zip_with, (login_response_lookup _ _ _ _ Hc), Hc.
  rewrite Nat.mod_small by done. rewrite Hk. cbn.
  by rewrite (byte_xor_comm c k), byte_xor_cancel.
Qed.

End AuthFacts.

(** ** The vault service object *)

Module VaultServiceClassFacts.
Import Crypto Contract Vault VaultWording Effect VaultOps VaultOpsWording.
Import VaultServiceClass.
Import CryptoFacts VaultFacts VaultOpsFacts.

Section WithLibraries.
Context `{Sodium} `{Argon2} `{Runtime} `{ApiService} `{!VaultApi} `{JsText}.

(** X15.  A locked vault does nothing.  While there is no master key
    (before [setMasterPassword] and after [clearMasterPassword]),
    [isUnlocked] answers [false], and [updateVaultEntry],
    [encryptVaultEntry] and [decryptVaultEntry] throw "Vault is locked.
    Please enter your master password." and leave the state as it is: no
    request is sent and no randomness is drawn. *)
Theorem locked_vault_refuses
    (st : state) (id : string) (entry : jsval) (encryptedData : string) :
  masterKey (this st) = None →
  isUnlocked st = (Ok false, st)
  ∧ updateVaultEntry id entry st = (Throw locked, st)
  ∧ encryptVaultEntry entry st = (Throw locked, st)
  ∧ decryptVaultEntry encryptedData st = (Throw locked, st).
Proof.
  intros Hkey.
  unfold updateVaultEntry, encryptVaultEntry, decryptVaultEntry, isUnlocked.
  unfold mbind, Eff_bind, bind, get_this, ret, throw. rewrite Hkey.
  repeat split; reflexivity.
Qed.

(** [clearMasterPassword] forgets the key and the password and touches
    nothing else. *)
Lemma clearMasterPassword_run (st : state) :
  clearMasterPassword st
  = (Ok tt, {| this := {| masterKey := None; masterPassword := None |};
               session := session st |}).
Proof. reflexivity. Qed.

(** X16.  With a 32-byte master key the object decrypts what it encrypts,
    for a storable entry: [encryptVaultEntry] returns a blob whose salt is
    16 zero bytes, and [decryptVaultEntry] on that blob returns the entry;
    neither changes the key, and neither sends a request. *)
Theorem unlocked_encrypt_decrypt (st : state) (k : bytes) (entry : jsval) :
  base64_roundtrip → randombytes_length → secretbox_roundtrip →
  masterKey (this st) = Some k → length k = 32%nat →
  storable entry →
  ∃ (blob : string) (n c : bytes) (st' : state),
    encryptVaultEntry entry st = (Ok blob, st')
    ∧ this st' = this st
    ∧ requests (session st') = requests (session st)
    ∧ from_base64 blob = Ok (replicate 16 x00 ++ n ++ c)
    ∧ decryptVaultEntry blob st' = (Ok entry, st').
Proof.
  intros Hb64 Hrand Hbox Hkey Hk [Htext Hparse].
  destruct (encryptData_opens _ k (s_rng (session st)) Hrand Hbox Htext Hk)
    as (c & n & g' & Henc & Hn & Hdec).
  exists (to_base64 (replicate 16 x00 ++ n ++ c)), n, c. eexists.
  unfold encryptVaultEntry, decryptVaultEntry.
  unfold mbind, Eff_bind, bind, get_this, in_session, with_rng, zoom, lift.
  rewrite Hkey, Henc. cbn [ciphertext nonce this session s_rng].
  rewrite serialize_bytes. unfold Uint8Array.new.
  split; [reflexivity|]. cbn [this session requests].
  split; [reflexivity|]. split; [reflexivity|]. split; [apply Hb64|].
  rewrite Hkey. rewrite deserialize_blob by (done || apply length_replicate).
  cbn [env_ciphertext env_nonce]. rewrite Hdec, Hparse. reflexivity.
Qed.

(** X17.  [setMasterPassword] records the password before it derives the
    key.  When the derivation returns, the key is the 32-byte hash of the
    password under a salt of 16 bytes drawn for this call, and the salt
    is kept nowhere.  When the derivation throws, the password is
    recorded all the same and the key is the one from before, so that a
    vault that was unlocked stays unlocked under the old key. *)
Theorem setMasterPassword_outcome (password : string) (st : state) :
  randombytes_length → argon2_output_length →
  ∃ (salt : bytes) (g' : rng) (st' : state),
    randombytes_buf 16 (s_rng (session st)) = (Ok salt, g')
    ∧ length salt = 16%nat
    ∧ s_rng (session st') = g'
    ∧ masterPassword (this st') = Some password
    ∧ match argon2_hash {| pass := password; salt := salt; type := Argon2id;
                           time := 3; mem := 65536; hashLen := 32 |} with
      | Ok hash =>
          setMasterPassword password st = (Ok tt, st')
          ∧ masterKey (this st') = Some hash ∧ length hash = 32%nat
      | Throw e =>
          setMasterPassword password st = (Throw e, st')
          ∧ masterKey (this st') = masterKey (this st)
      end.
Proof.
  intros Hrand Hlen.
  destruct (Hrand 16 (s_rng (session st))) as (salt & Hdraw & Hsalt); [lia|].
  destruct (randombytes_buf 16 (s_rng (session st))) as [drawn g'] eqn:Hd.
  cbn [fst] in Hdraw. subst drawn.
  exists salt, g'.
  unfold setMasterPassword, mbind, Eff_bind, bind, set_this, in_session, with_rng, zoom.
  unfold deriveKeyFromPassword. cbn [session this s_rng].
  change (Z.of_nat SALT_BYTES) with 16. rewrite Hd. cbn [mbind result_bind].
  change (Z.of_nat KEY_BYTES) with 32.
  destruct (argon2_hash _) as [hash|e] eqn:Hhash; cbn [mbind result_bind].
  - exists {| this := {| masterKey := Some hash; masterPassword := Some password |};
              session := {| s_rng := g'; s_world := s_world (session st);
                            requests := requests (session st) |} |}.
    split; [reflexivity|]. split; [exact Hsalt|]. cbn.
    split; [reflexivity|]. split; [reflexivity|]. split; [reflexivity|].
    split; [reflexivity|]. by apply Hlen in Hhash.
  - exists {| this := {| masterKey := masterKey (this st);
                         masterPassword := Some password |};
              session := {| s_rng := g'; s_world := s_world (session st);
                            requests := requests (session st) |} |}.
    split; [reflexivity|]. split; [exact Hsalt|]. cbn.
    repeat split; reflexivity.
Qed.

End WithLibraries.

End VaultServiceClassFacts.

(** ** The vault store *)

Module StoreFacts.
Import Crypto Contract Vault VaultWording Effect VaultOps VaultOpsWording Store.
Import CryptoFacts VaultFacts VaultOpsFacts.

(** Removing by [id] from a list of readable entries keeps the entries
    with another [id]. *)
Lemma remove_by_id_readable (id : string) (l : list jsval) :
  Forall readable l →
  remove_by_id id l = Ok (filter (λ e, strict_neq_str (field e "id") id) l).
Proof.
  induction 1 as [|e l He _ IH]; [done|].
  cbn [remove_by_id]. rewrite (prop_get_readable e) by done. rewrite IH.
  cbn [mbind result_bind]. rewrite filter_cons.
  destruct (strict_neq_str (field e "id") id); by cbn.
Qed.

Section WithLibraries.
Context `{Sodium} `{Runtime} `{ApiService} `{!VaultApi} `{JsText}.

Lemma getVaultEntries_returns (key : bytes) (w : world) :
  ∃ (l : list jsval) (w' : world), getVaultEntries key w = (Ok l, w').
Proof.
  unfold getVaultEntries, try_catchM.
  match goal with
  | |- ∃ l w', (let (_, _) := ?body in _) = _ => destruct body as [[l|e] w1]
  end; [by eexists _, _|].
  unfold mbind, M_bind, Vault.bind, console_error, Vault.ret. by eexists _, _.
Qed.

(** X18.  [fetchEntries] cannot fail.  It never throws and never sets
    [error]: it ends with [isLoading] off, [error] cleared and the entries
    replaced by what [getVaultEntries] returned, the filters untouched.
    So when the request fails or the server answers with an error, the
    store shows an empty vault and no error. *)
Theorem fetchEntries_never_fails (key : bytes) (a : app) :
  ∃ (l : list jsval) (a' : app),
    fetchEntries key a = (Ok tt, a')
    ∧ (getVaultEntries key (s_world (service a))).1 = Ok l
    ∧ store a' = set_isLoading false (set_error None (set_entries l (store a)))
    ∧ ((∃ e, (api_getVaultEntries (w_net (s_world (service a)))).1 = Throw e)
       ∨ (∃ response,
            (api_getVaultEntries (w_net (s_world (service a)))).1 = Ok response
            ∧ truthy (field response "error") = true) →
       entries (store a') = [] ∧ error (store a') = None).
Proof.
  destruct (getVaultEntries_returns key (s_world (service a))) as (l & w' & Hrun).
  exists l. eexists.
  unfold fetchEntries, try_catchE, mbind, Eff_bind, bind, set, in_service, in_world, zoom.
  cbn [service store]. rewrite Hrun. cbn [fst].
  split; [reflexivity|]. split; [reflexivity|]. cbn [store].
  split; [reflexivity|]. intros Hfail. cbn [entries error set_isLoading set_entries set_error].
  split; [|reflexivity].
  unfold getVaultEntries, try_catchM, mbind, M_bind in Hrun.
  unfold Vault.bind at 1, fetch_entries in Hrun.
  destruct (api_getVaultEntries (w_net (s_world (service a)))) as [[response|e] n];
    cbn [fst] in Hfail.
  2:{ unfold Vault.bind, console_error, Vault.ret in Hrun. cbn in Hrun.
      by injection Hrun as <- _. }
  destruct Hfail as [[e [=]]|(r & [= <-] & Herr)].
  unfold Vault.bind, Vault.lift in Hrun.
  destruct (prop_get response "error") as [error|] eqn:Hget.
  - apply prop_get_ok_readable in Hget as [_ ->]. rewrite Herr in Hrun.
    unfold Vault.ret in Hrun. by injection Hrun as <- _.
  - by destruct response.
Qed.

(** X19.  [deleteEntry] on a store of readable entries never throws.  It
    ends with [isLoading] off and [error] cleared; when
    [deleteVaultEntry] answered [true] the entries with the given [id]
    are gone from the store and the others are kept in their order, and
    when it answered [false] the entries are as before. *)
Theorem deleteEntry_outcome (id : string) (a : app) :
  Forall readable (entries (store a)) →
  ∃ (b : bool) (a' : app),
    deleteEntry id a = (Ok b, a')
    ∧ (deleteVaultEntry id (service a)).1 = Ok b
    ∧ isLoading (store a') = false
    ∧ error (store a') = None
    ∧ entries (store a')
      = if b then filter (λ e, strict_neq_str (field e "id") id) (entries (store a))
        else entries (store a).
Proof.
  intros Hread.
  destruct (deleteVaultEntry_returns id (service a)) as (b & s' & Hrun).
  exists b.
  unfold deleteEntry, try_catchE, mbind, Eff_bind, bind, set, in_service, zoom, getState,
    lift, ret.
  cbn [service store]. rewrite Hrun. cbn [fst].
  destruct b.
  - cbn [store set_error set_isLoading entries].
    rewrite (remove_by_id_readable id _ Hread).
    eexists. split; [reflexivity|]. by repeat split.
  - eexists. split; [reflexivity|]. by repeat split.
Qed.

(** X20.  The store uploads whatever the import returned.  Whenever
    [importVault] of the store returns, the entries it returns are those
    that [importVault] of the service returned for the archive, the
    decrypted entries and the placeholders of the entries that did not
    decrypt alike; they have been appended to the entries of the store;
    and one request has uploaded one element for each of them. *)
Theorem store_import_uploads_all
    (jsonData : string) (key salt : bytes) (a a' : app) (saved : list jsval) :
  Store.importVault jsonData key salt a = (Ok saved, a') →
  (Vault.importVault jsonData key (s_world (service a))).1 = Ok saved
  ∧ entries (store a') = entries (store a) ++ saved
  ∧ isLoading (store a') = false
  ∧ error (store a') = None
  ∧ ∃ payload : list jsval,
      requests (service a')
      = requests (service a) ++ [ImportVault (VArr payload)]
      ∧ length payload = length saved.
Proof.
  intros Hrun.
  unfold Store.importVault, try_catchE, mbind, Eff_bind in Hrun.
  unfold bind at 1, set at 1 in Hrun.
  unfold bind at 1, in_service at 1, in_world, zoom in Hrun. cbn [service store] in Hrun.
  destruct (Vault.importVault jsonData key (s_world (service a)))
    as [[imported|e] w'] eqn:Himport; [|discriminate].
  unfold bind at 1, in_service at 1, zoom in Hrun. cbn [service store] in Hrun.
  match type of Hrun with
  | context [importVaultEntries imported key salt ?s1] =>
      destruct (importVaultEntries imported key salt s1) as [[out|e] s2] eqn:Hup;
        [|discriminate];
      apply importVaultEntries_shape in Hup as (-> & payload & Hreq & Hlen)
  end.
  unfold bind, set, ret in Hrun. cbn [store service] in Hrun.
  injection Hrun as <- <-. cbn [fst store service entries isLoading error
    set_isLoading set_entries set_error].
  split; [reflexivity|]. split; [reflexivity|]. split; [reflexivity|].
  split; [reflexivity|]. exists payload. split; [exact Hreq|exact Hlen].
Qed.

(** X21.  Importing one's own export doubles the store.  For a store of
    vault entries that can be stored, a 32-byte key and a 16-byte salt,
    [exportVault] of the store returns the text of an archive and leaves
    the store as it is; and whenever [JSON.parse] reads the archive back
    and [importVault] of the store returns for that text, it returns the
    entries the store already has, and the store then holds every one of
    them twice. *)
Theorem reimport_doubles_the_store (key salt : bytes) (a : app) :
  base64_roundtrip → randombytes_length → secretbox_roundtrip →
  length key = 32%nat → length salt = 16%nat →
  Forall (λ e, vault_entry e ∧ storable e) (entries (store a)) →
  ∃ (timestamp : string) (wrappers : list jsval) (a1 : app),
    let json := JSON_stringify (archive_object timestamp wrappers) (Some 2) in
    Store.exportVault key salt a = (Ok json, a1)
    ∧ store a1 = store a
    ∧ (JSON_parse json = Ok (archive_object timestamp wrappers) →
       ∀ (saved : list jsval) (a2 : app),
         Store.importVault json key salt a1 = (Ok saved, a2) →
         saved = entries (store a)
         ∧ entries (store a2) = entries (store a) ++ entries (store a)).
Proof.
  intros Hb64 Hrand Hbox Hk Hs Hall.
  destruct (export_archive (entries (store a)) key salt (service a)
              Hb64 Hrand Hbox Hk Hs Hall)
    as (timestamp & wrappers & s' & Hexport & _ & Hdec).
  exists timestamp, wrappers, {| store := store a; service := s' |}. cbv zeta.
  split.
  { unfold Store.exportVault, mbind, Eff_bind, bind, getState, in_service, zoom.
    by rewrite Hexport. }
  split; [reflexivity|].
  intros Hparse saved a2 Hrun.
  unfold Store.importVault, try_catchE, mbind, Eff_bind in Hrun.
  unfold bind at 1, set at 1 in Hrun.
  unfold bind at 1, in_service at 1, in_world, zoom in Hrun. cbn [service store] in Hrun.
  destruct (import_archive _ timestamp key (entries (store a)) wrappers (s_world s')
              Hparse Hdec) as (w' & Himport & _).
  rewrite Himport in Hrun.
  unfold bind at 1, in_service at 1, zoom in Hrun. cbn [service store] in Hrun.
  match type of Hrun with
  | context [importVaultEntries ?l key salt ?s1] =>
      destruct (importVaultEntries l key salt s1) as [[out|e] s2] eqn:Hup;
        [|discriminate];
      apply importVaultEntries_shape in Hup as (-> & _)
  end.
  unfold bind, set, ret in Hrun. cbn [store service] in Hrun.
  injection Hrun as <- <-. by split.
Qed.

End WithLibraries.

End StoreFacts.

(** ** The reference secret box checks its lengths *)

Module RefLengths.
Import Ref.

Lemma ref_secretbox_open_lengths : Lengths.secretbox_open_lengths.
Proof.
  intros c n k m. cbn. unfold crypto_secretbox_open_easy.
  destruct (length n =? 24)%nat eqn:Hn; cbn [negb]; [|discriminate].
  destruct (length k =? 32)%nat eqn:Hk; cbn [negb]; [|discriminate].
  destruct (length c <? 16)%nat eqn:Hc; [discriminate|].
  intros _. apply Nat.eqb_eq in Hn, Hk. apply Nat.ltb_ge in Hc. done.
Qed.

End RefLengths.

(** ** Runs of the storing operations with the reference libraries *)

Module RunsOps.
Import Crypto Contract Vault VaultWording Effect VaultOps VaultOpsWording.
Import Ref RefText Sample SampleOps SampleRuns.

(** An export is read back by an import. *)
Example run_export_import :
  ∃ json : string,
    (exportVault [netflix; github] the_key the_salt (session_with [])).1 = Ok json
    ∧ (importVault json the_key start).1 = Ok [netflix; github].
Proof. eexists. split; [vm_compute; reflexivity|]. vm_compute. reflexivity. Qed.

(** The server's refusal is what [createVaultEntry] throws. *)
Example run_create_refused :
  (createVaultEntry new_entry the_key the_salt (session_with [refused_response])).1
  = Throw (Error "Unauthorized").
Proof. vm_compute. reflexivity. Qed.

(** The entry created carries the [id] of the server. *)
Example run_create :
  field created_entry "id" = VStr "srv-1"
  ∧ field created_entry "name" = VStr "Example".
Proof. split; vm_compute; reflexivity. Qed.

(** The import of the archive with a damaged entry uploads three blobs. *)
Example run_store_import :
  Store.entries (Store.store app_after_import) = imported_entries
  ∧ length imported_entries = 3%nat
  ∧ field (default VNull (imported_entries !! 1%nat)) "name" = VStr "🔒 Encrypted Import Entry".
Proof. repeat split; vm_compute; reflexivity. Qed.

(** A store that imports its own export holds every entry twice. *)
Example run_reimport :
  ∃ json : string,
    (Store.exportVault the_key the_salt stocked_app).1 = Ok json
    ∧ Store.entries
        (Store.store
           (Store.importVault json the_key the_salt
              (Store.exportVault the_key the_salt stocked_app).2).2)
      = [netflix; github; netflix; netflix; github; netflix].
Proof. eexists. split; [vm_compute; reflexivity|]. vm_compute. reflexivity. Qed.

End RunsOps.

(** ** Instances of the theorems above on concrete inputs *)

Module WitnessesOps.
Import Crypto Contract Vault VaultWording Effect VaultOps VaultOpsWording.
Import Ref RefText Sample SampleOps SampleRuns.

(** A run is its result and its final state. *)
Lemma returned_as {A Σ} (r : result A * Σ) (a : A) : r.1 = Ok a → r = (Ok a, r.2).
Proof. destruct r as [x s]. cbn. by intros ->. Qed.

Lemma thrown_as {A Σ} (r : result A * Σ) (e : exn) : r.1 = Throw e → r = (Throw e, r.2).
Proof. destruct r as [x s]. cbn. by intros ->. Qed.

Lemma netflix_entry : vault_entry netflix.
Proof. eexists. split; [reflexivity|]. repeat split; eexists; vm_compute; reflexivity. Qed.

Lemma github_entry : vault_entry github.
Proof. eexists. split; [reflexivity|]. repeat split; eexists; vm_compute; reflexivity. Qed.

Lemma netflix_storable : storable netflix.
Proof. split; vm_compute; reflexivity. Qed.

Lemma github_storable : storable github.
Proof. split; vm_compute; reflexivity. Qed.

Lemma encrypt_decrypt_entry_witness :
  base64_roundtrip ∧ randombytes_length ∧ secretbox_roundtrip
  ∧ length the_key = 32%nat ∧ length the_salt = 16%nat
  ∧ vault_entry netflix ∧ storable netflix
  ∧ ∃ (blob : string) (g' : rng),
      encryptVaultEntry netflix the_key the_salt seed
      = (Ok (wrapper (field netflix "id") blob (field netflix "createdAt")
                     (field netflix "updatedAt")), g')
      ∧ decryptVaultEntry
          (wrapper (field netflix "id") blob (field netflix "createdAt")
                   (field netflix "updatedAt")) the_key
        = Ok netflix.
Proof.
  split; [exact RefFacts.ref_base64_roundtrip|].
  split; [exact RefFacts.ref_randombytes_length|].
  split; [exact RefFacts.ref_secretbox_roundtrip|].
  split; [reflexivity|]. split; [reflexivity|].
  split; [exact netflix_entry|]. split; [exact netflix_storable|].
  exact (VaultOpsFacts.encrypt_decrypt_entry netflix the_key the_salt seed
           RefFacts.ref_base64_roundtrip RefFacts.ref_randombytes_length
           RefFacts.ref_secretbox_roundtrip eq_refl eq_refl
           netflix_entry netflix_storable).
Defined.

Lemma sample_entries_storable :
  Forall (λ e, vault_entry e ∧ storable e) [netflix; github].
Proof.
  constructor; [split; [exact netflix_entry | exact netflix_storable]|].
  constructor; [split; [exact github_entry | exact github_storable]|].
  constructor.
Qed.

Lemma export_import_roundtrip_witness :
  base64_roundtrip ∧ randombytes_length ∧ secretbox_roundtrip
  ∧ length the_key = 32%nat ∧ length the_salt = 16%nat
  ∧ Forall (λ e, vault_entry e ∧ storable e) [netflix; github]
  ∧ ∃ (timestamp : string) (wrappers : list jsval) (s' : session),
      let json := JSON_stringify (archive_object timestamp wrappers) (Some 2) in
      exportVault [netflix; github] the_key the_salt (session_with []) = (Ok json, s')
      ∧ requests s' = requests (session_with [])
      ∧ length wrappers = length [netflix; github]
      ∧ (JSON_parse json = Ok (archive_object timestamp wrappers) →
         ∀ w : world,
         ∃ w' : world,
           importVault json the_key w = (Ok [netflix; github], w')
           ∧ console w' = console w).
Proof.
  split; [exact RefFacts.ref_base64_roundtrip|].
  split; [exact RefFacts.ref_randombytes_length|].
  split; [exact RefFacts.ref_secretbox_roundtrip|].
  split; [reflexivity|]. split; [reflexivity|].
  split; [exact sample_entries_storable|].
  exact (VaultOpsFacts.export_import_roundtrip [netflix; github] the_key the_salt
           (session_with [])
           RefFacts.ref_base64_roundtrip RefFacts.ref_randombytes_length
           RefFacts.ref_secretbox_roundtrip eq_refl eq_refl sample_entries_storable).
Defined.

Lemma new_entry_storable :
  storable (temp_entry new_entry (VStr "temp-id")
              (w_clock (s_world (session_with [created_response])))).
Proof. split; vm_compute; reflexivity. Qed.

Lemma createVaultEntry_stored_witness :
  base64_roundtrip ∧ randombytes_length ∧ secretbox_roundtrip
  ∧ length the_key = 32%nat ∧ length the_salt = 16%nat
  ∧ storable (temp_entry new_entry (VStr "temp-id")
                (w_clock (s_world (session_with [created_response]))))
  ∧ createVaultEntry new_entry the_key the_salt (session_with [created_response])
    = (Ok created_entry, after_create)
  ∧ ∃ (blob lastModified : string) (response : jsval) (n : net),
      let data := sent_data (VStr blob) new_entry lastModified in
      let d := field response "data" in
      requests after_create
      = requests (session_with [created_response]) ++ [CreateVaultEntry data]
      ∧ api_createVaultEntry data (w_net (s_world (session_with [created_response])))
        = (Ok response, n)
      ∧ created_entry
        = with_stamps new_entry (field d "id") (field d "createdAt") (field d "updatedAt")
      ∧ decryptVaultEntry
          (wrapper (field d "id") blob (field d "createdAt") (field d "updatedAt"))
          the_key
        = Ok created_entry.
Proof.
  assert (createVaultEntry new_entry the_key the_salt (session_with [created_response])
          = (Ok created_entry, after_create)) as Hrun
    by (unfold after_create; apply returned_as; vm_compute; reflexivity).
  split; [exact RefFacts.ref_base64_roundtrip|].
  split; [exact RefFacts.ref_randombytes_length|].
  split; [exact RefFacts.ref_secretbox_roundtrip|].
  split; [reflexivity|]. split; [reflexivity|].
  split; [exact new_entry_storable|]. split; [exact Hrun|].
  exact (VaultOpsFacts.createVaultEntry_stored new_entry the_key the_salt
           (session_with [created_response]) after_create created_entry
           RefFacts.ref_base64_roundtrip RefFacts.ref_randombytes_length
           RefFacts.ref_secretbox_roundtrip eq_refl eq_refl new_entry_storable Hrun).
Defined.

Lemma new_entry_readable : readable new_entry.
Proof. by split. Qed.

Lemma createVaultEntry_failure_witness :
  randombytes_length ∧ secretbox_roundtrip
  ∧ length the_key = 32%nat
  ∧ readable new_entry
  ∧ createVaultEntry new_entry the_key the_salt (session_with [refused_response])
    = (Throw (Error "Unauthorized"), after_refusal)
  ∧ ∃ data : jsval,
      requests after_refusal
      = requests (session_with [refused_response]) ++ [CreateVaultEntry data]
      ∧ match (api_createVaultEntry data
                 (w_net (s_world (session_with [refused_response])))).1 with
        | Throw e' => Error "Unauthorized" = e'
        | Ok response =>
            refusal "Failed to create vault entry" response (Error "Unauthorized")
        end.
Proof.
  assert (createVaultEntry new_entry the_key the_salt (session_with [refused_response])
          = (Throw (Error "Unauthorized"), after_refusal)) as Hrun
    by (unfold after_refusal; apply thrown_as; vm_compute; reflexivity).
  split; [exact RefFacts.ref_randombytes_length|].
  split; [exact RefFacts.ref_secretbox_roundtrip|].
  split; [reflexivity|].
  split; [exact new_entry_readable|]. split; [exact Hrun|].
  exact (VaultOpsFacts.createVaultEntry_failure new_entry the_key the_salt
           (session_with [refused_response]) after_refusal (Error "Unauthorized")
           RefFacts.ref_randombytes_length
           RefFacts.ref_secretbox_roundtrip eq_refl new_entry_readable Hrun).
Defined.

Lemma netflix_update_storable :
  storable (temp_entry netflix (VStr "e7")
              (w_clock (s_world (session_with [created_response])))).
Proof. split; vm_compute; reflexivity. Qed.

Lemma updateVaultEntry_result_witness :
  base64_roundtrip ∧ randombytes_length ∧ secretbox_roundtrip
  ∧ length the_key = 32%nat ∧ length the_salt = 16%nat
  ∧ storable (temp_entry netflix (VStr "e7")
                (w_clock (s_world (session_with [created_response]))))
  ∧ updateVaultEntry "e7" netflix the_key the_salt (session_with [created_response])
    = (Ok updated_entry, after_update)
  ∧ (let c := w_clock (s_world (session_with [created_response])) in
     updated_entry
     = with_stamps netflix (VStr "e7") (VStr (reading 3 c)) (VStr (reading 4 c))
     ∧ ∃ blob : string,
         requests after_update
         = requests (session_with [created_response])
           ++ [UpdateVaultEntry "e7" (sent_data (VStr blob) netflix (reading 2 c))]
         ∧ ∀ i' c' u' : jsval,
             decryptVaultEntry (wrapper i' blob c' u') the_key
             = Ok (with_stamps netflix i' c' u')).
Proof.
  assert (updateVaultEntry "e7" netflix the_key the_salt (session_with [created_response])
          = (Ok updated_entry, after_update)) as Hrun
    by (unfold after_update; apply returned_as; vm_compute; reflexivity).
  split; [exact RefFacts.ref_base64_roundtrip|].
  split; [exact RefFacts.ref_randombytes_length|].
  split; [exact RefFacts.ref_secretbox_roundtrip|].
  split; [reflexivity|]. split; [reflexivity|].
  split; [exact netflix_update_storable|]. split; [exact Hrun|].
  exact (VaultOpsFacts.updateVaultEntry_result "e7" netflix the_key the_salt
           (session_with [created_response]) after_update updated_entry
           RefFacts.ref_base64_roundtrip RefFacts.ref_randombytes_length
           RefFacts.ref_secretbox_roundtrip eq_refl eq_refl netflix_update_storable Hrun).
Defined.

Lemma upload_storable (j : nat) (e : jsval) :
  [netflix; github] !! j = Some e →
  storable (temp_entry e (VStr "temp-id")
              (advance (2 * j) (w_clock (s_world (session_with [created_response]))))).
Proof.
  destruct j as [|[|j]]; cbn [lookup list_lookup]; intros [= <-];
    split; vm_compute; reflexivity.
Qed.

Lemma importVaultEntries_uploads_witness :
  base64_roundtrip ∧ randombytes_length ∧ secretbox_roundtrip
  ∧ length the_key = 32%nat ∧ length the_salt = 16%nat
  ∧ (∀ (j : nat) (e : jsval), [netflix; github] !! j = Some e →
       storable (temp_entry e (VStr "temp-id")
                   (advance (2 * j)
                      (w_clock (s_world (session_with [created_response]))))))
  ∧ importVaultEntries [netflix; github] the_key the_salt
      (session_with [created_response])
    = (Ok [netflix; github], after_upload)
  ∧ [netflix; github] = [netflix; github]
  ∧ ∃ blobs : list string,
      requests after_upload
      = requests (session_with [created_response])
        ++ [ImportVault (VArr (map VStr blobs))]
      ∧ length blobs = length [netflix; github]
      ∧ Forall2 (λ e blob, ∀ i' c' u' : jsval,
                   decryptVaultEntry (wrapper i' blob c' u') the_key
                   = Ok (with_stamps e i' c' u'))
                [netflix; github] blobs.
Proof.
  assert (importVaultEntries [netflix; github] the_key the_salt
            (session_with [created_response])
          = (Ok [netflix; github], after_upload)) as Hrun
    by (unfold after_upload; apply returned_as; vm_compute; reflexivity).
  split; [exact RefFacts.ref_base64_roundtrip|].
  split; [exact RefFacts.ref_randombytes_length|].
  split; [exact RefFacts.ref_secretbox_roundtrip|].
  split; [reflexivity|]. split; [reflexivity|].
  split; [exact upload_storable|]. split; [exact Hrun|].
  exact (VaultOpsFacts.importVaultEntries_uploads [netflix; github] the_key the_salt
           (session_with [created_response]) after_upload [netflix; github]
           RefFacts.ref_base64_roundtrip RefFacts.ref_randombytes_length
           RefFacts.ref_secretbox_roundtrip eq_refl eq_refl upload_storable Hrun).
Defined.

Lemma gmail_box_nonempty : gmail_box ≠ [].
Proof. unfold gmail_box. discriminate. Qed.

Lemma envelope_roundtrip_iff_witness :
  base64_roundtrip ∧ gmail_box ≠ []
  ∧ (serializeEncryptedData gmail_box the_nonce the_salt ≫= deserializeEncryptedData
     = Ok {| env_ciphertext := gmail_box; env_nonce := the_nonce; env_salt := the_salt |}
     ↔ length the_salt = 16%nat ∧ length the_nonce = 24%nat).
Proof.
  split; [exact RefFacts.ref_base64_roundtrip|].
  split; [exact gmail_box_nonempty|].
  exact (EnvelopeFacts.envelope_roundtrip_iff gmail_box the_nonce the_salt
           RefFacts.ref_base64_roundtrip gmail_box_nonempty).
Defined.

Lemma short_blob_is_refused_witness :
  Lengths.secretbox_open_lengths
  ∧ prop_get damaged_entry "encryptedData" = Ok (VStr "AAAA")
  ∧ from_base64 "AAAA" = Ok [x00; x00; x00]
  ∧ (length [x00; x00; x00] < 56)%nat
  ∧ (∃ env, deserializeEncryptedData "AAAA" = Ok env)
  ∧ decryptVaultEntry damaged_entry the_key
    = Throw (Error "Failed to decrypt vault entry").
Proof.
  assert (prop_get damaged_entry "encryptedData" = Ok (VStr "AAAA")) as Hdata
    by (vm_compute; reflexivity).
  assert (from_base64 "AAAA" = Ok [x00; x00; x00]) as Hb by reflexivity.
  assert (length [x00; x00; x00] < 56)%nat as Hlen by (simpl; lia).
  split; [exact RefLengths.ref_secretbox_open_lengths|].
  split; [exact Hdata|]. split; [exact Hb|]. split; [exact Hlen|].
  exact (EnvelopeFacts.short_blob_is_refused damaged_entry the_key "AAAA" [x00; x00; x00]
           RefLengths.ref_secretbox_open_lengths Hdata Hb Hlen).
Defined.

Lemma null_among_entries : Exists (λ e, ¬ readable e) [good_entry; VNull; good_entry].
Proof. apply Exists_cons_tl, Exists_cons_hd. intros [_ Hn]. by apply Hn. Qed.

Lemma listing_with_null_is_empty_witness :
  api_getVaultEntries (w_net null_world) = (Ok listing_with_null, [])
  ∧ truthy (field listing_with_null "error") = false
  ∧ field listing_with_null "data" = VArr [good_entry; VNull; good_entry]
  ∧ Exists (λ e, ¬ readable e) [good_entry; VNull; good_entry]
  ∧ ∃ w' : world, getVaultEntries the_key null_world = (Ok [], w').
Proof.
  assert (truthy (field listing_with_null "error") = false) as Herr
    by (vm_compute; reflexivity).
  assert (field listing_with_null "data" = VArr [good_entry; VNull; good_entry]) as Hdata
    by (vm_compute; reflexivity).
  split; [reflexivity|]. split; [exact Herr|]. split; [exact Hdata|].
  split; [exact null_among_entries|].
  exact (ListingFacts.listing_with_null_is_empty the_key null_world listing_with_null []
           [good_entry; VNull; good_entry] eq_refl Herr Hdata null_among_entries).
Defined.

Lemma generatePassword_bias_witness :
  let charset := build_charset default_options in
  let n := String.length charset in
  (0 < n)%nat
  ∧ Bias.hits charset 0 = (256 / n + (if (0 <? 256 mod n)%nat then 1 else 0))%nat
  ∧ (0 < 256 mod n)%nat.
Proof.
  assert (0 < String.length (build_charset default_options))%nat as Hj
    by (vm_compute; lia).
  split; [exact Hj|].
  exact (BiasFacts.generatePassword_bias default_options 0 Hj).
Defined.

Lemma login_response_reveals_key_witness :
  (length the_key ≤ length challenge)%nat
  ∧ length (Auth.login_response challenge the_key) = length challenge
  ∧ take (length the_key)
         (zip_with byte_xor (Auth.login_response challenge the_key) challenge)
    = the_key.
Proof.
  assert (length the_key ≤ length challenge)%nat as Hlen by (vm_compute; lia).
  split; [exact Hlen|].
  exact (AuthFacts.login_response_reveals_key challenge the_key Hlen).
Defined.

Lemma locked_vault_refuses_witness :
  VaultServiceClass.masterKey (VaultServiceClass.this locked_object) = None
  ∧ VaultServiceClass.isUnlocked locked_object = (Ok false, locked_object)
  ∧ VaultServiceClass.updateVaultEntry "e7" netflix locked_object
    = (Throw VaultServiceClass.locked, locked_object)
  ∧ VaultServiceClass.encryptVaultEntry netflix locked_object
    = (Throw VaultServiceClass.locked, locked_object)
  ∧ VaultServiceClass.decryptVaultEntry gmail_blob locked_object
    = (Throw VaultServiceClass.locked, locked_object).
Proof.
  split; [reflexivity|].
  exact (VaultServiceClassFacts.locked_vault_refuses locked_object "e7" netflix gmail_blob
           eq_refl).
Defined.

Lemma unlocked_encrypt_decrypt_witness :
  base64_roundtrip ∧ randombytes_length ∧ secretbox_roundtrip
  ∧ VaultServiceClass.masterKey (VaultServiceClass.this unlocked_object) = Some the_key
  ∧ length the_key = 32%nat
  ∧ storable netflix
  ∧ ∃ (blob : string) (n c : bytes) (st' : VaultServiceClass.state),
      VaultServiceClass.encryptVaultEntry netflix unlocked_object = (Ok blob, st')
      ∧ VaultServiceClass.this st' = VaultServiceClass.this unlocked_object
      ∧ requests (VaultServiceClass.session st')
        = requests (VaultServiceClass.session unlocked_object)
      ∧ from_base64 blob = Ok (replicate 16 x00 ++ n ++ c)
      ∧ VaultServiceClass.decryptVaultEntry blob st' = (Ok netflix, st').
Proof.
  split; [exact RefFacts.ref_base64_roundtrip|].
  split; [exact RefFacts.ref_randombytes_length|].
  split; [exact RefFacts.ref_secretbox_roundtrip|].
  split; [reflexivity|]. split; [reflexivity|]. split; [exact netflix_storable|].
  exact (VaultServiceClassFacts.unlocked_encrypt_decrypt unlocked_object the_key netflix
           RefFacts.ref_base64_roundtrip RefFacts.ref_randombytes_length
           RefFacts.ref_secretbox_roundtrip eq_refl eq_refl netflix_storable).
Defined.

Lemma setMasterPassword_outcome_witness :
  randombytes_length ∧ argon2_output_length
  ∧ ∃ (salt : bytes) (g' : rng) (st' : VaultServiceClass.state),
      randombytes_buf 16 (s_rng (VaultServiceClass.session locked_object)) = (Ok salt, g')
      ∧ length salt = 16%nat
      ∧ s_rng (VaultServiceClass.session st') = g'
      ∧ VaultServiceClass.masterPassword (VaultServiceClass.this st') = Some "hunter2"
      ∧ match argon2_hash {| pass := "hunter2"; salt := salt; type := Argon2id;
                             time := 3; mem := 65536; hashLen := 32 |} with
        | Ok hash =>
            VaultServiceClass.setMasterPassword "hunter2" locked_object = (Ok tt, st')
            ∧ VaultServiceClass.masterKey (VaultServiceClass.this st') = Some hash
            ∧ length hash = 32%nat
        | Throw e =>
            VaultServiceClass.setMasterPassword "hunter2" locked_object = (Throw e, st')
            ∧ VaultServiceClass.masterKey (VaultServiceClass.this st')
              = VaultServiceClass.masterKey (VaultServiceClass.this locked_object)
        end.
Proof.
  split; [exact RefFacts.ref_randombytes_length|].
  split; [exact RefFacts.ref_argon2_output_length|].
  exact (VaultServiceClassFacts.setMasterPassword_outcome "hunter2" locked_object
           RefFacts.ref_randombytes_length RefFacts.ref_argon2_output_length).
Defined.

Lemma stocked_entries_readable : Forall readable (Store.entries (Store.store stocked_app)).
Proof.
  unfold stocked_app. cbn [Store.store Store.entries Store.set_entries].
  repeat (apply Forall_cons_2; [by split|]). apply Forall_nil_2.
Qed.

Lemma deleteEntry_outcome_witness :
  Forall readable (Store.entries (Store.store stocked_app))
  ∧ ∃ (b : bool) (a' : Store.app),
      Store.deleteEntry "e7" stocked_app = (Ok b, a')
      ∧ (deleteVaultEntry "e7" (Store.service stocked_app)).1 = Ok b
      ∧ Store.isLoading (Store.store a') = false
      ∧ Store.error (Store.store a') = None
      ∧ Store.entries (Store.store a')
        = if b then filter (λ e, strict_neq_str (field e "id") "e7")
                           (Store.entries (Store.store stocked_app))
          else Store.entries (Store.store stocked_app).
Proof.
  split; [exact stocked_entries_readable|].
  exact (StoreFacts.deleteEntry_outcome "e7" stocked_app stocked_entries_readable).
Defined.

Lemma store_import_uploads_all_witness :
  Store.importVault archive the_key the_salt fresh_app
  = (Ok imported_entries, app_after_import)
  ∧ (importVault archive the_key (s_world (Store.service fresh_app))).1
    = Ok imported_entries
  ∧ Store.entries (Store.store app_after_import)
    = Store.entries (Store.store fresh_app) ++ imported_entries
  ∧ Store.isLoading (Store.store app_after_import) = false
  ∧ Store.error (Store.store app_after_import) = None
  ∧ ∃ payload : list jsval,
      requests (Store.service app_after_import)
      = requests (Store.service fresh_app) ++ [ImportVault (VArr payload)]
      ∧ length payload = length imported_entries.
Proof.
  assert (Store.importVault archive the_key the_salt fresh_app
          = (Ok imported_entries, app_after_import)) as Hrun
    by (unfold app_after_import; apply returned_as; vm_compute; reflexivity).
  split; [exact Hrun|].
  exact (StoreFacts.store_import_uploads_all archive the_key the_salt fresh_app
           app_after_import imported_entries Hrun).
Defined.

Lemma stocked_entries_storable :
  Forall (λ e, vault_entry e ∧ storable e) (Store.entries (Store.store stocked_app)).
Proof.
  unfold stocked_app. cbn [Store.store Store.entries Store.set_entries].
  apply Forall_cons_2; [split; [exact netflix_entry | exact netflix_storable]|].
  apply Forall_cons_2; [split; [exact github_entry | exact github_storable]|].
  apply Forall_cons_2; [split; [exact netflix_entry | exact netflix_storable]|].
  apply Forall_nil_2.
Qed.

Lemma reimport_doubles_the_store_witness :
  base64_roundtrip ∧ randombytes_length ∧ secretbox_roundtrip
  ∧ length the_key = 32%nat ∧ length the_salt = 16%nat
  ∧ Forall (λ e, vault_entry e ∧ storable e) (Store.entries (Store.store stocked_app))
  ∧ ∃ (timestamp : string) (wrappers : list jsval) (a1 : Store.app),
      let json := JSON_stringify (archive_object timestamp wrappers) (Some 2) in
      Store.exportVault the_key the_salt stocked_app = (Ok json, a1)
      ∧ Store.store a1 = Store.store stocked_app
      ∧ (JSON_parse json = Ok (archive_object timestamp wrappers) →
         ∀ (saved : list jsval) (a2 : Store.app),
           Store.importVault json the_key the_salt a1 = (Ok saved, a2) →
           saved = Store.entries (Store.store stocked_app)
           ∧ Store.entries (Store.store a2)
             = Store.entries (Store.store stocked_app)
               ++ Store.entries (Store.store stocked_app)).
Proof.
  split; [exact RefFacts.ref_base64_roundtrip|].
  split; [exact RefFacts.ref_randombytes_length|].
  split; [exact RefFacts.ref_secretbox_roundtrip|].
  split; [reflexivity|]. split; [reflexivity|].
  split; [exact stocked_entries_storable|].
  exact (StoreFacts.reimport_doubles_the_store the_key the_salt stocked_app
           RefFacts.ref_base64_roundtrip RefFacts.ref_randombytes_length
           RefFacts.ref_secretbox_roundtrip eq_refl eq_refl stocked_entries_storable).
Defined.

End WitnessesOps.
